(** * TunnelMesh: benchmark protocol, chaos filter, token authority,
      peer routing and directory liveness

    A shallow embedding of the Go sources of the repository:
    - the framed message codec of [internal/benchmark] (protocol.go),
    - [ChaosConfig], [Config] and [Result] of [internal/benchmark/benchmark.go],
    - [TokenBucket] and [ChaosWriter] of [internal/benchmark] (chaos.go),
    - [GenerateToken] / [ValidateToken] of [internal/coord/auth.go],
    - [ensurePeerRoute] of [internal/peer/ssh.go],
    - the online computation of [internal/coord/admin.go].

    Conventions.  Go's fixed-width integers are [Z] with the wrap-around of
    each conversion written out; [time.Time] and [time.Duration] are [Z]
    nanoseconds; a Go [string] is a [string] whose characters are its bytes;
    [[]byte] is [list byte].  [float64] values are idealised as exact
    rationals ([Q]): rounding is not modelled, and a [float64] that is no
    number (NaN, an infinity) appears only as a [float64_value]. *)

From stdpp Require Import base option list gmap strings pretty sorting.
From Stdlib Require Import ZArith QArith Qround Lia Lqa List Bool.
From Stdlib.Strings Require Import String Byte.
Import ListNotations.

#[local] Open Scope Z_scope.

(* ===================================================================== *)
(** * Part I.  The model                                                  *)
(* ===================================================================== *)

(** ** Machine integers *)

Definition wrap (bits : Z) (z : Z) : Z := z mod 2 ^ bits.

(** Conversion to a signed [bits]-wide integer (two's complement). *)
Definition swrap (bits : Z) (z : Z) : Z :=
  let u := wrap bits z in
  if u <? 2 ^ (bits - 1) then u else u - 2 ^ bits.

Definition uint8 := wrap 8.
Definition uint16 := wrap 16.
Definition uint32 := wrap 32.
Definition uint64 := wrap 64.
Definition int64 := swrap 64.

Definition is_uint32 (z : Z) : Prop := 0 <= z < 2 ^ 32.
Definition is_int64 (z : Z) : Prop := - 2 ^ 63 <= z < 2 ^ 63.

(** Length of a slice or string, as Go's [len]. *)
Definition len {A} (l : list A) : Z := Z.of_nat (List.length l).

(** ** Bytes and strings *)

Definition bytes := list byte.

Definition byte_to_Z (b : byte) : Z := Z.of_N (Byte.to_N b).

(** Go's [byte(z)] conversion: keeps the low eight bits. *)
Definition byte_of_Z (z : Z) : byte :=
  match Byte.of_N (Z.to_N (uint8 z)) with
  | Some b => b
  | None => "000"%byte
  end.

(** [[]byte(s)] and [string(data)]. *)
Definition bytes_of_string (s : string) : bytes := list_byte_of_string s.
Definition string_of_bytes (bs : bytes) : string := string_of_list_byte bs.

(** ** [encoding/binary], big endian *)

(** [PutUintN]: byte [i] is [byte(v >> (8 * (k - 1 - i)))]. *)
Fixpoint be_encode (k : nat) (v : Z) : bytes :=
  match k with
  | O => []
  | S k' => byte_of_Z (Z.shiftr v (8 * Z.of_nat k')) :: be_encode k' v
  end.

(** [UintN]: the bytes read as a base-256 numeral, most significant first. *)
Definition be_decode (bs : bytes) : Z :=
  fold_left (fun acc b => acc * 256 + byte_to_Z b) bs 0.

(** ** Readers and writers

    The reader is an in-memory byte stream (a [bytes.Buffer], as in the
    package's tests): the bytes still to be read.  A read either fails with
    one of [io]'s errors or returns a value and the rest of the stream. *)

Inductive error : Type :=
| EOF
| ErrUnexpectedEOF.

Inductive result (A : Type) : Type :=
| Ok (a : A)
| Err (e : error).
Arguments Ok {A} a.
Arguments Err {A} e.

Definition Reader (A : Type) : Type := bytes -> result (A * bytes).

Definition ret {A} (a : A) : Reader A := fun r => Ok (a, r).

Definition bind {A B} (m : Reader A) (k : A -> Reader B) : Reader B :=
  fun r => match m r with
           | Ok (a, r') => k a r'
           | Err e => Err e
           end.

Declare Scope reader_scope.
Delimit Scope reader_scope with reader.
Notation "'let*' x := m 'in' k" := (bind m (fun x => k))
  (at level 10, x name, m at level 100, k at level 200) : reader_scope.
#[local] Open Scope reader_scope.

(** [io.ReadFull(r, buf)] with [len(buf) = n]: an empty buffer reads nothing
    and succeeds; end of stream before the first byte is [io.EOF], after it
    [io.ErrUnexpectedEOF]. *)
Definition ReadFull (n : nat) : Reader bytes := fun r =>
  match n with
  | O => Ok ([], r)
  | S _ =>
      match r with
      | [] => Err EOF
      | _ :: _ =>
          if (List.length r <? n)%nat then Err ErrUnexpectedEOF
          else Ok (firstn n r, skipn n r)
      end
  end.

(** [binary.Read(r, binary.BigEndian, &x)] for an unsigned [k]-byte [x]. *)
Definition read_uint (k : nat) : Reader Z :=
  let* bs := ReadFull k in ret (be_decode bs).

Definition read_byte : Reader byte :=
  let* bs := ReadFull 1 in ret (hd "000"%byte bs).

Definition read_uint16 : Reader Z := read_uint 2.
Definition read_uint32 : Reader Z := read_uint 4.
(** For a signed target the eight bytes are reinterpreted. *)
Definition read_int64 : Reader Z := let* u := read_uint 8 in ret (int64 u).

(** [binary.Write(w, binary.BigEndian, x)]: the bytes appended to the writer
    (a buffer, whose [Write] never fails). *)
Definition write_byte (b : byte) : bytes := [b].
Definition write_uint16 (v : Z) : bytes := be_encode 2 v.
Definition write_uint32 (v : Z) : bytes := be_encode 4 v.
Definition write_int64 (v : Z) : bytes := be_encode 8 (uint64 v).

(** ** protocol.go: string helpers *)

Definition writeString (s : string) : bytes :=
  write_uint16 (uint16 (len (bytes_of_string s))) ++ bytes_of_string s.

Definition readString : Reader string :=
  let* length := read_uint16 in
  if length =? 0 then ret ""%string
  else let* data := ReadFull (Z.to_nat length) in ret (string_of_bytes data).

(** ** protocol.go: message types *)

Definition MessageType := byte.

Definition MsgStart : MessageType := "0"%byte.     (* 0x30 *)
Definition MsgAck : MessageType := "1"%byte.       (* 0x31 *)
Definition MsgData : MessageType := "2"%byte.      (* 0x32 *)
Definition MsgPing : MessageType := "4"%byte.      (* 0x34 *)
Definition MsgPong : MessageType := "5"%byte.      (* 0x35 *)
Definition MsgComplete : MessageType := "3"%byte.  (* 0x33 *)
Definition MsgError : MessageType := "?"%byte.     (* 0x3F *)

Definition known_type (t : MessageType) : bool :=
  existsb (Byte.eqb t)
    [MsgStart; MsgAck; MsgData; MsgPing; MsgPong; MsgComplete; MsgError].

(** The [Message] interface. [Encode] gives the bytes written; [Decode]
    gives the decoded value where Go fills the receiver in place. *)
Class Message (M : Type) : Type := {
  Encode : M -> bytes;
  Decode : Reader M
}.

Record StartMessage : Type := {
  Start_Size : Z;            (* int64 *)
  Start_Direction : string
}.

Record AckMessage : Type := {
  Ack_Accepted : bool;
  Ack_Error : string
}.

Record DataMessage : Type := {
  Data_SeqNum : Z;           (* uint32 *)
  Data_Data : bytes
}.

Record PingMessage : Type := {
  Ping_SeqNum : Z;           (* uint32 *)
  Ping_Timestamp : Z         (* int64 *)
}.

Record PongMessage : Type := {
  Pong_SeqNum : Z;           (* uint32 *)
  Pong_PingTimestamp : Z     (* int64 *)
}.

Record CompleteMessage : Type := {
  Complete_BytesTransferred : Z;  (* int64 *)
  Complete_DurationNs : Z         (* int64 *)
}.

Record ErrorMessage : Type := {
  Error_Error : string
}.

#[export] Instance StartMessage_Message : Message StartMessage := {|
  Encode m := write_int64 (Start_Size m) ++ writeString (Start_Direction m);
  Decode :=
    let* size := read_int64 in
    let* direction := readString in
    ret {| Start_Size := size; Start_Direction := direction |}
|}.

#[export] Instance AckMessage_Message : Message AckMessage := {|
  Encode m :=
    write_byte (if Ack_Accepted m then "001"%byte else "000"%byte)
      ++ writeString (Ack_Error m);
  Decode :=
    let* accepted := read_byte in
    let* err := readString in
    ret {| Ack_Accepted := negb (Byte.eqb accepted "000"%byte);
           Ack_Error := err |}
|}.

#[export] Instance DataMessage_Message : Message DataMessage := {|
  Encode m :=
    write_uint32 (Data_SeqNum m)
      ++ write_uint32 (uint32 (len (Data_Data m)))
      ++ Data_Data m;
  Decode :=
    let* seq := read_uint32 in
    let* length := read_uint32 in
    let* data := ReadFull (Z.to_nat length) in
    ret {| Data_SeqNum := seq; Data_Data := data |}
|}.

#[export] Instance PingMessage_Message : Message PingMessage := {|
  Encode m := write_uint32 (Ping_SeqNum m) ++ write_int64 (Ping_Timestamp m);
  Decode :=
    let* seq := read_uint32 in
    let* ts := read_int64 in
    ret {| Ping_SeqNum := seq; Ping_Timestamp := ts |}
|}.

#[export] Instance PongMessage_Message : Message PongMessage := {|
  Encode m :=
    write_uint32 (Pong_SeqNum m) ++ write_int64 (Pong_PingTimestamp m);
  Decode :=
    let* seq := read_uint32 in
    let* ts := read_int64 in
    ret {| Pong_SeqNum := seq; Pong_PingTimestamp := ts |}
|}.

#[export] Instance CompleteMessage_Message : Message CompleteMessage := {|
  Encode m :=
    write_int64 (Complete_BytesTransferred m)
      ++ write_int64 (Complete_DurationNs m);
  Decode :=
    let* n := read_int64 in
    let* d := read_int64 in
    ret {| Complete_BytesTransferred := n; Complete_DurationNs := d |}
|}.

#[export] Instance ErrorMessage_Message : Message ErrorMessage := {|
  Encode m := writeString (Error_Error m);
  Decode := let* err := readString in ret {| Error_Error := err |}
|}.

(** ** protocol.go: framing *)

Definition ReadMessage : Reader (MessageType * bytes) :=
  let* msgType := read_byte in
  let* length := read_uint32 in
  let* data := ReadFull (Z.to_nat length) in
  ret (msgType, data).

Definition WriteMessage {M} `{Message M} (msgType : MessageType) (msg : M)
  : bytes :=
  let temp := Encode msg in
  write_byte msgType ++ write_uint32 (uint32 (len temp)) ++ temp.

(** The value ranges of the Go field types. *)
Definition StartMessage_typed (m : StartMessage) : Prop :=
  is_int64 (Start_Size m).
Definition DataMessage_typed (m : DataMessage) : Prop :=
  is_uint32 (Data_SeqNum m).
Definition PingMessage_typed (m : PingMessage) : Prop :=
  is_uint32 (Ping_SeqNum m) /\ is_int64 (Ping_Timestamp m).
Definition PongMessage_typed (m : PongMessage) : Prop :=
  is_uint32 (Pong_SeqNum m) /\ is_int64 (Pong_PingTimestamp m).
Definition CompleteMessage_typed (m : CompleteMessage) : Prop :=
  is_int64 (Complete_BytesTransferred m) /\ is_int64 (Complete_DurationNs m).

(** A string fits the two-byte length prefix of [writeString]. *)
Definition fits_string (s : string) : Prop := len (bytes_of_string s) < 2 ^ 16.

(** [decodes_back m]: decoding the encoding of [m], whatever follows it in
    the stream, gives [m] and leaves what follows. *)
Definition decodes_back {M} `{Message M} (m : M) : Prop :=
  forall rest, Decode (Encode m ++ rest) = Ok (m, rest).

(** [frames_back m]: [WriteMessage] then [ReadMessage] gives the type back,
    and a payload that decodes to [m]. *)
Definition frames_back {M} `{Message M} (m : M) : Prop :=
  forall (t : MessageType) (rest : bytes),
  exists payload,
    ReadMessage (WriteMessage t m ++ rest) = Ok ((t, payload), rest)
    /\ Decode payload = Ok (m, []).

(** The length field of a frame header, and a stream too short for the
    frame it starts. *)
Definition declared_length (r : bytes) : Z :=
  be_decode (firstn 4 (skipn 1 r)).

Definition truncated (r : bytes) : Prop :=
  len r < 5 \/ len r < 5 + declared_length r.

(** ** benchmark.go *)

(** [float64], idealised: exact rational arithmetic. *)
Definition float64 := Q.

Definition Qltb (x y : Q) : bool := negb (Qle_bool y x).

Definition DirectionUpload : string := "upload".
Definition DirectionDownload : string := "download".

Record ChaosConfig : Type := {
  PacketLossPercent : float64;
  Latency : Z;        (* time.Duration *)
  Jitter : Z;         (* time.Duration *)
  BandwidthBps : Z    (* int64 *)
}.

Inductive ChaosError : Type :=
| ErrPacketLoss
| ErrLatencyNegative
| ErrJitterNegative
| ErrBandwidthNegative.

Definition ChaosConfig_Validate (c : ChaosConfig) : option ChaosError :=
  if Qltb (PacketLossPercent c) 0 || Qltb 100 (PacketLossPercent c)
  then Some ErrPacketLoss
  else if Latency c <? 0 then Some ErrLatencyNegative
  else if Jitter c <? 0 then Some ErrJitterNegative
  else if BandwidthBps c <? 0 then Some ErrBandwidthNegative
  else None.

Record Config : Type := {
  PeerName : string;
  Size : Z;           (* int64 *)
  Direction : string;
  Timeout : Z;        (* time.Duration *)
  Port : Z;           (* int *)
  Chaos : ChaosConfig
}.

Inductive ConfigError : Type :=
| ErrPeerNameRequired
| ErrSizeNotPositive
| ErrDirection
| ErrChaosConfig (e : ChaosError).

Definition Config_Validate (c : Config) : option ConfigError :=
  if String.eqb (PeerName c) "" then Some ErrPeerNameRequired
  else if Size c <=? 0 then Some ErrSizeNotPositive
  else if negb (String.eqb (Direction c) "")
          && negb (String.eqb (Direction c) DirectionUpload)
          && negb (String.eqb (Direction c) DirectionDownload)
  then Some ErrDirection
  else match ChaosConfig_Validate (Chaos c) with
       | Some e => Some (ErrChaosConfig e)
       | None => None
       end.

(** ** benchmark.go: a packet loss that is no number

    [PacketLossPercent] can be read from the environment, and what is read
    need not be a number: a [float64] is a number, an infinity or NaN. *)

Inductive float64_value : Type :=
| NaN
| Inf (negative : bool)
| Num (q : float64).

(** [x < y] on such values; a comparison with NaN is false. *)
Definition float64_lt (x y : float64_value) : bool :=
  match x, y with
  | NaN, _ => false
  | _, NaN => false
  | Inf true, Inf true => false
  | Inf true, _ => true
  | Inf false, _ => false
  | Num _, Inf negative => negb negative
  | Num p, Num q => Qltb p q
  end.

(** [ChaosConfig.Validate] on the configuration [c] with [loss] for its
    [PacketLossPercent]. *)
Definition ChaosConfig_Validate_loss (loss : float64_value)
  (c : ChaosConfig) : option ChaosError :=
  if float64_lt loss (Num 0%Q) || float64_lt (Num 100%Q) loss
  then Some ErrPacketLoss
  else if Latency c <? 0 then Some ErrLatencyNegative
  else if Jitter c <? 0 then Some ErrJitterNegative
  else if BandwidthBps c <? 0 then Some ErrBandwidthNegative
  else None.

(** [Config.Validate] likewise. *)
Definition Config_Validate_loss (loss : float64_value) (c : Config)
  : option ConfigError :=
  if String.eqb (PeerName c) "" then Some ErrPeerNameRequired
  else if Size c <=? 0 then Some ErrSizeNotPositive
  else if negb (String.eqb (Direction c) "")
          && negb (String.eqb (Direction c) DirectionUpload)
          && negb (String.eqb (Direction c) DirectionDownload)
  then Some ErrDirection
  else match ChaosConfig_Validate_loss loss (Chaos c) with
       | Some e => Some (ErrChaosConfig e)
       | None => None
       end.

Record Result : Type := {
  ID : string;
  Timestamp : Z;             (* time.Time *)
  LocalPeer : string;
  RemotePeer : string;
  Result_Direction : string;
  RequestedSize : Z;         (* int64 *)
  TransferredSize : Z;       (* int64 *)
  DurationMs : Z;            (* int64 *)
  ThroughputBps : float64;
  ThroughputMbps : float64;
  LatencyMinMs : float64;
  LatencyMaxMs : float64;
  LatencyAvgMs : float64;
  Success : bool;
  Result_Error : string;
  Result_Chaos : option ChaosConfig   (* *ChaosConfig *)
}.

(** The divisor of the one division of [CalculateThroughput]. *)
Definition durationSec (r : Result) : float64 :=
  (inject_Z (DurationMs r) / 1000)%Q.

Definition CalculateThroughput (r : Result) : Result :=
  if DurationMs r >? 0 then
    let bps := (inject_Z (TransferredSize r) / durationSec r)%Q in
    {| ID := ID r;
       Timestamp := Timestamp r;
       LocalPeer := LocalPeer r;
       RemotePeer := RemotePeer r;
       Result_Direction := Result_Direction r;
       RequestedSize := RequestedSize r;
       TransferredSize := TransferredSize r;
       DurationMs := DurationMs r;
       ThroughputBps := bps;
       ThroughputMbps := (bps * 8 / 1000000)%Q;
       LatencyMinMs := LatencyMinMs r;
       LatencyMaxMs := LatencyMaxMs r;
       LatencyAvgMs := LatencyAvgMs r;
       Success := Success r;
       Result_Error := Result_Error r;
       Result_Chaos := Result_Chaos r |}
  else r.

(** ** Time

    [time.Time] is a count of nanoseconds, [time.Duration] an [int64] count
    of nanoseconds. *)

Definition Millisecond : Z := 1000000.
Definition Second : Z := 1000 * Millisecond.
Definition Minute : Z := 60 * Second.
Definition Hour : Z := 60 * Minute.

Definition minDuration : Z := - 2 ^ 63.
Definition maxDuration : Z := 2 ^ 63 - 1.

(** [t.Sub(u)]: the difference, saturated to the range of [Duration]. *)
Definition Time_Sub (t u : Z) : Z :=
  let d := t - u in
  if d <? minDuration then minDuration
  else if maxDuration <? d then maxDuration
  else d.

(** [d.Seconds()]. *)
Definition Seconds (d : Z) : float64 := (inject_Z d / inject_Z Second)%Q.

(** Truncation toward zero. *)
Definition Qtrunc (q : Q) : Z :=
  if Qle_bool 0 q then Qfloor q else Qceiling q.

(** [time.Duration(f)], a conversion of a [float64] to [int64]: the
    fraction is discarded. When the truncated value is outside [int64] Go
    leaves the result to the implementation; the amd64 result, the least
    [int64], is taken here. *)
Definition Duration_of_float64 (f : float64) : Z :=
  let t := Qtrunc f in
  if (minDuration <=? t) && (t <=? maxDuration) then t else minDuration.

(** ** chaos.go: TokenBucket *)

Record TokenBucket : Type := {
  rate : float64;       (* bytes per second *)
  tokens : float64;     (* current tokens *)
  maxTokens : float64;  (* bucket size *)
  lastUpdate : Z        (* time.Time *)
}.

(** [now] is the reading of [time.Now()]. *)
Definition NewTokenBucket (bytesPerSec : Z) (now : Z) : TokenBucket :=
  {| rate := inject_Z bytesPerSec;
     tokens := inject_Z bytesPerSec;
     maxTokens := inject_Z bytesPerSec;
     lastUpdate := now |}.

(** The refill at the start of [Take]: the tokens after adding those of
    the time elapsed and capping at [maxTokens]. *)
Definition refill (tb : TokenBucket) (now : Z) : float64 :=
  let elapsed := Seconds (Time_Sub now (lastUpdate tb)) in
  let refilled := (tokens tb + elapsed * rate tb)%Q in
  if Qltb (maxTokens tb) refilled then maxTokens tb else refilled.

(** [tb.Take(n)] called when [time.Now()] reads [now]: the wait returned and
    the bucket afterwards. *)
Definition Take (tb : TokenBucket) (now : Z) (n : Z) : Z * TokenBucket :=
  let available := refill tb now in
  let needed := inject_Z n in
  if Qle_bool needed available then
    (0, {| rate := rate tb;
           tokens := (available - needed)%Q;
           maxTokens := maxTokens tb;
           lastUpdate := now |})
  else
    let deficit := (needed - available)%Q in
    let waitTime :=
      Duration_of_float64 (deficit / rate tb * inject_Z Second)%Q in
    (waitTime, {| rate := rate tb;
                  tokens := 0%Q;
                  maxTokens := maxTokens tb;
                  lastUpdate := now |}).

(** What [NewTokenBucket] sets up and [Take] keeps. *)
Definition bucket_inv (tb : TokenBucket) : Prop :=
  (0 < rate tb)%Q /\ (maxTokens tb == rate tb)%Q
  /\ (0 <= tokens tb)%Q /\ (tokens tb <= maxTokens tb)%Q.

(** A run of [Take] calls as [ChaosWriter.Write] makes them, each given as
    the nanoseconds gone by since the call before (since the bucket was
    made, for the first) and the number of tokens asked for; the waits
    returned and the final bucket.  [Take] reads [time.Now()], whose
    readings are monotonic: no call reads a clock earlier than the
    [lastUpdate] the call before left.  The tokens asked for are
    [len(p)], the length of a slice. *)
Fixpoint Takes (tb : TokenBucket) (calls : list (N * N))
  : list Z * TokenBucket :=
  match calls with
  | [] => ([], tb)
  | (gap, n) :: rest =>
      let '(w, tb') := Take tb (lastUpdate tb + Z.of_N gap) (Z.of_N n) in
      let '(ws, tb'') := Takes tb' rest in
      (w :: ws, tb'')
  end.

(** ** chaos.go: ChaosWriter *)

Record ChaosWriterStats : Type := {
  TotalWrites : Z;    (* int64 *)
  DroppedWrites : Z;  (* int64 *)
  TotalBytes : Z;     (* int64 *)
  ActualBytes : Z     (* int64 *)
}.

(** An error of the underlying writer. *)
Inductive write_error : Type := WriteFailed (code : Z).

(** [io.Writer]: a write gives [(n, err)] and the writer afterwards. *)
Class Writer (W : Type) : Type := {
  Writer_Write : W -> bytes -> (Z * option write_error) * W
}.

(** protocol.go's [limitedBuffer], an [io.Writer] that appends. *)
Record limitedBuffer : Type := { buf : bytes }.

#[export] Instance limitedBuffer_Writer : Writer limitedBuffer := {|
  Writer_Write b p := ((len p, None), {| buf := buf b ++ p |})
|}.

(** [*rand.Rand], as the sequence of values it is going to produce: the
    raw draws still to come for [Float64] and for [Int63n]. *)
Record Rand : Type := {
  float_draws : list Q;
  int_draws : list Z
}.

(** [rng.Float64()]: a value in [0, 1). *)
Definition Rand_Float64 (r : Rand) : float64 * Rand :=
  match float_draws r with
  | [] => (0%Q, r)
  | f :: fs =>
      ((f - inject_Z (Qfloor f))%Q,
       {| float_draws := fs; int_draws := int_draws r |})
  end.

(** [rng.Int63n(n)]: a value in [0, n); panics ([None]) when [n <= 0]. *)
Definition Rand_Int63n (r : Rand) (n : Z) : option (Z * Rand) :=
  if n <=? 0 then None
  else match int_draws r with
       | [] => Some (0, r)
       | i :: rest =>
           Some (i mod n, {| float_draws := float_draws r; int_draws := rest |})
       end.

Record ChaosWriter (W : Type) : Type := {
  cw_w : W;
  cw_cfg : ChaosConfig;
  cw_rng : Rand;
  cw_bucket : option TokenBucket;   (* nil when there is no limit *)
  cw_stats : ChaosWriterStats
}.
Arguments cw_w {W} _.
Arguments cw_cfg {W} _.
Arguments cw_rng {W} _.
Arguments cw_bucket {W} _.
Arguments cw_stats {W} _.

Definition NewChaosWriterWithRng {W} (w : W) (cfg : ChaosConfig) (rng : Rand)
  (now : Z) : ChaosWriter W :=
  {| cw_w := w;
     cw_cfg := cfg;
     cw_rng := rng;
     cw_bucket :=
       if BandwidthBps cfg >? 0 then Some (NewTokenBucket (BandwidthBps cfg) now)
       else None;
     cw_stats := {| TotalWrites := 0; DroppedWrites := 0;
                    TotalBytes := 0; ActualBytes := 0 |} |}.

(** What a call does to the world outside the writer. *)
Inductive Event : Type :=
| EvSleep (d : Z)          (* time.Sleep(d) *)
| EvWrite (p : bytes).     (* c.w.Write(p) *)

Inductive outcome : Type :=
| Returned (n : Z) (err : option write_error)
| Panicked.

(** The state a call of [Write] runs in: the clock, what it has done so
    far, and the writer. *)
Record WriteState (W : Type) : Type := {
  ws_clock : Z;
  ws_events : list Event;
  ws_cw : ChaosWriter W
}.
Arguments ws_clock {W} _.
Arguments ws_events {W} _.
Arguments ws_cw {W} _.

Section ChaosWriterModel.

Context {W : Type} `{Writer W}.

Definition set_stats (c : ChaosWriter W) (st : ChaosWriterStats)
  : ChaosWriter W :=
  {| cw_w := cw_w c; cw_cfg := cw_cfg c; cw_rng := cw_rng c;
     cw_bucket := cw_bucket c; cw_stats := st |}.

Definition set_rng (c : ChaosWriter W) (r : Rand) : ChaosWriter W :=
  {| cw_w := cw_w c; cw_cfg := cw_cfg c; cw_rng := r;
     cw_bucket := cw_bucket c; cw_stats := cw_stats c |}.

Definition set_bucket (c : ChaosWriter W) (b : option TokenBucket)
  : ChaosWriter W :=
  {| cw_w := cw_w c; cw_cfg := cw_cfg c; cw_rng := cw_rng c;
     cw_bucket := b; cw_stats := cw_stats c |}.

Definition set_w (c : ChaosWriter W) (w : W) : ChaosWriter W :=
  {| cw_w := w; cw_cfg := cw_cfg c; cw_rng := cw_rng c;
     cw_bucket := cw_bucket c; cw_stats := cw_stats c |}.

(** [time.Sleep(d)]: the clock moves on by [d]. *)
Definition sleep (d : Z) (s : WriteState W) : WriteState W :=
  {| ws_clock := ws_clock s + d;
     ws_events := ws_events s ++ [EvSleep d];
     ws_cw := ws_cw s |}.

(** [if d > 0 { time.Sleep(d) }]. *)
Definition sleep_if_positive (d : Z) (s : WriteState W) : WriteState W :=
  if d >? 0 then sleep d s else s.

Definition with_cw (s : WriteState W) (c : ChaosWriter W) : WriteState W :=
  {| ws_clock := ws_clock s; ws_events := ws_events s; ws_cw := c |}.

(** Step 4 of [Write]: the underlying write and its accounting. *)
Definition write_through (p : bytes) (s : WriteState W)
  : outcome * WriteState W :=
  let c := ws_cw s in
  let '((n, err), w') := Writer_Write (cw_w c) p in
  let st := cw_stats c in
  let c' := set_stats (set_w c w')
              {| TotalWrites := TotalWrites st;
                 DroppedWrites := DroppedWrites st;
                 TotalBytes := TotalBytes st;
                 ActualBytes := int64 (ActualBytes st + int64 n) |} in
  (Returned n err,
   {| ws_clock := ws_clock s;
      ws_events := ws_events s ++ [EvWrite p];
      ws_cw := c' |}).

(** Step 3 of [Write]: latency and jitter, then step 4. *)
Definition add_latency (p : bytes) (s : WriteState W)
  : outcome * WriteState W :=
  let c := ws_cw s in
  let cfg := cw_cfg c in
  if (Latency cfg >? 0) || (Jitter cfg >? 0) then
    if Jitter cfg >? 0 then
      let jitterRange := int64 (2 * Jitter cfg) in
      match Rand_Int63n (cw_rng c) jitterRange with
      | None => (Panicked, s)
      | Some (draw, rng') =>
          let jitterOffset := int64 (draw - Jitter cfg) in
          let delay := int64 (Latency cfg + jitterOffset) in
          let delay := if delay <? 0 then 0 else delay in
          let s := with_cw s (set_rng c rng') in
          write_through p (sleep_if_positive delay s)
      end
    else
      let delay := Latency cfg in
      write_through p (sleep_if_positive delay s)
  else write_through p s.

(** Step 2 of [Write]: the bandwidth limit, then step 3. *)
Definition limit_bandwidth (p : bytes) (s : WriteState W)
  : outcome * WriteState W :=
  let c := ws_cw s in
  match cw_bucket c with
  | Some b =>
      let '(wait, b') := Take b (ws_clock s) (len p) in
      let s := with_cw s (set_bucket c (Some b')) in
      add_latency p (sleep_if_positive wait s)
  | None => add_latency p s
  end.

(** [c.Write(p)], called when the clock reads [now]. *)
Definition ChaosWriter_Write (c : ChaosWriter W) (now : Z) (p : bytes)
  : outcome * WriteState W :=
  let st := cw_stats c in
  let c := set_stats c
             {| TotalWrites := int64 (TotalWrites st + 1);
                DroppedWrites := DroppedWrites st;
                TotalBytes := int64 (TotalBytes st + int64 (len p));
                ActualBytes := ActualBytes st |} in
  let s := {| ws_clock := now; ws_events := []; ws_cw := c |} in
  if Qltb 0 (PacketLossPercent (cw_cfg c)) then
    let '(draw, rng') := Rand_Float64 (cw_rng c) in
    let c := set_rng c rng' in
    if Qltb (draw * 100) (PacketLossPercent (cw_cfg c)) then
      let st := cw_stats c in
      let c := set_stats c
                 {| TotalWrites := TotalWrites st;
                    DroppedWrites := int64 (DroppedWrites st + 1);
                    TotalBytes := TotalBytes st;
                    ActualBytes := ActualBytes st |} in
      (Returned (len p) None, with_cw s c)
    else limit_bandwidth p (with_cw s c)
  else limit_bandwidth p s.

(** The call drops [p]. *)
Definition drops (c : ChaosWriter W) : Prop :=
  (0 < PacketLossPercent (cw_cfg c))%Q
  /\ (fst (Rand_Float64 (cw_rng c)) * 100 < PacketLossPercent (cw_cfg c))%Q.

(** The statistics after the first step of [Write]. *)
Definition counted (c : ChaosWriter W) (p : bytes) : ChaosWriterStats :=
  {| TotalWrites := int64 (TotalWrites (cw_stats c) + 1);
     DroppedWrites := DroppedWrites (cw_stats c);
     TotalBytes := int64 (TotalBytes (cw_stats c) + int64 (len p));
     ActualBytes := ActualBytes (cw_stats c) |}.

(** The sleep of [if d > 0 { time.Sleep(d) }], as an event list. *)
Definition sleep_events (d : Z) : list Event :=
  if d >? 0 then [EvSleep d] else [].

(** The wait the bucket, if there is one, asks of a write of [p] at [now]. *)
Definition bandwidth_wait (c : ChaosWriter W) (now : Z) (p : bytes) : Z :=
  match cw_bucket c with
  | Some b => fst (Take b now (len p))
  | None => 0
  end.

(** The bucket after it was asked for the tokens of [p] at [now]. *)
Definition bucket_charged (c : ChaosWriter W) (now : Z) (p : bytes)
  : option TokenBucket :=
  option_map (fun b => snd (Take b now (len p))) (cw_bucket c).

(** An all-zero configuration without a bucket. *)
Definition no_effects (c : ChaosWriter W) : Prop :=
  (PacketLossPercent (cw_cfg c) == 0)%Q
  /\ Latency (cw_cfg c) = 0 /\ Jitter (cw_cfg c) = 0
  /\ BandwidthBps (cw_cfg c) = 0 /\ cw_bucket c = None.

End ChaosWriterModel.

(** ** coord/auth.go *)

Definition TokenExpiry : Z := 24 * Hour.

Record RegisteredClaims : Type := {
  ExpiresAt : option Z;   (* *jwt.NumericDate *)
  IssuedAt : option Z;    (* *jwt.NumericDate *)
  Issuer : string
}.

Record JWTClaims : Type := {
  Claims_PeerName : string;
  Claims_MeshIP : string;
  Claims_Registered : RegisteredClaims
}.

(** A signing method: one of the HMAC family ([*jwt.SigningMethodHMAC]:
    HS256, HS384, HS512), or any other. *)
Inductive SigningMethod : Type :=
| SigningMethodHMAC (alg : string)
| SigningMethodOther (alg : string).

Definition SigningMethodHS256 : SigningMethod := SigningMethodHMAC "HS256".

(** Modelled from the spec: the signature of the JWT library, which is not
    under src/ ("sign with HMAC-SHA-256 using the server secret"; "a token
    is valid iff signature verifies").  The MAC is symbolic: a signature
    records the key and the claims it was made for, and verifies under
    that key for those claims only. *)
Record Signature : Type := {
  signed_with : string;
  signed_claims : JWTClaims
}.

#[export] Instance RegisteredClaims_eq_dec : EqDecision RegisteredClaims.
Proof. solve_decision. Defined.
#[export] Instance JWTClaims_eq_dec : EqDecision JWTClaims.
Proof. solve_decision. Defined.
#[export] Instance Signature_eq_dec : EqDecision Signature.
Proof. solve_decision. Defined.

(** The compact [header.payload.sig] token, parsed. *)
Record Token : Type := {
  Token_Method : SigningMethod;
  Token_Claims : JWTClaims;
  Token_Signature : Signature
}.

(** Modelled from the spec: [jwt.NewNumericDate], of the JWT library, which
    is not under src/; the claim holds the time it is given
    ("expires_at = issued_at + 24h"). *)
Definition NewNumericDate (t : Z) : option Z := Some t.

(** Modelled from the spec: [token.SignedString(key)] of the JWT library,
    which is not under src/ ("build claims, sign with HMAC-SHA-256 using the
    server secret"). *)
Definition SignedString (method : SigningMethod) (claims : JWTClaims)
  (key : string) : Token :=
  {| Token_Method := method;
     Token_Claims := claims;
     Token_Signature := {| signed_with := key; signed_claims := claims |} |}.

(** Modelled from the spec: [jwt.ParseWithClaims] of the JWT library, which
    is not under src/ ("validate(token): parse, verify signature, verify
    now <= expires_at, return claims"; "a token is valid iff signature
    verifies and now <= expires_at").  [keyFunc] is the caller's key
    callback, [now] the clock reading at validation. *)
Definition ParseWithClaims (keyFunc : Token -> option string) (now : Z)
  (t : Token) : option JWTClaims :=
  match keyFunc t with
  | None => None
  | Some key =>
      if decide (Token_Signature t
                 = {| signed_with := key; signed_claims := Token_Claims t |})
      then match ExpiresAt (Claims_Registered (Token_Claims t)) with
           | Some exp => if now <=? exp then Some (Token_Claims t) else None
           | None => Some (Token_Claims t)
           end
      else None
  end.

(** [s.GenerateToken(peerName, meshIP)]; [now_exp] and [now_iat] are the
    readings of its two calls of [time.Now()], in that order. *)
Definition GenerateToken (AuthToken : string) (now_exp now_iat : Z)
  (peerName meshIP : string) : Token :=
  let claims :=
    {| Claims_PeerName := peerName;
       Claims_MeshIP := meshIP;
       Claims_Registered :=
         {| ExpiresAt := NewNumericDate (now_exp + TokenExpiry);
            IssuedAt := NewNumericDate now_iat;
            Issuer := "tunnelmesh" |} |} in
  SignedString SigningMethodHS256 claims AuthToken.

(** [s.ValidateToken(tokenString)] when the clock reads [now]. *)
Definition ValidateToken (AuthToken : string) (now : Z) (t : Token)
  : option JWTClaims :=
  ParseWithClaims
    (fun token =>
       match Token_Method token with
       | SigningMethodHMAC _ => Some AuthToken
       | SigningMethodOther _ => None   (* unexpected signing method *)
       end)
    now t.

(** ** coord/admin.go: the online flag *)

Definition onlineThreshold : Z := 2 * Minute.

Definition online (now lastSeen : Z) : bool :=
  Time_Sub now lastSeen <? onlineThreshold.

Record peerInfo : Type := {
  peer_Name : string;
  peer_MeshIP : string;
  peer_LastSeen : Z       (* time.Time *)
}.

Record AdminPeerInfo : Type := {
  Admin_Name : string;
  Admin_MeshIP : string;
  Admin_LastSeen : Z;
  Admin_Online : bool
}.

Record AdminOverview : Type := {
  TotalPeers : Z;
  OnlinePeers : Z;
  Peers : list AdminPeerInfo
}.

(** The body of the loop of [handleAdminOverview] for one peer, when the
    clock reads [now]; the fields of [AdminPeerInfo] that do not depend on
    the online flag beyond those kept here are left out. *)
Definition overview_step (now : Z) (overview : AdminOverview)
  (info : peerInfo) : AdminOverview :=
  let on := online now (peer_LastSeen info) in
  {| TotalPeers := TotalPeers overview;
     OnlinePeers :=
       if on then OnlinePeers overview + 1 else OnlinePeers overview;
     Peers := Peers overview
              ++ [ {| Admin_Name := peer_Name info;
                      Admin_MeshIP := peer_MeshIP info;
                      Admin_LastSeen := peer_LastSeen info;
                      Admin_Online := on |} ] |}.

(** The loop of [handleAdminOverview] over [s.peers]; the sort of [Peers]
    by mesh IP and the JSON encoding that follow are left out. *)
Definition handleAdminOverview (now : Z) (peers : list peerInfo)
  : AdminOverview :=
  fold_left (overview_step now) peers
    {| TotalPeers := len peers; OnlinePeers := 0; Peers := [] |}.

(** ** peer/ssh.go: ensurePeerRoute *)

Record Peer : Type := {    (* proto.Peer *)
  Peer_Name : string;
  Peer_MeshIP : string;
  Peer_PublicKey : string
}.

(** What [ensurePeerRoute] does, call by call. *)
Inductive Effect (PublicKey : Type) : Type :=
| CallListPeers (attempt : Z)
| Sleep (d : Z)
| AddRoute (meshIP name : string)
| CachePeerMeshIP (name meshIP : string)
| GetCachedPeerMeshIP (name : string)
| AddAuthorizedKey (k : PublicKey).
Arguments CallListPeers {PublicKey} attempt.
Arguments Sleep {PublicKey} d.
Arguments AddRoute {PublicKey} meshIP name.
Arguments CachePeerMeshIP {PublicKey} name meshIP.
Arguments GetCachedPeerMeshIP {PublicKey} name.
Arguments AddAuthorizedKey {PublicKey} k.

(** The node. [client] is [None] for a nil client and otherwise gives the
    answer of the directory to each [ListPeers] call of this run, by
    attempt number ([None]: the call failed).  [SSHTransport] is [None]
    for a nil transport and otherwise its authorized keys.

    Modelled from the spec: the router and the mesh-IP cache, whose code is
    not under src/ ("maps mesh_ip -> name"; "a cache peer_name ->
    last_known_mesh_ip"): [router.AddRoute] and [CachePeerMeshIP] insert,
    [GetCachedPeerMeshIP] looks up. *)
Record MeshNode (PublicKey : Type) : Type := {
  client : option (Z -> option (list Peer));
  router : gmap string string;
  peerCache : gmap string string;
  SSHTransport : option (list PublicKey);
  effects : list (Effect PublicKey)
}.
Arguments client {PublicKey} _.
Arguments router {PublicKey} _.
Arguments peerCache {PublicKey} _.
Arguments SSHTransport {PublicKey} _.
Arguments effects {PublicKey} _.

Definition maxRetries : Z := 5.

Section EnsurePeerRoute.

(** [ssh.PublicKey] and [config.DecodePublicKey], which are not under
    src/. *)
Variable PublicKey : Type.
Variable DecodePublicKey : string -> option PublicKey.

#[local] Abbreviation Node := (MeshNode PublicKey).

Definition emit (e : Effect PublicKey) (m : Node) : Node :=
  {| client := client m; router := router m; peerCache := peerCache m;
     SSHTransport := SSHTransport m; effects := effects m ++ [e] |}.

Definition router_AddRoute (meshIP name : string) (m : Node) : Node :=
  emit (AddRoute meshIP name)
    {| client := client m; router := <[meshIP := name]> (router m);
       peerCache := peerCache m; SSHTransport := SSHTransport m;
       effects := effects m |}.

Definition node_CachePeerMeshIP (name meshIP : string) (m : Node) : Node :=
  emit (CachePeerMeshIP name meshIP)
    {| client := client m; router := router m;
       peerCache := <[name := meshIP]> (peerCache m);
       SSHTransport := SSHTransport m; effects := effects m |}.

Definition node_GetCachedPeerMeshIP (name : string) (m : Node)
  : option string * Node :=
  (peerCache m !! name, emit (GetCachedPeerMeshIP name) m).

Definition transport_AddAuthorizedKey (k : PublicKey) (m : Node) : Node :=
  emit (AddAuthorizedKey k)
    {| client := client m; router := router m; peerCache := peerCache m;
       SSHTransport := option_map (fun keys => keys ++ [k]) (SSHTransport m);
       effects := effects m |}.

(** The body of the loop for a peer found in the list. *)
Definition route_found (peer : Peer) (m : Node) : string * Node :=
  let m := router_AddRoute (Peer_MeshIP peer) (Peer_Name peer) m in
  let m := node_CachePeerMeshIP (Peer_Name peer) (Peer_MeshIP peer) m in
  let m :=
    if negb (String.eqb (Peer_PublicKey peer) "")
       && bool_decide (is_Some (SSHTransport m))
    then match DecodePublicKey (Peer_PublicKey peer) with
         | None => m      (* logged, nothing installed *)
         | Some pubKey => transport_AddAuthorizedKey pubKey m
         end
    else m in
  (Peer_MeshIP peer, m).

(** The cache fallback, at the start without a client and after the loop. *)
Definition route_from_cache (peerName : string) (m : Node) : string * Node :=
  match node_GetCachedPeerMeshIP peerName m with
  | (Some meshIP, m) => (meshIP, router_AddRoute meshIP peerName m)
  | (None, m) => (""%string, m)
  end.

(** The retry loop, from [attempt] on, with [fuel] iterations left before
    [attempt] passes [maxRetries]: [inl] when the loop returns the mesh IP,
    [inr] when it is left (by [break] or by its condition). *)
Fixpoint retry_loop (fuel : nat) (listPeers : Z -> option (list Peer))
  (peerName : string) (attempt backoff : Z) (m : Node)
  : (string * Node) + Node :=
  match fuel with
  | O => inr m
  | S fuel' =>
      let m := emit (CallListPeers attempt) m in
      match listPeers attempt with
      | None =>
          if attempt <? maxRetries
          then retry_loop fuel' listPeers peerName (attempt + 1)
                 (int64 (backoff * 2)) (emit (Sleep backoff) m)
          else retry_loop fuel' listPeers peerName (attempt + 1) backoff m
      | Some peers =>
          match find (fun peer => String.eqb (Peer_Name peer) peerName) peers
          with
          | Some peer => inl (route_found peer m)
          | None => inr m
          end
      end
  end.

Definition ensurePeerRoute (peerName : string) (m : Node) : string * Node :=
  match client m with
  | None => route_from_cache peerName m
  | Some listPeers =>
      match retry_loop (Z.to_nat maxRetries) listPeers peerName 1
              (500 * Millisecond) m
      with
      | inl found => found
      | inr m => route_from_cache peerName m
      end
  end.

(** The sleeps, the directory calls and the cache look-ups among the
    effects. *)
Definition sleeps (es : list (Effect PublicKey)) : list Z :=
  flat_map (fun e => match e with Sleep d => [d] | _ => [] end) es.

Definition attempts (es : list (Effect PublicKey)) : list Z :=
  flat_map (fun e => match e with CallListPeers a => [a] | _ => [] end) es.

Definition cache_lookups (es : list (Effect PublicKey)) : list string :=
  flat_map (fun e => match e with GetCachedPeerMeshIP n => [n] | _ => [] end)
    es.

(** The sleeps between five attempts. *)
Definition backoff_schedule : list Z :=
  [500 * Millisecond; 1 * Second; 2 * Second; 4 * Second].

(** The calls and sleeps of [k] attempts of which all but the last have
    failed, the sleeps taken from [schedule]. *)
Fixpoint loop_trace (k : nat) (attempt : Z) (schedule : list Z)
  : list (Effect PublicKey) :=
  match k with
  | O => []
  | S k' =>
      CallListPeers attempt
        :: match k' with
           | O => []
           | S _ =>
               match schedule with
               | d :: schedule' =>
                   Sleep d :: loop_trace k' (attempt + 1) schedule'
               | [] => loop_trace k' (attempt + 1) []
               end
           end
  end.

(** The key [route_found] installs, if any. *)
Definition key_to_install (peer : Peer) (m : Node) : option PublicKey :=
  if negb (String.eqb (Peer_PublicKey peer) "")
     && bool_decide (is_Some (SSHTransport m))
  then DecodePublicKey (Peer_PublicKey peer)
  else None.

(** What is done for a peer found in the directory, and what is done with
    the cache when none was found. *)
Definition found_effects (peer : Peer) (m : Node) : list (Effect PublicKey) :=
  [AddRoute (Peer_MeshIP peer) (Peer_Name peer);
   CachePeerMeshIP (Peer_Name peer) (Peer_MeshIP peer)]
  ++ match key_to_install peer m with
     | Some key => [AddAuthorizedKey key]
     | None => []
     end.

Definition fallback_effects (peerName : string) (m : Node)
  : list (Effect PublicKey) :=
  GetCachedPeerMeshIP peerName
    :: match peerCache m !! peerName with
       | Some meshIP => [AddRoute meshIP peerName]
       | None => []
       end.

(** The run found [peer] after [k] attempts. *)
Definition found_after (k : nat) (peer : Peer) (m : Node) (r : string * Node)
  : Prop :=
  fst r = Peer_MeshIP peer
  /\ effects (snd r) = loop_trace k 1 backoff_schedule ++ found_effects peer m
  /\ peerCache (snd r)
     = <[Peer_Name peer := Peer_MeshIP peer]> (peerCache m)
  /\ router (snd r) = <[Peer_MeshIP peer := Peer_Name peer]> (router m)
  /\ SSHTransport (snd r)
     = match key_to_install peer m with
       | Some key => option_map (fun keys => keys ++ [key]) (SSHTransport m)
       | None => SSHTransport m
       end.

(** The run fell back on the cache after [k] attempts. *)
Definition fell_back_after (k : nat) (peerName : string) (m : Node)
  (r : string * Node) : Prop :=
  fst r = default ""%string (peerCache m !! peerName)
  /\ effects (snd r)
     = loop_trace k 1 backoff_schedule ++ fallback_effects peerName m
  /\ peerCache (snd r) = peerCache m
  /\ SSHTransport (snd r) = SSHTransport m.

(** The outcome of a run by its first answered attempt. *)
Definition run_outcome (k : nat) (peerName : string)
  (listPeers : Z -> option (list Peer)) (m : Node)
  (r : string * Node) : Prop :=
  match listPeers (Z.of_nat k) with
  | Some peers =>
      match find (fun peer => String.eqb (Peer_Name peer) peerName) peers with
      | Some peer => found_after k peer m r
      | None => fell_back_after k peerName m r
      end
  | None => k = 5%nat /\ fell_back_after k peerName m r
  end.

End EnsurePeerRoute.

Arguments ensurePeerRoute {PublicKey} DecodePublicKey peerName m.
Arguments retry_loop {PublicKey} DecodePublicKey fuel listPeers peerName
  attempt backoff m.
Arguments route_found {PublicKey} DecodePublicKey peer m.
Arguments route_from_cache {PublicKey} peerName m.
Arguments emit {PublicKey} e m.
Arguments sleeps {PublicKey} es.
Arguments attempts {PublicKey} es.
Arguments cache_lookups {PublicKey} es.
Arguments loop_trace {PublicKey} k attempt schedule.
Arguments key_to_install {PublicKey} DecodePublicKey peer m.
Arguments found_effects {PublicKey} DecodePublicKey peer m.
Arguments fallback_effects {PublicKey} peerName m.
Arguments found_after {PublicKey} DecodePublicKey k peer m r.
Arguments fell_back_after {PublicKey} k peerName m r.
Arguments run_outcome {PublicKey} DecodePublicKey k peerName listPeers m r.

(** ** protocol.go: [MessageType.String] *)

Definition MessageType_String (m : MessageType) : string :=
  if Byte.eqb m MsgStart then "Start"
  else if Byte.eqb m MsgAck then "Ack"
  else if Byte.eqb m MsgData then "Data"
  else if Byte.eqb m MsgPing then "Ping"
  else if Byte.eqb m MsgPong then "Pong"
  else if Byte.eqb m MsgComplete then "Complete"
  else if Byte.eqb m MsgError then "Error"
  else "Unknown(" ++ pretty (Byte.to_N m) ++ ")".

(** Every value of [MessageType]. *)
Definition all_bytes : list byte :=
  map (fun n => byte_of_Z (Z.of_nat n)) (seq 0 256).

(** ** benchmark.go: defaults *)

Definition DefaultPort : Z := 9998.
Definition DefaultTimeout : Z := 120 * Second.
Definition ChunkSize : Z := 64 * 1024.

Definition ChaosConfig_IsEnabled (c : ChaosConfig) : bool :=
  Qltb 0 (PacketLossPercent c) || (Latency c >? 0) || (Jitter c >? 0)
  || (BandwidthBps c >? 0).

Definition Config_WithDefaults (c : Config) : Config :=
  let direction :=
    if String.eqb (Direction c) "" then DirectionUpload else Direction c in
  let port := if Port c =? 0 then DefaultPort else Port c in
  let timeout := if Timeout c =? 0 then DefaultTimeout else Timeout c in
  {| PeerName := PeerName c; Size := Size c; Direction := direction;
     Timeout := timeout; Port := port; Chaos := Chaos c |}.

(** ** chaos.go: [Stats], [Reset] and runs of [Write] *)

Definition ChaosWriter_Stats {W} (c : ChaosWriter W) : ChaosWriterStats :=
  cw_stats c.

Definition ChaosWriter_Reset {W} (c : ChaosWriter W) : ChaosWriter W :=
  {| cw_w := cw_w c; cw_cfg := cw_cfg c; cw_rng := cw_rng c;
     cw_bucket := cw_bucket c;
     cw_stats := {| TotalWrites := 0; DroppedWrites := 0;
                    TotalBytes := 0; ActualBytes := 0 |} |}.

(** A run of [Write] calls on one writer, each given as the clock reading
    and the bytes to write; a panic ends the run.  The log has, for each
    call made, its outcome and what it did. *)
Fixpoint ChaosWriter_Writes {W} `{Writer W} (c : ChaosWriter W)
  (calls : list (Z * bytes)) : list (outcome * list Event) * ChaosWriter W :=
  match calls with
  | [] => ([], c)
  | (now, p) :: rest =>
      let '(out, s) := ChaosWriter_Write c now p in
      match out with
      | Panicked => ([(out, ws_events s)], ws_cw s)
      | Returned _ _ =>
          let '(log, c') := ChaosWriter_Writes (ws_cw s) rest in
          ((out, ws_events s) :: log, c')
      end
  end.

Definition is_write (e : Event) : bool :=
  match e with EvWrite _ => true | EvSleep _ => false end.

Definition is_sleep (e : Event) : bool :=
  match e with EvSleep _ => true | EvWrite _ => false end.

(** The calls of a log that wrote to the underlying writer, those that
    returned without writing (the dropped ones) and those that panicked. *)
Definition entry_wrote (entry : outcome * list Event) : bool :=
  existsb is_write (snd entry).

Definition entry_dropped (entry : outcome * list Event) : bool :=
  match fst entry with
  | Returned _ _ => negb (existsb is_write (snd entry))
  | Panicked => false
  end.

Definition entry_panicked (entry : outcome * list Event) : bool :=
  match fst entry with Panicked => true | Returned _ _ => false end.

(** The bytes offered by the first [k] calls of a run. *)
Definition bytes_offered (calls : list (Z * bytes)) (k : nat) : Z :=
  fold_right (fun call acc => len (snd call) + acc) 0 (firstn k calls).

(** A reader that takes exactly [k] bytes: it fails exactly on streams
    shorter than [k], and on success leaves all but [k] bytes. *)
Definition reads_exactly {A} (rd : Reader A) (k : nat) : Prop :=
  forall r : bytes,
    ((exists e, rd r = Err e) <-> (List.length r < k)%nat)
    /\ (forall a rest, rd r = Ok (a, rest) ->
        List.length r = (k + List.length rest)%nat).

(** ** client.go: latency statistics *)

#[export] Instance Qle_dec : RelDecision Qle :=
  fun x y => Z_le_dec (Qnum x * QDen y) (Qnum y * QDen x).

(** [sort.Float64s]: the values in increasing order. *)
Definition Float64s (l : list float64) : list float64 := merge_sort Qle l.

(** [calculateLatencyStats]: on no sample the result keeps what it had.
    The minimum and the maximum are samples, which no arithmetic touches;
    the sum and the average stand here for the numbers that the source
    rounds to [float64] at every addition and at the division. *)
Definition calculateLatencyStats (latencies : list float64) (result : Result)
  : Result :=
  if len latencies =? 0 then result
  else
    let sorted := Float64s latencies in
    let sum := fold_left Qplus latencies 0%Q in
    {| ID := ID result;
       Timestamp := Timestamp result;
       LocalPeer := LocalPeer result;
       RemotePeer := RemotePeer result;
       Result_Direction := Result_Direction result;
       RequestedSize := RequestedSize result;
       TransferredSize := TransferredSize result;
       DurationMs := DurationMs result;
       ThroughputBps := ThroughputBps result;
       ThroughputMbps := ThroughputMbps result;
       LatencyMinMs := nth 0 sorted 0%Q;
       LatencyMaxMs := nth (List.length sorted - 1) sorted 0%Q;
       LatencyAvgMs := (sum / inject_Z (len latencies))%Q;
       Success := Success result;
       Result_Error := Result_Error result;
       Result_Chaos := Result_Chaos result |}.

(** ** cmd/tunnelmesh-benchmarker: the peers of a round *)

Module Benchmarker.

Record peerInfo : Type := {
  Name : string;
  MeshIP : string
}.

(** The loop of [fetchPeers] that follows the decoding of the
    coordinator's answer [peers]: the local peer is left out. *)
Definition fetchPeers_filter (LocalPeer : string) (peers : list peerInfo)
  : list peerInfo :=
  fold_left
    (fun filtered p =>
       if negb (String.eqb (Name p) LocalPeer) then filtered ++ [p]
       else filtered)
    peers [].

(** [shuffled[i], shuffled[j] = shuffled[j], shuffled[i]]; an index out of
    range panics ([None]). *)
Definition swap {A} (l : list A) (i j : nat) : option (list A) :=
  match l !! i, l !! j with
  | Some a, Some b => Some (<[i := b]> (<[j := a]> l))
  | _, _ => None
  end.

(** [rand.Shuffle(n, swap)]: for [i] from [n - 1] down to 1, a [j] is
    drawn in [0, i] and [swap(i, j)] is called; [i] is the index the loop
    is at. *)
Fixpoint Shuffle {A} (rng : Rand) (i : nat) (l : list A)
  : option (list A * Rand) :=
  match i with
  | O => Some (l, rng)
  | S i' =>
      match Rand_Int63n rng (Z.of_nat i + 1) with
      | None => None
      | Some (j, rng') =>
          match swap l i (Z.to_nat j) with
          | None => None
          | Some l' => Shuffle rng' i' l'
          end
      end
  end.

(** [selectRandomPeers(peers, n)], drawing from [rng]; [None] is a panic
    (the slice [shuffled[:n]] with a negative [n]). *)
Definition selectRandomPeers (rng : Rand) (peers : list peerInfo) (n : Z)
  : option (list peerInfo * Rand) :=
  if len peers <=? n then Some (peers, rng)
  else
    match Shuffle rng (List.length peers - 1) peers with
    | None => None
    | Some (shuffled, rng') =>
        if n <? 0 then None
        else Some (firstn (Z.to_nat n) shuffled, rng')
    end.

(** The peers [runBenchmarks] goes through, from the coordinator's answer
    [peers]. *)
Definition selectedPeers (rng : Rand) (LocalPeer : string)
  (peers : list peerInfo) : option (list peerInfo * Rand) :=
  let peers := fetchPeers_filter LocalPeer peers in
  if len peers =? 0 then Some ([], rng)
  else selectRandomPeers rng peers 2.

End Benchmarker.

(** ** config/config.go: the peer configuration *)

Record TUNConfig : Type := {
  TUN_Name : string;
  TUN_MTU : Z                 (* int *)
}.

Record DNSConfig : Type := {
  DNS_Enabled : bool;
  DNS_Listen : string;
  DNS_CacheTTL : Z            (* int *)
}.

Record PeerConfig : Type := {
  PeerConfig_Name : string;
  PeerConfig_Server : string;
  PeerConfig_AuthToken : string;
  PeerConfig_SSHPort : Z;     (* int *)
  PeerConfig_PrivateKey : string;
  PeerConfig_TUN : TUNConfig;
  PeerConfig_DNS : DNSConfig
}.

Inductive PeerConfigError : Type :=
| ErrNameRequired         (* "name is required" *)
| ErrServerRequired       (* "server is required" *)
| ErrSSHPortRange         (* "ssh_port must be between 1 and 65535" *)
| ErrMTURange.            (* "tun.mtu must be between 576 and 65535" *)

Definition PeerConfig_Validate (c : PeerConfig) : option PeerConfigError :=
  if String.eqb (PeerConfig_Name c) "" then Some ErrNameRequired
  else if String.eqb (PeerConfig_Server c) "" then Some ErrServerRequired
  else if (PeerConfig_SSHPort c <=? 0) || (PeerConfig_SSHPort c >? 65535)
  then Some ErrSSHPortRange
  else if (TUN_MTU (PeerConfig_TUN c) <? 576)
          || (TUN_MTU (PeerConfig_TUN c) >? 65535)
  then Some ErrMTURange
  else None.

Definition defaultDNSListen : string := "127.0.0.53:5353".

(** What [LoadPeerConfig] does to the configuration [cfg] that
    [yaml.Unmarshal] filled in: the defaults, and the expansion of a
    leading "~/" of the private key path.  [homeDir] is what
    [os.UserHomeDir] answers ([None] for an error) and [Join] is
    [filepath.Join]. *)
Definition LoadPeerConfig_defaults (Join : string -> string -> string)
  (homeDir : option string) (cfg : PeerConfig) : PeerConfig :=
  let sshPort :=
    if PeerConfig_SSHPort cfg =? 0 then 2222 else PeerConfig_SSHPort cfg in
  let tunName :=
    if String.eqb (TUN_Name (PeerConfig_TUN cfg)) "" then "tun-mesh0"%string
    else TUN_Name (PeerConfig_TUN cfg) in
  let mtu :=
    if TUN_MTU (PeerConfig_TUN cfg) =? 0 then 1400
    else TUN_MTU (PeerConfig_TUN cfg) in
  let listen :=
    if String.eqb (DNS_Listen (PeerConfig_DNS cfg)) "" then defaultDNSListen
    else DNS_Listen (PeerConfig_DNS cfg) in
  let cacheTTL :=
    if DNS_CacheTTL (PeerConfig_DNS cfg) =? 0 then 300
    else DNS_CacheTTL (PeerConfig_DNS cfg) in
  let enabled :=
    if negb (DNS_Enabled (PeerConfig_DNS cfg))
       && String.eqb listen defaultDNSListen
    then true else DNS_Enabled (PeerConfig_DNS cfg) in
  let privateKey :=
    if String.prefix "~/" (PeerConfig_PrivateKey cfg) then
      match homeDir with
      | Some home =>
          Join home
            (String.substring 2
               (String.length (PeerConfig_PrivateKey cfg) - 2)
               (PeerConfig_PrivateKey cfg))
      | None => PeerConfig_PrivateKey cfg
      end
    else PeerConfig_PrivateKey cfg in
  {| PeerConfig_Name := PeerConfig_Name cfg;
     PeerConfig_Server := PeerConfig_Server cfg;
     PeerConfig_AuthToken := PeerConfig_AuthToken cfg;
     PeerConfig_SSHPort := sshPort;
     PeerConfig_PrivateKey := privateKey;
     PeerConfig_TUN := {| TUN_Name := tunName; TUN_MTU := mtu |};
     PeerConfig_DNS := {| DNS_Enabled := enabled; DNS_Listen := listen;
                          DNS_CacheTTL := cacheTTL |} |}.

(** ** client.go: the connection, the clock and the context

    The connection is the bytes the peer sends from now on, in order (a
    read that needs more than is left fails, and leaves nothing for the
    reads after it; no read deadline passes before the peer has sent what
    it sends), and an [io.Writer].  The clock is read through [clock], by
    the number of readings taken so far, and [ctx.Done()] through
    [ctx_done], by the number of polls so far.  [cs_log] records the
    messages handed to the writers. *)

Record ClientEnv : Type := {
  clock : nat -> Z;
  ctx_done : nat -> bool;
  chunk : bytes;            (* the ChunkSize bytes of rand.Read *)
  chaos_rng : Rand          (* the source NewChaosWriter makes *)
}.

Inductive ClientEvent : Type :=
| EvSend (t : MessageType) (payload : bytes)
    (* WriteMessage(conn, t, msg), with the encoding of msg *)
| EvData (chaos : bool) (m : DataMessage).
    (* the data message of an iteration, offered to the chaos writer
       ([true]) or written to the connection *)

Record ClientState (W : Type) : Type := {
  cs_in : bytes;
  cs_out : W;
  cs_ticks : nat;
  cs_polls : nat;
  cs_log : list ClientEvent
}.
Arguments cs_in {W} _.
Arguments cs_out {W} _.
Arguments cs_ticks {W} _.
Arguments cs_polls {W} _.
Arguments cs_log {W} _.

(** Why [measureLatency] gave no latency. *)
Inductive latency_error : Type :=
| LatWrite (e : write_error)
| LatRead (e : error)
| LatNotPong (mt : MessageType)
| LatDecode (e : error).

(** The errors of [runUpload] and [runDownload]. *)
Inductive run_error : Type :=
| ErrContext                          (* ctx.Err() *)
| ErrSendData (e : write_error)       (* "failed to send data" *)
| ErrSendComplete (e : write_error)   (* "failed to send complete" *)
| ErrReadServerComplete (e : error)   (* "failed to read server complete" *)
| ErrExpectedComplete (mt : MessageType)   (* "expected Complete, got" *)
| ErrDecodeServerComplete (e : error) (* "failed to decode server complete" *)
| ErrReadMessage (e : error)          (* "failed to read message" *)
| ErrDecodeData (e : error)           (* "failed to decode data" *)
| ErrDecodeComplete (e : error).      (* "failed to decode complete" *)

Inductive run_result : Type :=
| RunOk
| RunErr (e : run_error)
| RunPanic.

(** [d.Milliseconds()]: the integer division of Go, toward zero. *)
Definition Milliseconds (d : Z) : Z := Z.quot d Millisecond.

(** [result.TransferredSize = size; result.DurationMs = ms]. *)
Definition set_transfer (r : Result) (size ms : Z) : Result :=
  {| ID := ID r;
     Timestamp := Timestamp r;
     LocalPeer := LocalPeer r;
     RemotePeer := RemotePeer r;
     Result_Direction := Result_Direction r;
     RequestedSize := RequestedSize r;
     TransferredSize := size;
     DurationMs := ms;
     ThroughputBps := ThroughputBps r;
     ThroughputMbps := ThroughputMbps r;
     LatencyMinMs := LatencyMinMs r;
     LatencyMaxMs := LatencyMaxMs r;
     LatencyAvgMs := LatencyAvgMs r;
     Success := Success r;
     Result_Error := Result_Error r;
     Result_Chaos := Result_Chaos r |}.

Section ClientModel.

Context {W : Type} `{Writer W}.

Definition time_Now (env : ClientEnv) (s : ClientState W)
  : Z * ClientState W :=
  (clock env (cs_ticks s),
   {| cs_in := cs_in s; cs_out := cs_out s; cs_ticks := S (cs_ticks s);
      cs_polls := cs_polls s; cs_log := cs_log s |}).

(** [select { case <-ctx.Done(): ...; default: }]. *)
Definition ctx_poll (env : ClientEnv) (s : ClientState W)
  : bool * ClientState W :=
  (ctx_done env (cs_polls s),
   {| cs_in := cs_in s; cs_out := cs_out s; cs_ticks := cs_ticks s;
      cs_polls := S (cs_polls s); cs_log := cs_log s |}).

Definition set_in (s : ClientState W) (r : bytes) : ClientState W :=
  {| cs_in := r; cs_out := cs_out s; cs_ticks := cs_ticks s;
     cs_polls := cs_polls s; cs_log := cs_log s |}.

Definition set_out (s : ClientState W) (w : W) : ClientState W :=
  {| cs_in := cs_in s; cs_out := w; cs_ticks := cs_ticks s;
     cs_polls := cs_polls s; cs_log := cs_log s |}.

Definition log_event (e : ClientEvent) (s : ClientState W) : ClientState W :=
  {| cs_in := cs_in s; cs_out := cs_out s; cs_ticks := cs_ticks s;
     cs_polls := cs_polls s; cs_log := cs_log s ++ [e] |}.

(** [ReadMessage(conn)]. *)
Definition conn_ReadMessage (s : ClientState W)
  : result (MessageType * bytes) * ClientState W :=
  match ReadMessage (cs_in s) with
  | Ok (m, rest) => (Ok m, set_in s rest)
  | Err e => (Err e, set_in s [])
  end.

(** [WriteMessage(conn, msgType, msg)]: the type, the length and the
    payload are three writes, and the first that fails ends the call. *)
Definition conn_WriteMessage {M} `{Message M} (msgType : MessageType)
  (msg : M) (s : ClientState W) : option write_error * ClientState W :=
  let temp := Encode msg in
  let s := log_event (EvSend msgType temp) s in
  let '((_, err), w) := Writer_Write (cs_out s) (write_byte msgType) in
  match err with
  | Some e => (Some e, set_out s w)
  | None =>
      let '((_, err), w) :=
        Writer_Write w (write_uint32 (uint32 (len temp))) in
      match err with
      | Some e => (Some e, set_out s w)
      | None =>
          let '((_, err), w) := Writer_Write w temp in
          (err, set_out s w)
      end
  end.

Definition measureLatency (env : ClientEnv) (seqNum : Z) (s : ClientState W)
  : (latency_error + float64) * ClientState W :=
  let '(now, s) := time_Now env s in
  let ping := {| Ping_SeqNum := seqNum; Ping_Timestamp := now |} in
  let '(err, s) := conn_WriteMessage MsgPing ping s in
  match err with
  | Some e => (inl (LatWrite e), s)
  | None =>
      let '(_, s) := time_Now env s in     (* for SetReadDeadline *)
      let '(r, s) := conn_ReadMessage s in
      match r with
      | Err e => (inl (LatRead e), s)
      | Ok (mt, data) =>
          if negb (Byte.eqb mt MsgPong) then (inl (LatNotPong mt), s)
          else
            match Decode (M := PongMessage) data with
            | Err e => (inl (LatDecode e), s)
            | Ok (_, _) =>
                let '(t, s) := time_Now env s in
                let rtt := Time_Sub t now in
                (inr (inject_Z rtt / 1000000)%Q, s)
            end
      end
  end.

(** [if err == nil && latency > 0 { latencies = append(latencies, latency) }] *)
Definition add_latency_sample (latencies : list float64)
  (r : latency_error + float64) : list float64 :=
  match r with
  | inr latency =>
      if Qltb 0 latency then latencies ++ [latency] else latencies
  | inl _ => latencies
  end.

(** The receive loop of [runDownload], with [fuel] iterations allowed;
    [None] when they are used up. *)
Fixpoint download_loop (fuel : nat) (env : ClientEnv) (startTime : Z)
  (received : Z) (latencies : list float64) (result : Result)
  (s : ClientState W) : option (run_result * Result * ClientState W) :=
  match fuel with
  | O => None
  | S fuel' =>
      let '(done, s) := ctx_poll env s in
      if done then Some (RunErr ErrContext, result, s)
      else
        let '(_, s) := time_Now env s in   (* for SetReadDeadline *)
        let '(r, s) := conn_ReadMessage s in
        match r with
        | Err e => Some (RunErr (ErrReadMessage e), result, s)
        | Ok (mt, data) =>
            if Byte.eqb mt MsgData then
              match Decode (M := DataMessage) data with
              | Err e => Some (RunErr (ErrDecodeData e), result, s)
              | Ok (dataMsg, _) =>
                  download_loop fuel' env startTime
                    (int64 (received + int64 (len (Data_Data dataMsg))))
                    latencies result s
              end
            else if Byte.eqb mt MsgComplete then
              match Decode (M := CompleteMessage) data with
              | Err e => Some (RunErr (ErrDecodeComplete e), result, s)
              | Ok (_, _) =>
                  let '(t, s) := time_Now env s in
                  let duration := Time_Sub t startTime in
                  let result :=
                    set_transfer result received (Milliseconds duration) in
                  Some (RunOk, calculateLatencyStats latencies result, s)
              end
            else
              (* logged as unexpected *)
              download_loop fuel' env startTime received latencies result s
        end
  end.

(** [runDownload].  The connection is the list of the bytes the peer sends
    before it closes; every iteration of the loop that does not return
    takes a frame, five bytes or more, off that list, so one iteration more
    than there are bytes is enough.  A peer that sends frames for ever
    without a Complete, on which the [for] loop of the source does not end,
    is not among the connections of this model: what is proved of
    [runDownload] is about the bytes read up to its return. *)
Definition runDownload (env : ClientEnv) (result : Result)
  (s : ClientState W) : option (run_result * Result * ClientState W) :=
  let '(startTime, s) := time_Now env s in
  let '(latency, s) := measureLatency env 0 s in
  let latencies := add_latency_sample [] latency in
  download_loop (S (List.length (cs_in s))) env startTime 0 latencies
    result s.

End ClientModel.

(** A frame as it travels: type, length, payload. *)
Definition frame (t : MessageType) (payload : bytes) : bytes :=
  write_byte t ++ write_uint32 (len payload) ++ payload.

Definition frames (fs : list (MessageType * bytes)) : bytes :=
  flat_map (fun f => frame (fst f) (snd f)) fs.

(** The data bytes a frame carries, as [runDownload] counts them. *)
Definition frame_data (f : MessageType * bytes) : Z :=
  if Byte.eqb (fst f) MsgData then
    match Decode (M := DataMessage) (snd f) with
    | Ok (m, _) => len (Data_Data m)
    | Err _ => 0
    end
  else 0.

Definition data_total (pre : list (MessageType * bytes)) : Z :=
  fold_right (fun f acc => frame_data f + acc) 0 pre.

(** A frame the receive loop goes past: not a Complete, shorter than 2^32
    bytes, and decodable if it is a Data. *)
Definition frame_passed (f : MessageType * bytes) : bool :=
  negb (Byte.eqb (fst f) MsgComplete)
  && (len (snd f) <? 2 ^ 32)
  && (if Byte.eqb (fst f) MsgData then
        match Decode (M := DataMessage) (snd f) with
        | Ok _ => true
        | Err _ => false
        end
      else true).

(** ** client.go: the upload *)

Section ClientUploadModel.

Context {W : Type} `{Writer W}.

(** What the loop of [runUpload] carries from iteration to iteration. *)
Record UploadVars : Type := {
  up_sent : Z;                           (* int64 *)
  up_seqNum : Z;                         (* uint32 *)
  up_latencies : list float64;
  up_chaosWriter : option (ChaosWriter W)   (* nil without chaos *)
}.

(** The sending of an iteration's data message: through the chaos writer,
    as one write of the whole frame, or to the connection.  The chaos
    writer writes to the connection the pings are written to: its writer
    is the connection's state before its [Write], and the connection's
    state is its writer's after it.  [now] is the clock reading of the
    call, for the bucket.  Without chaos only the error of the outcome
    matters. *)
Definition send_data (env : ClientEnv) (chaosWriter : option (ChaosWriter W))
  (dataMsg : DataMessage) (s : ClientState W)
  : outcome * option (ChaosWriter W) * ClientState W :=
  match chaosWriter with
  | Some cw =>
      let s := log_event (EvData true dataMsg) s in
      let '(now, s) := time_Now env s in
      let '(out, ws) :=
        ChaosWriter_Write (set_w cw (cs_out s)) now
          (WriteMessage MsgData dataMsg) in
      (out, Some (ws_cw ws), set_out s (cw_w (ws_cw ws)))
  | None =>
      let s := log_event (EvData false dataMsg) s in
      let '(err, s) := conn_WriteMessage MsgData dataMsg s in
      (Returned 0 err, None, s)
  end.

(** The ping after every tenth chunk. *)
Definition periodic_ping (env : ClientEnv) (seqNum : Z)
  (latencies : list float64) (s : ClientState W)
  : list float64 * ClientState W :=
  if seqNum mod 10 =? 0 then
    let '(latency, s) := measureLatency env seqNum s in
    (add_latency_sample latencies latency, s)
  else (latencies, s).

(** The data loop of [runUpload], with [fuel] evaluations of its condition
    allowed; [None] when they are used up. *)
Fixpoint upload_loop (fuel : nat) (env : ClientEnv) (cfg : Config)
  (v : UploadVars) (s : ClientState W)
  : option (run_result * UploadVars * ClientState W) :=
  match fuel with
  | O => None
  | S fuel' =>
      if negb (up_sent v <? Size cfg) then Some (RunOk, v, s)
      else
        let '(done, s) := ctx_poll env s in
        if done then Some (RunErr ErrContext, v, s)
        else
          let remaining := int64 (Size cfg - up_sent v) in
          let dataSize :=
            if remaining <? ChunkSize then remaining else ChunkSize in
          let dataMsg :=
            {| Data_SeqNum := up_seqNum v;
               Data_Data := firstn (Z.to_nat dataSize) (chunk env) |} in
          let '(out, chaosWriter, s) :=
            send_data env (up_chaosWriter v) dataMsg s in
          let failed :=
            {| up_sent := up_sent v; up_seqNum := up_seqNum v;
               up_latencies := up_latencies v;
               up_chaosWriter := chaosWriter |} in
          match out with
          | Panicked => Some (RunPanic, failed, s)
          | Returned _ (Some e) => Some (RunErr (ErrSendData e), failed, s)
          | Returned _ None =>
              let sent := int64 (up_sent v + dataSize) in
              let seqNum := uint32 (up_seqNum v + 1) in
              let '(latencies, s) :=
                periodic_ping env seqNum (up_latencies v) s in
              upload_loop fuel' env cfg
                {| up_sent := sent; up_seqNum := seqNum;
                   up_latencies := latencies;
                   up_chaosWriter := chaosWriter |} s
          end
  end.

(** [runUpload] from its first ping on: [startTime] has been read and
    [chaosWriter] made.  The loop sends a chunk per iteration, so it
    evaluates its condition at most [Size / ChunkSize + 2] times (once for
    a size that is not positive). *)
Definition upload_from_ping (env : ClientEnv) (cfg : Config)
  (result : Result) (startTime : Z) (chaosWriter : option (ChaosWriter W))
  (s : ClientState W) : option (run_result * Result * ClientState W) :=
  let '(latency, s) := measureLatency env 0 s in
  let latencies := add_latency_sample [] latency in
  match upload_loop (S (Z.to_nat (Size cfg / ChunkSize + 1))) env cfg
          {| up_sent := 0; up_seqNum := 0; up_latencies := latencies;
             up_chaosWriter := chaosWriter |} s
  with
  | None => None
  | Some (RunOk, v, s) =>
      let '(latency, s) :=
        measureLatency env (uint32 (up_seqNum v + 1)) s in
      let latencies := add_latency_sample (up_latencies v) latency in
      let '(t, s) := time_Now env s in
      let duration := Time_Sub t startTime in
      let complete :=
        {| Complete_BytesTransferred := up_sent v;
           Complete_DurationNs := duration |} in
      let '(err, s) := conn_WriteMessage MsgComplete complete s in
      match err with
      | Some e => Some (RunErr (ErrSendComplete e), result, s)
      | None =>
          let '(r, s) := conn_ReadMessage s in
          match r with
          | Err e => Some (RunErr (ErrReadServerComplete e), result, s)
          | Ok (mt, data) =>
              if negb (Byte.eqb mt MsgComplete)
              then Some (RunErr (ErrExpectedComplete mt), result, s)
              else
                match Decode (M := CompleteMessage) data with
                | Err e =>
                    Some (RunErr (ErrDecodeServerComplete e), result, s)
                | Ok (_, _) =>
                    let result :=
                      set_transfer result (up_sent v)
                        (Milliseconds duration) in
                    Some (RunOk, calculateLatencyStats latencies result, s)
                end
          end
      end
  | Some (r, _, s) => Some (r, result, s)
  end.

(** [runUpload]: the start time, the chaos writer when chaos is
    configured (its source is seeded from the clock, and its bucket, if it
    has one, starts at a clock reading), and then the transfer. *)
Definition runUpload (env : ClientEnv) (cfg : Config) (result : Result)
  (s : ClientState W) : option (run_result * Result * ClientState W) :=
  let '(startTime, s) := time_Now env s in
  let '(chaosWriter, s) :=
    if ChaosConfig_IsEnabled (Chaos cfg) then
      let '(_, s) := time_Now env s in
      let '(now, s) :=
        if BandwidthBps (Chaos cfg) >? 0 then time_Now env s else (0, s) in
      (Some (NewChaosWriterWithRng (cs_out s) (Chaos cfg) (chaos_rng env)
               now), s)
    else (None, s) in
  upload_from_ping env cfg result startTime chaosWriter s.

End ClientUploadModel.

(** The data messages among the events. *)
Definition data_log (log : list ClientEvent) : list DataMessage :=
  flat_map (fun e => match e with EvData _ m => [m] | _ => [] end) log.

(** The number of chunks of a transfer of [size] bytes. *)
Definition chunk_count (size : Z) : Z := (size + ChunkSize - 1) / ChunkSize.

(** The [i]-th data message of a transfer of [size] bytes. *)
Definition planned_chunk (chunk : bytes) (size : Z) (i : nat) : DataMessage :=
  {| Data_SeqNum := uint32 (Z.of_nat i);
     Data_Data :=
       firstn (Z.to_nat (Z.min ChunkSize (size - Z.of_nat i * ChunkSize)))
         chunk |}.

Definition upload_plan (chunk : bytes) (size : Z) : list DataMessage :=
  map (planned_chunk chunk size) (seq 0 (Z.to_nat (chunk_count size))).

(** The data bytes of a list of data messages. *)
Definition plan_bytes (plan : list DataMessage) : Z :=
  fold_right (fun m acc => len (Data_Data m) + acc) 0 plan.

(** ** client.go: [Run] *)

Record Client : Type := {
  localPeer : string;
  remoteAddr : string
}.

Inductive RunError : Type :=
| ErrInvalidConfig (e : ConfigError)     (* "invalid config" *)
| ErrConnect                             (* "failed to connect to" *)
| ErrSendStart (e : write_error)         (* "failed to send start" *)
| ErrReadAck (e : error)                 (* "failed to read ack" *)
| ErrServerRejected (msg : string)       (* "server rejected benchmark" *)
| ErrExpectedAck (mt : MessageType)      (* "expected Ack, got" *)
| ErrDecodeAck (e : error)               (* "failed to decode ack" *)
| ErrTransfer (e : run_error).           (* the error of the transfer *)

(** What [Run] gives back: the result (nil or not) and the error, or a
    panic. *)
Inductive RunReturn : Type :=
| RunReturns (result : option Result) (err : option RunError)
| RunPanics.

(** [result.Success = ok; result.Error = text]. *)
Definition set_status (r : Result) (ok : bool) (text : string) : Result :=
  {| ID := ID r;
     Timestamp := Timestamp r;
     LocalPeer := LocalPeer r;
     RemotePeer := RemotePeer r;
     Result_Direction := Result_Direction r;
     RequestedSize := RequestedSize r;
     TransferredSize := TransferredSize r;
     DurationMs := DurationMs r;
     ThroughputBps := ThroughputBps r;
     ThroughputMbps := ThroughputMbps r;
     LatencyMinMs := LatencyMinMs r;
     LatencyMaxMs := LatencyMaxMs r;
     LatencyAvgMs := LatencyAvgMs r;
     Success := ok;
     Result_Error := text;
     Result_Chaos := Result_Chaos r |}.

Section ClientRun.

Context {W : Type} `{Writer W}.

(** [runErr.Error()], the text of a transfer's error. *)
Variable Error_text : run_error -> string.

(** The end of [Run], from the outcome of the transfer ([None]: the
    transfer's loop was cut short). *)
Definition Run_finish
  (transfer : option (run_result * Result * ClientState W))
  : option (RunReturn * ClientState W) :=
  match transfer with
  | None => None
  | Some (RunPanic, _, s) => Some (RunPanics, s)
  | Some (RunErr e, result, s) =>
      Some (RunReturns (Some (set_status result false (Error_text e)))
              (Some (ErrTransfer e)), s)
  | Some (RunOk, result, s) =>
      Some (RunReturns
              (Some (CalculateThroughput
                       (set_status result true (Result_Error result))))
              None, s)
  end.

(** [Run].  [id] is the identifier [uuid.New] makes, [connected] tells
    whether the dialling succeeds, and [s] holds the connection it then
    gives. *)
Definition Run (c : Client) (env : ClientEnv) (cfg : Config) (id : string)
  (connected : bool) (s : ClientState W)
  : option (RunReturn * ClientState W) :=
  let cfg := Config_WithDefaults cfg in
  match Config_Validate cfg with
  | Some e => Some (RunReturns None (Some (ErrInvalidConfig e)), s)
  | None =>
      let '(now, s) := time_Now env s in
      let result :=
        {| ID := id;
           Timestamp := now;
           LocalPeer := localPeer c;
           RemotePeer := PeerName cfg;
           Result_Direction := Direction cfg;
           RequestedSize := Size cfg;
           TransferredSize := 0;
           DurationMs := 0;
           ThroughputBps := 0%Q;
           ThroughputMbps := 0%Q;
           LatencyMinMs := 0%Q;
           LatencyMaxMs := 0%Q;
           LatencyAvgMs := 0%Q;
           Success := false;
           Result_Error := "";
           Result_Chaos :=
             if ChaosConfig_IsEnabled (Chaos cfg) then Some (Chaos cfg)
             else None |} in
      if negb connected then Some (RunReturns None (Some ErrConnect), s)
      else
        let start :=
          {| Start_Size := Size cfg; Start_Direction := Direction cfg |} in
        let '(err, s) := conn_WriteMessage MsgStart start s in
        match err with
        | Some e => Some (RunReturns None (Some (ErrSendStart e)), s)
        | None =>
            let '(r, s) := conn_ReadMessage s in
            match r with
            | Err e => Some (RunReturns None (Some (ErrReadAck e)), s)
            | Ok (mt, data) =>
                if negb (Byte.eqb mt MsgAck) then
                  if Byte.eqb mt MsgError then
                    let text :=
                      match Decode (M := ErrorMessage) data with
                      | Ok (errMsg, _) => Error_Error errMsg
                      | Err _ => ""%string
                      end in
                    Some (RunReturns None (Some (ErrServerRejected text)), s)
                  else Some (RunReturns None (Some (ErrExpectedAck mt)), s)
                else
                  match Decode (M := AckMessage) data with
                  | Err e => Some (RunReturns None (Some (ErrDecodeAck e)), s)
                  | Ok (ack, _) =>
                      if negb (Ack_Accepted ack) then
                        Some (RunReturns None
                                (Some (ErrServerRejected (Ack_Error ack))), s)
                      else
                        let transfer :=
                          if String.eqb (Direction cfg) DirectionUpload
                          then runUpload env cfg result s
                          else if String.eqb (Direction cfg) DirectionDownload
                          then runDownload env result s
                          else Some (RunOk, result, s) in
                        Run_finish transfer
                  end
            end
        end
  end.

(** What holds of a nil error of [Run], and of an error. *)
Definition Run_post (c : Client) (cfg : Config) (id : string)
  (out : option (RunReturn * ClientState W)) : Prop :=
  (forall res s',
         out = Some (RunReturns res None, s') ->
         exists r,
           res = Some r
           /\ Success r = true
           /\ Result_Error r = ""%string
           /\ ID r = id
           /\ LocalPeer r = localPeer c
           /\ RemotePeer r = PeerName cfg
           /\ RequestedSize r = Size cfg
           /\ 0 < Size cfg
           /\ (Result_Direction r = DirectionUpload
               \/ Result_Direction r = DirectionDownload)
           /\ (Result_Direction r = DirectionUpload ->
               TransferredSize r = RequestedSize r)
           /\ CalculateThroughput r = r)
  /\ (forall res e s',
         out = Some (RunReturns res (Some e), s') ->
         match e with
         | ErrTransfer e' =>
             exists r,
               res = Some r /\ Success r = false
               /\ Result_Error r = Error_text e'
               /\ TransferredSize r = 0
               /\ RequestedSize r = Size cfg
         | _ => res = None
         end).

End ClientRun.

(** A transfer gives back the result it was given, with the transfer and
    latency fields filled in when it ends well. *)
Definition transfer_kept (result r' : Result) (rr : run_result) : Prop :=
  match rr with
  | RunOk =>
      exists latencies size ms,
        r' = calculateLatencyStats latencies (set_transfer result size ms)
  | _ => r' = result
  end.

(** ** client.go: what goes over the connection *)

(** The messages handed to [WriteMessage] on the connection. *)
Definition sent_frames (log : list ClientEvent)
  : list (MessageType * bytes) :=
  flat_map (fun e => match e with EvSend t p => [(t, p)] | _ => [] end) log.

(** The bytes [WriteMessage] writes for a message of type [t] with the
    encoding [p]. *)
Definition wire_frame (f : MessageType * bytes) : bytes :=
  write_byte (fst f) ++ write_uint32 (uint32 (len (snd f))) ++ snd f.

Definition wire_of (log : list ClientEvent) : bytes :=
  flat_map wire_frame (sent_frames log).

(** From [s] to [s'] the events [evs] were logged and their frames
    appended to the buffer the connection writes to. *)
Definition wrote_events (s s' : ClientState limitedBuffer)
  (evs : list ClientEvent) : Prop :=
  cs_log s' = cs_log s ++ evs
  /\ buf (cs_out s') = buf (cs_out s) ++ wire_of evs.

(** The frames of the body of an upload without chaos: pings, and the data
    messages of the log. *)
Definition ping_or_data (f : MessageType * bytes) : Prop :=
  (fst f = MsgPing /\ len (snd f) = 12) \/ fst f = MsgData.

Definition body_events (evs : list ClientEvent) : Prop :=
  Forall ping_or_data (sent_frames evs)
  /\ filter (fun f => Byte.eqb (fst f) MsgData) (sent_frames evs)
     = map (fun m => (MsgData, Encode m)) (data_log evs).

(** ** Sample values (those of the package's tests) *)

Definition sample_start : StartMessage :=
  {| Start_Size := 100 * 1024 * 1024; Start_Direction := DirectionUpload |}.
Definition sample_ack : AckMessage :=
  {| Ack_Accepted := false; Ack_Error := "benchmark in progress" |}.
Definition sample_data : DataMessage :=
  {| Data_SeqNum := 42; Data_Data := repeat "007"%byte 1024 |}.
Definition sample_ping : PingMessage :=
  {| Ping_SeqNum := 10; Ping_Timestamp := 12345678 |}.
Definition sample_pong : PongMessage :=
  {| Pong_SeqNum := 5; Pong_PingTimestamp := 12345678 |}.
Definition sample_complete : CompleteMessage :=
  {| Complete_BytesTransferred := 100 * 1024 * 1024;
     Complete_DurationNs := 5 * 1000000000 |}.
Definition sample_error : ErrorMessage :=
  {| Error_Error := "connection timeout" |}.

(** An error text of 65536 bytes. *)
Definition long_error : ErrorMessage :=
  {| Error_Error := string_of_bytes (repeat "a"%byte (Z.to_nat 65536)) |}.

Definition no_chaos : ChaosConfig :=
  {| PacketLossPercent := 0%Q; Latency := 0; Jitter := 0; BandwidthBps := 0 |}.

Definition sample_config : Config :=
  {| PeerName := "test-peer"; Size := 64 * 1024;
     Direction := DirectionUpload; Timeout := 10 * 1000000000;
     Port := 9998; Chaos := no_chaos |}.

Definition sideways_config : Config :=
  {| PeerName := "test-peer"; Size := 64 * 1024;
     Direction := "sideways"; Timeout := 10 * 1000000000;
     Port := 9998; Chaos := no_chaos |}.

Definition sample_result : Result :=
  {| ID := "bench-1"; Timestamp := 0; LocalPeer := "test-local";
     RemotePeer := "test-peer"; Result_Direction := DirectionUpload;
     RequestedSize := 1024; TransferredSize := 1024; DurationMs := 100;
     ThroughputBps := 0%Q; ThroughputMbps := 0%Q;
     LatencyMinMs := 0%Q; LatencyMaxMs := 0%Q; LatencyAvgMs := 0%Q;
     Success := true; Result_Error := ""; Result_Chaos := None |}.

(** A result whose transfer took no measurable time. *)
Definition stalled_result : Result :=
  {| ID := "bench-2"; Timestamp := 0; LocalPeer := "test-local";
     RemotePeer := "test-peer"; Result_Direction := DirectionUpload;
     RequestedSize := 1024; TransferredSize := 1024; DurationMs := 0;
     ThroughputBps := 7%Q; ThroughputMbps := 7%Q;
     LatencyMinMs := 0%Q; LatencyMaxMs := 0%Q; LatencyAvgMs := 0%Q;
     Success := true; Result_Error := ""; Result_Chaos := None |}.

(** Three [Take] calls, as (nanoseconds since the call before, tokens
    asked for): at once, 100 ms later and 1.9 s after that. *)
Definition sample_calls : list (N * N) :=
  [ (0, 60); (100000000, 80); (1900000000, 100) ]%N.

Definition sample_chunk : bytes := repeat "007"%byte 150.

(** Half of the writes lost, 100 bytes per second, 10 ms of latency; the
    source of randomness is going to draw 0.1 and then 0.9. *)
Definition lossy_writer : ChaosWriter limitedBuffer :=
  NewChaosWriterWithRng {| buf := [] |}
    {| PacketLossPercent := 50%Q; Latency := 10 * Millisecond; Jitter := 0;
       BandwidthBps := 100 |}
    {| float_draws := [1 # 10; 9 # 10]%Q; int_draws := [] |} 0.

(** The same writer after its first write. *)
Definition paced_writer : ChaosWriter limitedBuffer :=
  ws_cw (snd (ChaosWriter_Write lossy_writer 0 sample_chunk)).

Definition plain_writer : ChaosWriter limitedBuffer :=
  NewChaosWriterWithRng {| buf := [] |} no_chaos
    {| float_draws := []; int_draws := [] |} 0.

(** A node whose directory never answers and whose cache is empty; keys
    are kept as their text. *)
Definition unreachable_node : MeshNode string :=
  {| client := Some (fun _ => None);
     router := ∅; peerCache := ∅; SSHTransport := None; effects := [] |}.

(** A node whose directory fails twice and then lists [bob]. *)
Definition recovering_node : MeshNode string :=
  {| client :=
       Some (fun attempt =>
               if attempt <? 3 then None
               else Some [ {| Peer_Name := "bob"; Peer_MeshIP := "10.99.0.2";
                              Peer_PublicKey := "ssh-ed25519 AAAA" |} ]);
     router := ∅; peerCache := ∅; SSHTransport := Some []; effects := [] |}.

(** A configuration with a negative size, and one that leaves direction,
    port and timeout to the defaults. *)
Definition backwards_config : Config :=
  {| PeerName := "test-peer"; Size := -1; Direction := "sideways";
     Timeout := 0; Port := 0; Chaos := no_chaos |}.

Definition bare_config : Config :=
  {| PeerName := "test-peer"; Size := 1024; Direction := "";
     Timeout := 0; Port := 0; Chaos := no_chaos |}.

(** A writer with 2 ms of latency and 1 ms of jitter, and one whose
    jitter is 2^62 ns. *)
Definition jittery_writer : ChaosWriter limitedBuffer :=
  NewChaosWriterWithRng {| buf := [] |}
    {| PacketLossPercent := 0%Q; Latency := 2 * Millisecond;
       Jitter := 1 * Millisecond; BandwidthBps := 0 |}
    {| float_draws := []; int_draws := [1234567] |} 0.

Definition wrapping_writer : ChaosWriter limitedBuffer :=
  NewChaosWriterWithRng {| buf := [] |}
    {| PacketLossPercent := 0%Q; Latency := 0; Jitter := 2 ^ 62;
       BandwidthBps := 0 |}
    {| float_draws := []; int_draws := [] |} 0.

(** The coordinator's list as a benchmarker sees it: itself and three
    peers. *)
Definition mesh_peers : list Benchmarker.peerInfo :=
  [ {| Benchmarker.Name := "alpha"; Benchmarker.MeshIP := "10.99.0.2" |};
    {| Benchmarker.Name := "bench"; Benchmarker.MeshIP := "10.99.0.3" |};
    {| Benchmarker.Name := "beta"; Benchmarker.MeshIP := "10.99.0.4" |};
    {| Benchmarker.Name := "gamma"; Benchmarker.MeshIP := "10.99.0.5" |} ].

(** A peer configuration file that names the peer and the server, asks for
    no DNS resolver and leaves the rest out. *)
Definition minimal_peer_config : PeerConfig :=
  {| PeerConfig_Name := "node-1";
     PeerConfig_Server := "https://coord.example";
     PeerConfig_AuthToken := "";
     PeerConfig_SSHPort := 0;
     PeerConfig_PrivateKey := "~/.tunnelmesh/id_ed25519";
     PeerConfig_TUN := {| TUN_Name := ""; TUN_MTU := 0 |};
     PeerConfig_DNS := {| DNS_Enabled := false; DNS_Listen := "";
                          DNS_CacheTTL := 0 |} |}.

(** A clock that advances by a millisecond from reading to reading, a
    context that is never done, a chunk of 65536 bytes. *)
Definition steady_env : ClientEnv :=
  {| clock := fun k => Z.of_nat k * Millisecond;
     ctx_done := fun _ => false;
     chunk := repeat "007"%byte (Z.to_nat ChunkSize);
     chaos_rng := {| float_draws := []; int_draws := [] |} |}.

Definition sample_download_data : DataMessage :=
  {| Data_SeqNum := 0; Data_Data := sample_chunk |}.

(** A connection on which the peer answers the ping, sends 150 bytes, an
    error message, 150 bytes more, and completes. *)
Definition download_conn : ClientState limitedBuffer :=
  {| cs_in := frame MsgPong (Encode sample_pong)
              ++ frame MsgData (Encode sample_download_data)
              ++ frame MsgError (Encode sample_error)
              ++ frame MsgData (Encode sample_download_data)
              ++ frame MsgComplete (Encode sample_complete);
     cs_out := {| buf := [] |};
     cs_ticks := 0;
     cs_polls := 0;
     cs_log := [] |}.

(** An upload of 300 bytes through a chaos writer that loses half of the
    writes and is going to lose the first; the peer answers both pings and
    completes. *)
Definition lossy_upload : Config :=
  {| PeerName := "peer-b"; Size := 300; Direction := DirectionUpload;
     Timeout := 0; Port := 0;
     Chaos := {| PacketLossPercent := 50%Q; Latency := 0; Jitter := 0;
                 BandwidthBps := 0 |} |}.

Definition dropping_env : ClientEnv :=
  {| clock := fun k => Z.of_nat k * Millisecond;
     ctx_done := fun _ => false;
     chunk := repeat "007"%byte (Z.to_nat ChunkSize);
     chaos_rng := {| float_draws := [1 # 10]%Q; int_draws := [] |} |}.

Definition upload_conn : ClientState limitedBuffer :=
  {| cs_in := frame MsgPong (Encode sample_pong)
              ++ frame MsgPong (Encode sample_pong)
              ++ frame MsgComplete (Encode sample_complete);
     cs_out := {| buf := [] |};
     cs_ticks := 0;
     cs_polls := 0;
     cs_log := [] |}.

(** A client, and a connection on which the peer accepts the benchmark,
    answers both pings and completes. *)
Definition sample_client : Client :=
  {| localPeer := "peer-a"; remoteAddr := "10.99.0.4" |}.

Definition run_conn : ClientState limitedBuffer :=
  {| cs_in := frame MsgAck
                (Encode {| Ack_Accepted := true; Ack_Error := "" |})
              ++ cs_in upload_conn;
     cs_out := {| buf := [] |};
     cs_ticks := 0;
     cs_polls := 0;
     cs_log := [] |}.

(** An upload of 300 bytes without chaos, and a connection whose peer
    sends the bytes [b]. *)
Definition plain_upload : Config :=
  {| PeerName := "peer-b"; Size := 300; Direction := DirectionUpload;
     Timeout := 0; Port := 0; Chaos := no_chaos |}.

Definition conn_reading (b : bytes) : ClientState limitedBuffer :=
  {| cs_in := b; cs_out := {| buf := [] |}; cs_ticks := 0; cs_polls := 0;
     cs_log := [] |}.

(* ===================================================================== *)
(** * Part II.  Properties                                                *)
(* ===================================================================== *)

(** ** Codec: bytes and big-endian integers *)

Section CodecFacts.

Lemma byte_to_Z_range (b : byte) : 0 <= byte_to_Z b < 256.
Proof.
  unfold byte_to_Z. pose proof (Byte.to_N_bounded b). lia.
Qed.

Lemma byte_to_Z_of_Z (z : Z) : byte_to_Z (byte_of_Z z) = z mod 256.
Proof.
  unfold byte_of_Z, byte_to_Z, uint8, wrap.
  change (2 ^ 8) with 256.
  pose proof (Z.mod_pos_bound z 256 ltac:(lia)) as Hb.
  destruct (Byte.of_N (Z.to_N (z mod 256))) as [b|] eqn:E.
  - apply Byte.to_of_N in E. rewrite E. lia.
  - apply Byte.of_N_None_iff in E. lia.
Qed.

Lemma byte_of_to_Z (b : byte) : byte_of_Z (byte_to_Z b) = b.
Proof.
  pose proof (byte_to_Z_range b) as Hb.
  unfold byte_of_Z, byte_to_Z, uint8, wrap in *.
  change (2 ^ 8) with 256.
  rewrite Z.mod_small by lia. rewrite N2Z.id.
  now rewrite Byte.of_to_N.
Qed.

Lemma be_encode_length (k : nat) (v : Z) : List.length (be_encode k v) = k.
Proof. induction k; simpl; congruence. Qed.

Lemma be_decode_acc (k : nat) (v acc : Z) :
  0 <= v ->
  fold_left (fun a b => a * 256 + byte_to_Z b) (be_encode k v) acc
  = acc * 256 ^ Z.of_nat k + v mod 256 ^ Z.of_nat k.
Proof.
  intros Hv. revert acc. induction k as [|k IH]; intros acc.
  - simpl. rewrite Z.mod_1_r. lia.
  - cbn [be_encode fold_left]. rewrite IH, byte_to_Z_of_Z.
    rewrite Z.shiftr_div_pow2 by lia.
    replace (2 ^ (8 * Z.of_nat k)) with (256 ^ Z.of_nat k)
      by (change 256 with (2 ^ 8); rewrite <- Z.pow_mul_r; lia).
    rewrite Nat2Z.inj_succ, Z.pow_succ_r by lia.
    assert (Hp : 0 < 256 ^ Z.of_nat k) by (apply Z.pow_pos_nonneg; lia).
    rewrite (Z.mul_comm 256 (256 ^ Z.of_nat k)).
    rewrite (Z.rem_mul_r v (256 ^ Z.of_nat k) 256) by lia.
    lia.
Qed.

Lemma be_decode_encode (k : nat) (v : Z) :
  0 <= v < 256 ^ Z.of_nat k -> be_decode (be_encode k v) = v.
Proof.
  intros Hv. unfold be_decode. rewrite be_decode_acc by lia.
  rewrite Z.mod_small; lia.
Qed.

Lemma be_decode_range (bs : bytes) :
  0 <= be_decode bs < 256 ^ len bs.
Proof.
  unfold be_decode, len.
  enough (H : forall acc n, 0 <= acc < 256 ^ Z.of_nat n ->
            0 <= fold_left (fun a b => a * 256 + byte_to_Z b) bs acc
              < 256 ^ Z.of_nat (n + List.length bs)).
  { apply (H 0 0%nat). simpl. lia. }
  induction bs as [|b bs IH]; intros acc n Hacc.
  - simpl. now rewrite Nat.add_0_r.
  - cbn [fold_left List.length].
    replace (n + S (List.length bs))%nat with (S n + List.length bs)%nat by lia.
    apply IH. pose proof (byte_to_Z_range b).
    rewrite Nat2Z.inj_succ, Z.pow_succ_r by lia. lia.
Qed.

Lemma int64_uint64 (v : Z) : is_int64 v -> int64 (uint64 v) = v.
Proof.
  unfold is_int64, int64, uint64, swrap, wrap. intros Hv.
  rewrite Z.mod_mod by lia.
  change (2 ^ (64 - 1)) with (2 ^ 63).
  destruct (Z_lt_dec v 0) as [Hn|Hn].
  - replace (v mod 2 ^ 64) with (v + 2 ^ 64).
    + destruct (Z.ltb_spec (v + 2 ^ 64) (2 ^ 63)); lia.
    + apply Z.mod_unique with (q := -1); lia.
  - rewrite Z.mod_small by lia.
    destruct (Z.ltb_spec v (2 ^ 63)); lia.
Qed.

Lemma uint64_range (v : Z) : 0 <= uint64 v < 256 ^ Z.of_nat 8.
Proof.
  unfold uint64, wrap. change (256 ^ Z.of_nat 8) with (2 ^ 64).
  apply Z.mod_pos_bound. lia.
Qed.

Lemma bytes_of_string_length (s : string) :
  List.length (bytes_of_string s) = String.length s.
Proof.
  unfold bytes_of_string, list_byte_of_string.
  rewrite List.length_map.
  induction s; simpl; congruence.
Qed.

Lemma string_of_bytes_of_string (s : string) :
  string_of_bytes (bytes_of_string s) = s.
Proof. apply string_of_list_byte_of_string. Qed.

End CodecFacts.

(** ** Codec: reading back what was written *)

Section ReaderFacts.

Lemma ReadFull_enough (n : nat) (r : bytes) :
  (n <= List.length r)%nat -> ReadFull n r = Ok (firstn n r, skipn n r).
Proof.
  intros Hn. unfold ReadFull.
  destruct n as [|n]; [reflexivity|].
  destruct r as [|b r]; [simpl in Hn; lia|].
  destruct (Nat.ltb_spec (List.length (b :: r)) (S n)); [lia | reflexivity].
Qed.

Lemma ReadFull_short (n : nat) (r : bytes) :
  (List.length r < n)%nat ->
  ReadFull n r = Err (match r with [] => EOF | _ => ErrUnexpectedEOF end).
Proof.
  intros Hn. unfold ReadFull.
  destruct n as [|n]; [lia|].
  destruct r as [|b r]; [reflexivity|].
  destruct (Nat.ltb_spec (List.length (b :: r)) (S n)); [reflexivity | lia].
Qed.

Lemma ReadFull_app (l rest : bytes) :
  ReadFull (List.length l) (l ++ rest) = Ok (l, rest).
Proof.
  rewrite ReadFull_enough by (rewrite List.length_app; lia).
  rewrite List.firstn_app, List.skipn_app, Nat.sub_diag.
  rewrite List.firstn_all, List.skipn_all. simpl.
  now rewrite List.app_nil_r.
Qed.

Lemma read_uint_encode (k : nat) (v : Z) (rest : bytes) :
  0 <= v < 256 ^ Z.of_nat k ->
  read_uint k (be_encode k v ++ rest) = Ok (v, rest).
Proof.
  intros Hv. unfold read_uint, bind.
  rewrite <- (be_encode_length k v) at 1.
  rewrite ReadFull_app. unfold ret. now rewrite be_decode_encode.
Qed.

Lemma read_byte_write (b : byte) (rest : bytes) :
  read_byte (write_byte b ++ rest) = Ok (b, rest).
Proof. reflexivity. Qed.

Lemma read_uint16_write (v : Z) (rest : bytes) :
  0 <= v < 2 ^ 16 -> read_uint16 (write_uint16 v ++ rest) = Ok (v, rest).
Proof. intros Hv. apply read_uint_encode. exact Hv. Qed.

Lemma read_uint32_write (v : Z) (rest : bytes) :
  is_uint32 v -> read_uint32 (write_uint32 v ++ rest) = Ok (v, rest).
Proof. intros Hv. apply read_uint_encode. exact Hv. Qed.

Lemma read_int64_write (v : Z) (rest : bytes) :
  is_int64 v -> read_int64 (write_int64 v ++ rest) = Ok (v, rest).
Proof.
  intros Hv. unfold read_int64, write_int64, bind.
  rewrite read_uint_encode by apply uint64_range.
  unfold ret. now rewrite int64_uint64.
Qed.

Lemma readString_write (s : string) (rest : bytes) :
  len (bytes_of_string s) < 2 ^ 16 ->
  readString (writeString s ++ rest) = Ok (s, rest).
Proof.
  intros Hs. unfold readString, writeString, bind, len in *.
  assert (Hw : uint16 (Z.of_nat (List.length (bytes_of_string s)))
               = Z.of_nat (List.length (bytes_of_string s))).
  { unfold uint16, wrap. apply Z.mod_small. lia. }
  fold (len (bytes_of_string s)). unfold len. rewrite Hw.
  rewrite <- List.app_assoc, read_uint16_write by lia.
  destruct (Z.eqb_spec (Z.of_nat (List.length (bytes_of_string s))) 0) as [E|E].
  - assert (E0 : List.length (bytes_of_string s) = 0%nat) by lia.
    rewrite bytes_of_string_length in E0.
    destruct s; [reflexivity | discriminate].
  - rewrite Nat2Z.id, ReadFull_app. unfold ret.
    now rewrite string_of_bytes_of_string.
Qed.

End ReaderFacts.

(** ** Codec: round trips *)

Section RoundTrip.

(** Exposes the [Encode] and [Decode] of a concrete message record without
    unfolding the integer codecs. *)
Ltac open_message :=
  unfold decodes_back, Encode, Decode,
    StartMessage_Message, AckMessage_Message, DataMessage_Message,
    PingMessage_Message, PongMessage_Message, CompleteMessage_Message,
    ErrorMessage_Message, StartMessage_typed, DataMessage_typed,
    PingMessage_typed, PongMessage_typed, CompleteMessage_typed in *;
  cbn [Start_Size Start_Direction Ack_Accepted Ack_Error Data_SeqNum Data_Data
       Ping_SeqNum Ping_Timestamp Pong_SeqNum Pong_PingTimestamp
       Complete_BytesTransferred Complete_DurationNs Error_Error] in *;
  unfold bind.

Lemma Start_decodes_back (m : StartMessage) :
  StartMessage_typed m -> fits_string (Start_Direction m) -> decodes_back m.
Proof.
  intros Ht Hs. destruct m as [size dir]. open_message. intros rest.
  rewrite <- List.app_assoc, read_int64_write by exact Ht.
  now rewrite readString_write.
Qed.

Lemma Ack_decodes_back (m : AckMessage) :
  fits_string (Ack_Error m) -> decodes_back m.
Proof.
  intros Hs. destruct m as [acc err]. open_message. intros rest.
  rewrite <- List.app_assoc, read_byte_write.
  rewrite readString_write by exact Hs.
  destruct acc; reflexivity.
Qed.

Lemma Data_decodes_back (m : DataMessage) :
  DataMessage_typed m -> len (Data_Data m) < 2 ^ 32 -> decodes_back m.
Proof.
  intros Ht Hl. destruct m as [seq data]. open_message. intros rest.
  rewrite <- !List.app_assoc.
  rewrite read_uint32_write by exact Ht.
  assert (Hw : uint32 (len data) = len data).
  { unfold uint32, wrap, len in *. apply Z.mod_small. lia. }
  rewrite Hw, read_uint32_write by (unfold is_uint32, len in *; lia).
  unfold len. now rewrite Nat2Z.id, ReadFull_app.
Qed.

Lemma Ping_decodes_back (m : PingMessage) :
  PingMessage_typed m -> decodes_back m.
Proof.
  intros Hm. destruct m as [seq ts]. open_message. intros rest.
  destruct Hm as [Hs Ht].
  rewrite <- List.app_assoc, read_uint32_write by exact Hs.
  now rewrite read_int64_write.
Qed.

Lemma Pong_decodes_back (m : PongMessage) :
  PongMessage_typed m -> decodes_back m.
Proof.
  intros Hm. destruct m as [seq ts]. open_message. intros rest.
  destruct Hm as [Hs Ht].
  rewrite <- List.app_assoc, read_uint32_write by exact Hs.
  now rewrite read_int64_write.
Qed.

Lemma Complete_decodes_back (m : CompleteMessage) :
  CompleteMessage_typed m -> decodes_back m.
Proof.
  intros Hm. destruct m as [n d]. open_message. intros rest.
  destruct Hm as [Hn Hd].
  rewrite <- List.app_assoc, read_int64_write by exact Hn.
  now rewrite read_int64_write.
Qed.

Lemma Error_decodes_back (m : ErrorMessage) :
  fits_string (Error_Error m) -> decodes_back m.
Proof.
  intros Hs. destruct m as [err]. open_message. intros rest.
  now rewrite readString_write.
Qed.

(** A frame whose payload fits the four-byte length prefix reads back. *)
Lemma ReadMessage_frame (t : MessageType) (payload rest : bytes) :
  len payload < 2 ^ 32 ->
  ReadMessage (write_byte t ++ write_uint32 (len payload) ++ payload ++ rest)
  = Ok ((t, payload), rest).
Proof.
  intros Hl. unfold ReadMessage, bind.
  rewrite read_byte_write.
  rewrite read_uint32_write by (unfold is_uint32, len in *; lia).
  unfold len. now rewrite Nat2Z.id, ReadFull_app.
Qed.

Lemma frames_back_of_decodes_back {M} `{Message M} (m : M) :
  len (Encode m) < 2 ^ 32 -> decodes_back m -> frames_back m.
Proof.
  intros Hl Hd t rest. exists (Encode m). split.
  - unfold WriteMessage.
    assert (Hw : uint32 (len (Encode m)) = len (Encode m)).
    { unfold uint32, wrap, len in *. apply Z.mod_small. lia. }
    rewrite Hw, <- !List.app_assoc. now apply ReadMessage_frame.
  - specialize (Hd []). now rewrite List.app_nil_r in Hd.
Qed.

Lemma writeString_length (s : string) :
  len (writeString s) = 2 + len (bytes_of_string s).
Proof.
  unfold writeString, write_uint16, len.
  rewrite List.length_app, be_encode_length. lia.
Qed.

End RoundTrip.

Section Framing.

Lemma Encode_Start_length (m : StartMessage) :
  len (Encode m) = 10 + len (bytes_of_string (Start_Direction m)).
Proof.
  destruct m as [size dir]. cbn [Encode StartMessage_Message Start_Size
    Start_Direction].
  pose proof (writeString_length dir) as Hw. unfold len in *.
  rewrite List.length_app. unfold write_int64. rewrite be_encode_length. lia.
Qed.

Lemma Encode_Ack_length (m : AckMessage) :
  len (Encode m) = 3 + len (bytes_of_string (Ack_Error m)).
Proof.
  destruct m as [acc err]. cbn [Encode AckMessage_Message Ack_Accepted
    Ack_Error].
  pose proof (writeString_length err) as Hw. unfold len in *.
  rewrite List.length_app. cbn [write_byte List.length]. lia.
Qed.

Lemma Encode_Data_length (m : DataMessage) :
  len (Encode m) = 8 + len (Data_Data m).
Proof.
  destruct m as [seq data]. cbn [Encode DataMessage_Message Data_SeqNum
    Data_Data].
  unfold len, write_uint32. rewrite !List.length_app, !be_encode_length. lia.
Qed.

Lemma Encode_Ping_length (m : PingMessage) : len (Encode m) = 12.
Proof.
  destruct m as [seq ts]. cbn [Encode PingMessage_Message].
  unfold len, write_uint32, write_int64.
  now rewrite List.length_app, !be_encode_length.
Qed.

Lemma Encode_Pong_length (m : PongMessage) : len (Encode m) = 12.
Proof.
  destruct m as [seq ts]. cbn [Encode PongMessage_Message].
  unfold len, write_uint32, write_int64.
  now rewrite List.length_app, !be_encode_length.
Qed.

Lemma Encode_Complete_length (m : CompleteMessage) : len (Encode m) = 16.
Proof.
  destruct m as [n d]. cbn [Encode CompleteMessage_Message].
  unfold len, write_int64.
  now rewrite List.length_app, !be_encode_length.
Qed.

Lemma Encode_Error_length (m : ErrorMessage) :
  len (Encode m) = 2 + len (bytes_of_string (Error_Error m)).
Proof.
  destruct m as [err]. cbn [Encode ErrorMessage_Message Error_Error].
  apply writeString_length.
Qed.

Lemma ReadMessage_short (r : bytes) :
  len r < 5 -> exists e, ReadMessage r = Err e.
Proof.
  intros Hl. destruct r as [|t r]; [eexists; reflexivity|].
  unfold ReadMessage, bind.
  change (t :: r) with (write_byte t ++ r). rewrite read_byte_write.
  unfold read_uint32, read_uint, bind.
  rewrite ReadFull_short by (unfold len in Hl; cbn [List.length] in Hl; lia).
  eexists; reflexivity.
Qed.

Lemma ReadMessage_header (r : bytes) :
  5 <= len r ->
  ReadMessage r
  = match ReadFull (Z.to_nat (declared_length r)) (skipn 5 r) with
    | Ok (data, rest) => Ok ((hd "000"%byte r, data), rest)
    | Err e => Err e
    end.
Proof.
  intros Hl. destruct r as [|t r]; [unfold len in Hl; simpl in Hl; lia|].
  unfold ReadMessage, bind.
  change (t :: r) with (write_byte t ++ r) at 1. rewrite read_byte_write.
  unfold read_uint32, read_uint, bind.
  rewrite ReadFull_enough
    by (unfold len in Hl; cbn [List.length] in Hl; lia).
  unfold ret, declared_length.
  change (skipn 1 (t :: r)) with r.
  change (skipn 5 (t :: r)) with (skipn 4 r).
  destruct (ReadFull _ (skipn 4 r)) as [[data rest]|e]; reflexivity.
Qed.

Lemma declared_length_nonneg (r : bytes) : 0 <= declared_length r.
Proof. unfold declared_length. apply be_decode_range. Qed.

Lemma ReadMessage_error_iff (r : bytes) :
  (exists e, ReadMessage r = Err e) <-> truncated r.
Proof.
  unfold truncated. pose proof (declared_length_nonneg r) as H0.
  split.
  - intros [e He].
    destruct (Z_lt_dec (len r) 5) as [|H5]; [now left|]. right.
    destruct (Z_lt_dec (len r) (5 + declared_length r)) as [|HL]; [assumption|].
    exfalso. rewrite ReadMessage_header in He by lia.
    rewrite ReadFull_enough in He; [discriminate|].
    rewrite List.length_skipn. unfold len in *. lia.
  - intros [H5|HL]; [now apply ReadMessage_short|].
    destruct (Z_lt_dec (len r) 5) as [H5|H5]; [now apply ReadMessage_short|].
    rewrite ReadMessage_header by lia.
    rewrite ReadFull_short; [eexists; reflexivity|].
    rewrite List.length_skipn. unfold len in *. lia.
Qed.

Lemma Config_Validate_direction (c : Config) :
  Config_Validate c = None ->
  Direction c = ""%string \/ Direction c = DirectionUpload
  \/ Direction c = DirectionDownload.
Proof.
  unfold Config_Validate.
  destruct (String.eqb (PeerName c) ""); [discriminate|].
  destruct (Size c <=? 0); [discriminate|].
  destruct (String.eqb_spec (Direction c) ""); [now left|].
  destruct (String.eqb_spec (Direction c) DirectionUpload); [now right; left|].
  destruct (String.eqb_spec (Direction c) DirectionDownload);
    [now right; right|].
  discriminate.
Qed.

Lemma Config_Validate_bad_direction (c : Config) :
  PeerName c <> ""%string -> 0 < Size c ->
  Direction c <> ""%string -> Direction c <> DirectionUpload ->
  Direction c <> DirectionDownload ->
  Config_Validate c = Some ErrDirection.
Proof.
  intros Hp Hs H1 H2 H3. unfold Config_Validate.
  destruct (String.eqb_spec (PeerName c) ""); [contradiction|].
  destruct (Z.leb_spec (Size c) 0); [lia|].
  destruct (String.eqb_spec (Direction c) ""); [contradiction|].
  destruct (String.eqb_spec (Direction c) DirectionUpload); [contradiction|].
  destruct (String.eqb_spec (Direction c) DirectionDownload);
    [contradiction|].
  reflexivity.
Qed.

End Framing.

(** C1 (as amended): every Start, Ack, Data, Ping, Pong, Complete and Error
    message whose fields lie in their Go types, whose strings are shorter
    than 65536 bytes and whose [Data] is shorter than 2^32 bytes decodes
    back from its encoding to itself; and when the encoded payload is
    shorter than 2^32 bytes (for [Data]: at most 2^32 - 9 data bytes),
    [WriteMessage] followed by [ReadMessage] gives back the message type and
    a payload that [Decode] turns into the original message. *)
Theorem codec_round_trip :
  (forall m : StartMessage,
      StartMessage_typed m -> fits_string (Start_Direction m) ->
      decodes_back m /\ frames_back m)
  /\ (forall m : AckMessage,
      fits_string (Ack_Error m) -> decodes_back m /\ frames_back m)
  /\ (forall m : DataMessage,
      DataMessage_typed m -> len (Data_Data m) < 2 ^ 32 ->
      decodes_back m /\ (len (Data_Data m) + 8 < 2 ^ 32 -> frames_back m))
  /\ (forall m : PingMessage,
      PingMessage_typed m -> decodes_back m /\ frames_back m)
  /\ (forall m : PongMessage,
      PongMessage_typed m -> decodes_back m /\ frames_back m)
  /\ (forall m : CompleteMessage,
      CompleteMessage_typed m -> decodes_back m /\ frames_back m)
  /\ (forall m : ErrorMessage,
      fits_string (Error_Error m) -> decodes_back m /\ frames_back m).
Proof.
  repeat apply conj.
  - intros m Ht Hs. pose proof (Start_decodes_back m Ht Hs) as Hd.
    split; [exact Hd|]. apply frames_back_of_decodes_back; [|exact Hd].
    rewrite Encode_Start_length. unfold fits_string in Hs. lia.
  - intros m Hs. pose proof (Ack_decodes_back m Hs) as Hd.
    split; [exact Hd|]. apply frames_back_of_decodes_back; [|exact Hd].
    rewrite Encode_Ack_length. unfold fits_string in Hs. lia.
  - intros m Ht Hl. pose proof (Data_decodes_back m Ht Hl) as Hd.
    split; [exact Hd|]. intros Hf.
    apply frames_back_of_decodes_back; [|exact Hd].
    rewrite Encode_Data_length. lia.
  - intros m Ht. pose proof (Ping_decodes_back m Ht) as Hd.
    split; [exact Hd|]. apply frames_back_of_decodes_back; [|exact Hd].
    rewrite Encode_Ping_length. lia.
  - intros m Ht. pose proof (Pong_decodes_back m Ht) as Hd.
    split; [exact Hd|]. apply frames_back_of_decodes_back; [|exact Hd].
    rewrite Encode_Pong_length. lia.
  - intros m Ht. pose proof (Complete_decodes_back m Ht) as Hd.
    split; [exact Hd|]. apply frames_back_of_decodes_back; [|exact Hd].
    rewrite Encode_Complete_length. lia.
  - intros m Hs. pose proof (Error_decodes_back m Hs) as Hd.
    split; [exact Hd|]. apply frames_back_of_decodes_back; [|exact Hd].
    rewrite Encode_Error_length. unfold fits_string in Hs. lia.
Qed.

(** The messages of the package's own tests round-trip. *)
Lemma codec_round_trip_witness :
  (decodes_back sample_start /\ frames_back sample_start)
  /\ (decodes_back sample_ack /\ frames_back sample_ack)
  /\ (decodes_back sample_data /\ frames_back sample_data)
  /\ (decodes_back sample_ping /\ frames_back sample_ping)
  /\ (decodes_back sample_pong /\ frames_back sample_pong)
  /\ (decodes_back sample_complete /\ frames_back sample_complete)
  /\ (decodes_back sample_error /\ frames_back sample_error).
Proof.
  destruct codec_round_trip as (HS & HA & HD & HPi & HPo & HC & HE).
  repeat apply conj.
  - apply HS; vm_compute; intuition discriminate.
  - apply HS; vm_compute; intuition discriminate.
  - apply HA; vm_compute; reflexivity.
  - apply HA; vm_compute; reflexivity.
  - apply HD; vm_compute; intuition discriminate.
  - apply HD; vm_compute; intuition discriminate.
  - apply HPi; vm_compute; intuition discriminate.
  - apply HPi; vm_compute; intuition discriminate.
  - apply HPo; vm_compute; intuition discriminate.
  - apply HPo; vm_compute; intuition discriminate.
  - apply HC; vm_compute; intuition discriminate.
  - apply HC; vm_compute; intuition discriminate.
  - apply HE; vm_compute; reflexivity.
  - apply HE; vm_compute; reflexivity.
Defined.

(** A text of exactly 2^16 bytes is written with length prefix 0. *)
Lemma Error_decode_wrapped (s : string) :
  len (bytes_of_string s) = 2 ^ 16 ->
  Decode (Encode {| Error_Error := s |})
  = Ok ({| Error_Error := "" |}, bytes_of_string s).
Proof.
  intros Hl.
  cbn [Encode Decode ErrorMessage_Message Error_Error].
  unfold writeString, bind. rewrite Hl.
  change (uint16 (2 ^ 16)) with 0.
  unfold readString, bind.
  rewrite read_uint16_write by lia. reflexivity.
Qed.

Lemma long_error_length :
  len (bytes_of_string (Error_Error long_error)) = 2 ^ 16.
Proof.
  unfold long_error, Error_Error, bytes_of_string, string_of_bytes, len.
  rewrite list_byte_of_string_of_list_byte, List.repeat_length.
  rewrite Z2Nat.id; [reflexivity | lia].
Qed.

(** C1 (as stated) fails: an [ErrorMessage] whose text is 65536 bytes long
    is written with the length prefix [uint16(65536) = 0], and decodes to
    the empty text with all 65536 bytes left unread. *)
Lemma long_string_not_round_trip :
  Decode (Encode long_error)
  = Ok ({| Error_Error := "" |}, bytes_of_string (Error_Error long_error))
  /\ Decode (Encode long_error) <> Ok (long_error, []).
Proof.
  pose proof long_error_length as Hl.
  assert (H : Decode (Encode long_error)
              = Ok ({| Error_Error := "" |},
                    bytes_of_string (Error_Error long_error))).
  { exact (Error_decode_wrapped (Error_Error long_error) Hl). }
  split; [exact H|]. rewrite H. intros E.
  assert (E' : bytes_of_string (Error_Error long_error) = [])
    by congruence.
  rewrite E' in Hl. vm_compute in Hl. discriminate Hl.
Qed.

(** C2 (as amended): [ReadMessage] fails exactly on a truncated stream
    (fewer than five header bytes, or fewer payload bytes than the header
    declares); every type byte and every declared length below 2^32 is
    accepted when the payload is there; [StartMessage.Decode] accepts every
    direction string; and it is [Config.Validate] that refuses a non-empty
    direction other than upload and download. *)
Theorem ReadMessage_fails_only_truncated :
  (forall r, (exists e, ReadMessage r = Err e) <-> truncated r)
  /\ (forall (t : MessageType) (payload rest : bytes),
        len payload < 2 ^ 32 ->
        ReadMessage
          (write_byte t ++ write_uint32 (len payload) ++ payload ++ rest)
        = Ok ((t, payload), rest))
  /\ (forall (size : Z) (dir : string),
        is_int64 size -> fits_string dir ->
        decodes_back {| Start_Size := size; Start_Direction := dir |})
  /\ (forall c : Config,
        Config_Validate c = None ->
        Direction c = ""%string \/ Direction c = DirectionUpload
        \/ Direction c = DirectionDownload)
  /\ (forall c : Config,
        PeerName c <> ""%string -> 0 < Size c ->
        Direction c <> ""%string -> Direction c <> DirectionUpload ->
        Direction c <> DirectionDownload ->
        Config_Validate c = Some ErrDirection).
Proof.
  repeat apply conj.
  - exact ReadMessage_error_iff.
  - exact ReadMessage_frame.
  - intros size dir Hs Hd. now apply Start_decodes_back.
  - exact Config_Validate_direction.
  - exact Config_Validate_bad_direction.
Qed.

Lemma ReadMessage_fails_only_truncated_witness :
  ReadMessage (write_byte MsgPing ++ write_uint32 (len (Encode sample_ping))
                 ++ Encode sample_ping ++ [])
  = Ok ((MsgPing, Encode sample_ping), [])
  /\ decodes_back {| Start_Size := 1024; Start_Direction := "sideways" |}
  /\ Config_Validate sideways_config = Some ErrDirection
  /\ (Direction sample_config = ""%string
      \/ Direction sample_config = DirectionUpload
      \/ Direction sample_config = DirectionDownload).
Proof.
  destruct ReadMessage_fails_only_truncated as (_ & HF & HS & HV & HB).
  repeat apply conj.
  - apply HF. vm_compute. reflexivity.
  - apply HS; vm_compute; [intuition discriminate | reflexivity].
  - apply HB; vm_compute; try reflexivity; discriminate.
  - apply HV. vm_compute. reflexivity.
Defined.

(** C2 (as stated) fails: a frame with the unknown type byte 0x99 is read
    without error, and so is a Start frame whose direction is neither
    upload nor download, which then decodes without error. *)
Lemma unknown_type_and_direction_read :
  known_type "153"%byte = false
  /\ ReadMessage [ "153"; "000"; "000"; "000"; "000" ]%byte
     = Ok (("153"%byte, []), [])
  /\ ReadMessage
       (WriteMessage MsgStart
          {| Start_Size := 1024; Start_Direction := "sideways" |})
     = Ok ((MsgStart,
            Encode {| Start_Size := 1024; Start_Direction := "sideways" |}),
           [])
  /\ Decode (Encode {| Start_Size := 1024; Start_Direction := "sideways" |})
     = Ok ({| Start_Size := 1024; Start_Direction := "sideways" |}, []).
Proof. repeat apply conj; vm_compute; reflexivity. Qed.

(** ** Directory: the online flag *)

Section Online.

Lemma Time_Sub_lt (t u bound : Z) :
  minDuration < bound <= maxDuration ->
  (Time_Sub t u <? bound) = true <-> t - u < bound.
Proof.
  unfold Time_Sub, minDuration, maxDuration. intros Hb.
  destruct (Z.ltb_spec (t - u) (- 2 ^ 63));
    [|destruct (Z.ltb_spec (2 ^ 63 - 1) (t - u))];
    rewrite Z.ltb_lt; lia.
Qed.

Lemma online_spec (now lastSeen : Z) :
  online now lastSeen = true <-> now - lastSeen < 2 * Minute.
Proof.
  unfold online, onlineThreshold. apply Time_Sub_lt.
  unfold minDuration, maxDuration, Minute, Second, Millisecond. lia.
Qed.

Lemma overview_loop (now : Z) (peers : list peerInfo) (acc : AdminOverview) :
  Peers (fold_left (overview_step now) peers acc)
  = Peers acc
    ++ map (fun info =>
              {| Admin_Name := peer_Name info;
                 Admin_MeshIP := peer_MeshIP info;
                 Admin_LastSeen := peer_LastSeen info;
                 Admin_Online := online now (peer_LastSeen info) |}) peers
  /\ OnlinePeers (fold_left (overview_step now) peers acc)
     = OnlinePeers acc
       + len (filter (fun info => online now (peer_LastSeen info)) peers).
Proof.
  revert acc. induction peers as [|info peers IH]; intros acc.
  - simpl. rewrite List.app_nil_r. unfold len. simpl. split; [reflexivity|lia].
  - cbn [fold_left]. destruct (IH (overview_step now acc info)) as [IHp IHo].
    rewrite IHp, IHo. unfold overview_step. cbn [Peers OnlinePeers map].
    split.
    + now rewrite <- List.app_assoc.
    + unfold len. cbn [filter].
      destruct (online now (peer_LastSeen info)); cbn [List.length]; lia.
Qed.

End Online.

(** C7: a peer is reported online exactly when [now - last_seen] is below
    two minutes; the flag of every peer of the admin overview is that
    function of the peer's [LastSeen] and the clock reading, and
    [OnlinePeers] counts the peers it holds for. *)
Theorem online_iff_seen_within_two_minutes :
  forall (now : Z) (peers : list peerInfo),
    (forall lastSeen : Z,
        online now lastSeen = true <-> now - lastSeen < 2 * Minute)
    /\ Peers (handleAdminOverview now peers)
       = map (fun info =>
                {| Admin_Name := peer_Name info;
                   Admin_MeshIP := peer_MeshIP info;
                   Admin_LastSeen := peer_LastSeen info;
                   Admin_Online :=
                     bool_decide (now - peer_LastSeen info < 2 * Minute) |})
           peers
    /\ OnlinePeers (handleAdminOverview now peers)
       = len (filter (fun info =>
                        bool_decide (now - peer_LastSeen info < 2 * Minute))
                peers).
Proof.
  intros now peers.
  assert (Hb : forall lastSeen,
             online now lastSeen = bool_decide (now - lastSeen < 2 * Minute)).
  { intros l. pose proof (online_spec now l) as Ho.
    destruct (online now l); symmetry.
    - apply bool_decide_eq_true. now apply Ho.
    - apply bool_decide_eq_false. intros Hlt. apply Ho in Hlt. discriminate. }
  split; [intros l; apply online_spec|].
  unfold handleAdminOverview.
  destruct (overview_loop now peers
              {| TotalPeers := len peers; OnlinePeers := 0; Peers := [] |})
    as [Hp Ho].
  rewrite Hp, Ho. cbn [Peers OnlinePeers app]. split.
  - apply List.map_ext. intros info. now rewrite Hb.
  - rewrite Z.add_0_l. f_equal.
    apply List.filter_ext. intros info. apply Hb.
Qed.

(** ** Throughput *)

(** C9: [CalculateThroughput] divides only by a non-zero number of seconds;
    with [DurationMs <= 0] it changes nothing; and it never changes a field
    other than [ThroughputBps] and [ThroughputMbps]. *)
Theorem CalculateThroughput_safe :
  forall r : Result,
    (0 < DurationMs r -> ~ (durationSec r == 0)%Q)
    /\ (DurationMs r <= 0 -> CalculateThroughput r = r)
    /\ ID (CalculateThroughput r) = ID r
    /\ Timestamp (CalculateThroughput r) = Timestamp r
    /\ LocalPeer (CalculateThroughput r) = LocalPeer r
    /\ RemotePeer (CalculateThroughput r) = RemotePeer r
    /\ Result_Direction (CalculateThroughput r) = Result_Direction r
    /\ RequestedSize (CalculateThroughput r) = RequestedSize r
    /\ TransferredSize (CalculateThroughput r) = TransferredSize r
    /\ DurationMs (CalculateThroughput r) = DurationMs r
    /\ LatencyMinMs (CalculateThroughput r) = LatencyMinMs r
    /\ LatencyMaxMs (CalculateThroughput r) = LatencyMaxMs r
    /\ LatencyAvgMs (CalculateThroughput r) = LatencyAvgMs r
    /\ Success (CalculateThroughput r) = Success r
    /\ Result_Error (CalculateThroughput r) = Result_Error r
    /\ Result_Chaos (CalculateThroughput r) = Result_Chaos r.
Proof.
  intros r. split; [|split].
  - intros Hd Hz. unfold durationSec in Hz.
    assert (Hq : (0 < inject_Z (DurationMs r))%Q).
    { rewrite <- (Zlt_Qlt 0). exact Hd. }
    assert (Hpos : (0 < inject_Z (DurationMs r) / 1000)%Q).
    { apply Qlt_shift_div_l; lra. }
    lra.
  - intros Hd. unfold CalculateThroughput.
    destruct (Z.gtb_spec (DurationMs r) 0); [lia | reflexivity].
  - unfold CalculateThroughput.
    destruct (DurationMs r >? 0); repeat split; reflexivity.
Qed.

Lemma CalculateThroughput_safe_witness :
  ~ (durationSec sample_result == 0)%Q
  /\ CalculateThroughput stalled_result = stalled_result.
Proof.
  split.
  - apply (CalculateThroughput_safe sample_result). reflexivity.
  - apply (CalculateThroughput_safe stalled_result). vm_compute. discriminate.
Defined.

(** ** Token authority *)

(** C3 (as amended): a token made by [GenerateToken] validates under the
    same secret, giving back the peer name and mesh IP, at every time up to
    its [ExpiresAt] (the reading of the clock taken for it, plus 24 hours),
    also before [IssuedAt]; and fails at every later time. *)
Theorem ValidateToken_until_expiry :
  forall (secret peerName meshIP : string) (now_exp now_iat now : Z),
    let t := GenerateToken secret now_exp now_iat peerName meshIP in
    (now <= now_exp + TokenExpiry ->
     ValidateToken secret now t = Some (Token_Claims t)
     /\ Claims_PeerName (Token_Claims t) = peerName
     /\ Claims_MeshIP (Token_Claims t) = meshIP)
    /\ (now_exp + TokenExpiry < now -> ValidateToken secret now t = None).
Proof.
  intros secret peerName meshIP now_exp now_iat now t.
  unfold ValidateToken, ParseWithClaims. subst t.
  unfold GenerateToken, SignedString, NewNumericDate, SigningMethodHS256.
  cbn [Token_Method Token_Claims Token_Signature Claims_Registered ExpiresAt
       Claims_PeerName Claims_MeshIP].
  rewrite decide_True by reflexivity.
  split.
  - intros Hn. destruct (Z.leb_spec now (now_exp + TokenExpiry)); [|lia].
    repeat split.
  - intros Hn. destruct (Z.leb_spec now (now_exp + TokenExpiry)); [lia|].
    reflexivity.
Qed.

Lemma ValidateToken_until_expiry_witness :
  ValidateToken "secret" (1000 + Hour)
    (GenerateToken "secret" 1000 1000 "alice" "10.99.0.7")
  = Some (Token_Claims (GenerateToken "secret" 1000 1000 "alice" "10.99.0.7"))
  /\ ValidateToken "secret" (1001 + TokenExpiry)
       (GenerateToken "secret" 1000 1000 "alice" "10.99.0.7")
     = None.
Proof.
  split.
  - apply (ValidateToken_until_expiry "secret" "alice" "10.99.0.7"
             1000 1000 (1000 + Hour)).
    vm_compute. discriminate.
  - apply (ValidateToken_until_expiry "secret" "alice" "10.99.0.7"
             1000 1000 (1001 + TokenExpiry)).
    vm_compute. reflexivity.
Defined.

(** C3 (as stated) fails: a token issued at [iat = 1000] validates at
    [now = 0], which is outside [iat, iat + 24h]; and when the clock moves
    between the two readings of [GenerateToken] ([ExpiresAt] from 0,
    [IssuedAt] = 1), the token is refused at [now = iat + 24h]. *)
Lemma token_valid_before_issue :
  ~ (1000 <= 0 <= 1000 + TokenExpiry)
  /\ ValidateToken "secret" 0
       (GenerateToken "secret" 1000 1000 "alice" "10.99.0.7")
     = Some (Token_Claims
               (GenerateToken "secret" 1000 1000 "alice" "10.99.0.7"))
  /\ (1 <= 1 + TokenExpiry <= 1 + TokenExpiry)
  /\ ValidateToken "secret" (1 + TokenExpiry)
       (GenerateToken "secret" 0 1 "alice" "10.99.0.7")
     = None.
Proof.
  repeat apply conj; try (vm_compute; reflexivity);
    try (vm_compute; discriminate).
  intros [H _]. vm_compute in H. apply H. reflexivity.
Qed.

(** ** Token bucket *)

Section TokenBucketFacts.

Lemma Qltb_true_iff (x y : Q) : Qltb x y = true <-> (x < y)%Q.
Proof.
  unfold Qltb. rewrite negb_true_iff.
  split.
  - intros Hf. apply Qnot_le_lt. intros Hle.
    apply Qle_bool_iff in Hle. congruence.
  - intros Hlt. destruct (Qle_bool y x) eqn:E; [|reflexivity].
    apply Qle_bool_iff in E. lra.
Qed.

Lemma Qltb_false_iff (x y : Q) : Qltb x y = false <-> (y <= x)%Q.
Proof.
  unfold Qltb. rewrite negb_false_iff. apply Qle_bool_iff.
Qed.

Lemma Qle_bool_false_iff (x y : Q) : Qle_bool x y = false <-> (y < x)%Q.
Proof.
  split.
  - intros Hf. apply Qnot_le_lt. intros Hle.
    apply Qle_bool_iff in Hle. congruence.
  - intros Hlt. destruct (Qle_bool x y) eqn:E; [|reflexivity].
    apply Qle_bool_iff in E. lra.
Qed.

Lemma Second_pos : (0 < inject_Z Second)%Q.
Proof. reflexivity. Qed.

Lemma Seconds_nonneg (d : Z) : 0 <= d -> (0 <= Seconds d)%Q.
Proof.
  intros Hd. unfold Seconds. apply Qle_shift_div_l; [apply Second_pos|].
  rewrite Qmult_0_l. rewrite <- (Zle_Qle 0). exact Hd.
Qed.

Lemma Time_Sub_nonneg (t u : Z) : u <= t -> 0 <= Time_Sub t u.
Proof.
  unfold Time_Sub, minDuration, maxDuration. intros Hu.
  destruct (Z.ltb_spec (t - u) (- 2 ^ 63)); [lia|].
  destruct (Z.ltb_spec (2 ^ 63 - 1) (t - u)); lia.
Qed.

Lemma Time_Sub_after (t d : Z) :
  0 <= d <= maxDuration -> Time_Sub (t + d) t = d.
Proof.
  unfold Time_Sub, minDuration, maxDuration. intros Hd.
  replace (t + d - t) with d by lia.
  destruct (Z.ltb_spec d (- 2 ^ 63)); [lia|].
  destruct (Z.ltb_spec (2 ^ 63 - 1) d); lia.
Qed.

Lemma Qtrunc_nonneg (q : Q) : (0 <= q)%Q -> 0 <= Qtrunc q.
Proof.
  intros Hq. unfold Qtrunc.
  destruct (Qle_bool 0 q) eqn:E.
  - change 0 with (Qfloor 0). now apply Qfloor_resp_le.
  - apply Qle_bool_iff in Hq. congruence.
Qed.

Lemma Qtrunc_le (q : Q) (z : Z) :
  (0 <= q)%Q -> (q <= inject_Z z)%Q -> Qtrunc q <= z.
Proof.
  intros H0 Hq. unfold Qtrunc.
  destruct (Qle_bool 0 q) eqn:E.
  - rewrite <- (Qfloor_Z z). now apply Qfloor_resp_le.
  - apply Qle_bool_iff in H0. congruence.
Qed.

(** A positive duration did not come from an out-of-range conversion. *)
Lemma Duration_of_float64_pos (f : float64) :
  0 < Duration_of_float64 f -> Duration_of_float64 f <= maxDuration.
Proof.
  unfold Duration_of_float64.
  destruct (Z.leb_spec minDuration (Qtrunc f));
    destruct (Z.leb_spec (Qtrunc f) maxDuration); cbn [andb];
    unfold minDuration, maxDuration in *; lia.
Qed.

Lemma Duration_of_float64_nonneg (f : float64) :
  (0 <= f)%Q -> (f <= inject_Z maxDuration)%Q -> 0 <= Duration_of_float64 f.
Proof.
  intros H0 Hm. unfold Duration_of_float64.
  pose proof (Qtrunc_nonneg f H0). pose proof (Qtrunc_le f _ H0 Hm).
  destruct (Z.leb_spec minDuration (Qtrunc f));
    destruct (Z.leb_spec (Qtrunc f) maxDuration); cbn [andb];
    unfold minDuration, maxDuration in *; lia.
Qed.

Lemma refill_le_max (tb : TokenBucket) (now : Z) :
  (refill tb now <= maxTokens tb)%Q.
Proof.
  unfold refill.
  destruct (Qltb _ _) eqn:E; [lra|]. now apply Qltb_false_iff in E.
Qed.

Lemma refill_nonneg (tb : TokenBucket) (now : Z) :
  bucket_inv tb -> lastUpdate tb <= now -> (0 <= refill tb now)%Q.
Proof.
  intros (Hr & Hm & Ht0 & Ht1) Hn. unfold refill.
  assert (He : (0 <= Seconds (Time_Sub now (lastUpdate tb)) * rate tb)%Q).
  { apply Qmult_le_0_compat; [|lra].
    apply Seconds_nonneg. now apply Time_Sub_nonneg. }
  destruct (Qltb _ _); lra.
Qed.

(** The two ways out of [Take]. *)
Lemma Take_cases (tb : TokenBucket) (now n : Z) :
  ((inject_Z n <= refill tb now)%Q
   /\ Take tb now n
      = (0, {| rate := rate tb;
               tokens := (refill tb now - inject_Z n)%Q;
               maxTokens := maxTokens tb;
               lastUpdate := now |}))
  \/ ((refill tb now < inject_Z n)%Q
      /\ Take tb now n
         = (Duration_of_float64
              ((inject_Z n - refill tb now) / rate tb * inject_Z Second)%Q,
            {| rate := rate tb;
               tokens := 0%Q;
               maxTokens := maxTokens tb;
               lastUpdate := now |})).
Proof.
  unfold Take. destruct (Qle_bool (inject_Z n) (refill tb now)) eqn:E.
  - left. split; [now apply Qle_bool_iff | reflexivity].
  - right. split; [now apply Qle_bool_false_iff | reflexivity].
Qed.

Lemma NewTokenBucket_inv (bytesPerSec now : Z) :
  0 < bytesPerSec -> bucket_inv (NewTokenBucket bytesPerSec now).
Proof.
  intros Hb. unfold bucket_inv, NewTokenBucket.
  cbn [rate tokens maxTokens].
  assert (Hq : (0 < inject_Z bytesPerSec)%Q)
    by (rewrite <- (Zlt_Qlt 0); exact Hb).
  repeat split; try lra.
Qed.

Lemma Take_inv (tb : TokenBucket) (now n : Z) :
  bucket_inv tb -> 0 <= n ->
  bucket_inv (snd (Take tb now n))
  /\ rate (snd (Take tb now n)) = rate tb
  /\ lastUpdate (snd (Take tb now n)) = now.
Proof.
  intros (Hr & Hm & Ht0 & Ht1) Hn.
  assert (Hq : (0 <= inject_Z n)%Q) by (rewrite <- (Zle_Qle 0); exact Hn).
  pose proof (refill_le_max tb now) as Hcap.
  destruct (Take_cases tb now n) as [[Hle ->]|[Hlt ->]];
    unfold bucket_inv; cbn [snd rate tokens maxTokens lastUpdate];
    repeat split; try assumption; lra.
Qed.

Lemma Take_wait_nonneg (tb : TokenBucket) (now n : Z) :
  bucket_inv tb -> lastUpdate tb <= now ->
  (inject_Z n * inject_Z Second <= inject_Z maxDuration * rate tb)%Q ->
  0 <= fst (Take tb now n).
Proof.
  intros Hinv Hnow Hbound.
  pose proof (refill_nonneg tb now Hinv Hnow) as H0.
  destruct Hinv as (Hr & Hm & Ht0 & Ht1).
  destruct (Take_cases tb now n) as [[Hle ->]|[Hlt ->]]; cbn [fst]; [lia|].
  pose proof Second_pos as HS.
  assert (Hinv_pos : (0 < / rate tb)%Q) by now apply Qinv_lt_0_compat.
  apply Duration_of_float64_nonneg.
  - apply Qmult_le_0_compat; [|lra].
    apply Qmult_le_0_compat; lra.
  - assert (E : ((inject_Z n - refill tb now) / rate tb * inject_Z Second
                 == (inject_Z n * inject_Z Second
                     - refill tb now * inject_Z Second) / rate tb)%Q)
      by (field; lra).
    rewrite E. apply Qle_shift_div_r; [exact Hr|].
    assert (0 <= refill tb now * inject_Z Second)%Q
      by (apply Qmult_le_0_compat; lra).
    lra.
Qed.

Lemma Takes_inv (calls : list (N * N)) :
  forall tb : TokenBucket,
    bucket_inv tb ->
    bucket_inv (snd (Takes tb calls))
    /\ rate (snd (Takes tb calls)) = rate tb.
Proof.
  induction calls as [|[gap n] calls IH]; intros tb Hinv.
  - split; [exact Hinv | reflexivity].
  - set (now := lastUpdate tb + Z.of_N gap).
    destruct (Take_inv tb now (Z.of_N n) Hinv (N2Z.is_nonneg n))
      as (Hinv' & Hrate & _).
    cbn [Takes]. fold now.
    destruct (Take tb now (Z.of_N n)) as [w tb'] eqn:ET.
    cbn [snd] in Hinv', Hrate.
    destruct (IH tb' Hinv') as [IHi IHr].
    destruct (Takes tb' calls) as [ws tb''] eqn:ETs.
    cbn [snd] in *. split; [exact IHi | congruence].
Qed.

Lemma Takes_waits_nonneg (calls : list (N * N)) :
  forall tb : TokenBucket,
    bucket_inv tb ->
    Forall (fun c => (inject_Z (Z.of_N (snd c)) * inject_Z Second
                      <= inject_Z maxDuration * rate tb)%Q) calls ->
    Forall (fun w => 0 <= w) (fst (Takes tb calls)).
Proof.
  induction calls as [|[gap n] calls IH]; intros tb Hinv Hb.
  - constructor.
  - inversion Hb as [|c cs Hb0 Hbs]; subst. cbn [snd] in Hb0.
    set (now := lastUpdate tb + Z.of_N gap).
    assert (Hnow : lastUpdate tb <= now) by (subst now; lia).
    pose proof (Take_wait_nonneg tb now (Z.of_N n) Hinv Hnow Hb0) as Hw.
    destruct (Take_inv tb now (Z.of_N n) Hinv (N2Z.is_nonneg n))
      as (Hinv' & Hrate & Hlast).
    cbn [Takes]. fold now.
    destruct (Take tb now (Z.of_N n)) as [w tb'] eqn:ET.
    cbn [fst snd] in Hw, Hinv', Hrate, Hlast.
    assert (IH' : Forall (fun w => 0 <= w) (fst (Takes tb' calls))).
    { apply IH; try assumption. now rewrite Hrate. }
    destruct (Takes tb' calls) as [ws tb''].
    cbn [fst] in *. now constructor.
Qed.

End TokenBucketFacts.

(** C8 (as amended): for a bucket made by [NewTokenBucket] with a positive
    rate, after any run of [Take] calls (each made with a length, at or
    after the time of the one before) the stored token count is within
    [0, maxTokens], [maxTokens] being the rate; and when no call asks for
    more tokens than 2^62 nanoseconds bring at the rate, no [Take] returns
    a negative wait.  (The wait is a float64 product converted to [int64],
    which is out of range from 2^63 on; the bound stays a factor of two
    below, out of reach of the rounding of that product.) *)
Theorem bucket_bounds :
  forall (bytesPerSec now0 : Z) (calls : list (N * N)),
    0 < bytesPerSec ->
    let tb := snd (Takes (NewTokenBucket bytesPerSec now0) calls) in
    ((0 <= tokens tb)%Q /\ (tokens tb <= maxTokens tb)%Q
     /\ (maxTokens tb == rate tb)%Q
     /\ rate tb = rate (NewTokenBucket bytesPerSec now0))
    /\ (Forall (fun c => Z.of_N (snd c) * Second <= 2 ^ 62 * bytesPerSec)
          calls ->
        Forall (fun w => 0 <= w)
          (fst (Takes (NewTokenBucket bytesPerSec now0) calls))).
Proof.
  intros b now0 calls Hb tb.
  pose proof (NewTokenBucket_inv b now0 Hb) as Hinv.
  destruct (Takes_inv calls _ Hinv) as [(Hr & Hm & Ht0 & Ht1) Hrate].
  fold tb in Hr, Hm, Ht0, Ht1, Hrate.
  split.
  - repeat split; assumption.
  - intros Hbound. apply Takes_waits_nonneg; try assumption.
    eapply Forall_impl; [|exact Hbound].
    intros [gap n] Hc. cbn [snd] in *. cbn [NewTokenBucket rate].
    rewrite <- !inject_Z_mult, <- Zle_Qle.
    unfold maxDuration. nia.
Qed.

Lemma bucket_bounds_witness :
  let tb := snd (Takes (NewTokenBucket 100 0) sample_calls) in
  ((0 <= tokens tb)%Q /\ (tokens tb <= maxTokens tb)%Q
   /\ (maxTokens tb == rate tb)%Q
   /\ rate tb = rate (NewTokenBucket 100 0))
  /\ Forall (fun w => 0 <= w)
       (fst (Takes (NewTokenBucket 100 0) sample_calls)).
Proof.
  destruct (bucket_bounds 100 0 sample_calls ltac:(lia)) as [H1 H2].
  split; [exact H1|]. apply H2.
  unfold sample_calls. repeat constructor; vm_compute; discriminate.
Defined.

(** C8 (as stated) fails.  A fresh bucket of rate 1 (one byte per second)
    asked at once for 10^10 tokens, which is what [Write] asks for a slice
    of ten gigabytes, computes a wait of 9999999999 seconds, more than the
    2^63 nanoseconds an [int64] holds: the wait returned is the negative
    -2^63 (and [Write], which sleeps only for a positive wait, does not
    pace that write at all). *)
Lemma oversized_take_waits_negative :
  fst (Takes (NewTokenBucket 1 0) [(0, 10000000000)%N]) = [- 2 ^ 63]
  /\ Exists (fun w => w < 0)
       (fst (Takes (NewTokenBucket 1 0) [(0, 10000000000)%N])).
Proof.
  split; [vm_compute; reflexivity|].
  constructor. vm_compute. reflexivity.
Qed.

(** [Take] is not made for a negative count, which [Write] never passes: a
    direct call [Take(-1)] on a fresh bucket of rate 100 leaves 101 tokens
    in a bucket whose [maxTokens] is 100. *)
Lemma Take_negative_overfills :
  let tb := snd (Take (NewTokenBucket 100 0) 0 (-1)) in
  (tokens tb == 101)%Q /\ (maxTokens tb == 100)%Q
  /\ ~ (tokens tb <= maxTokens tb)%Q.
Proof.
  cbv zeta. repeat apply conj; try (vm_compute; reflexivity).
  vm_compute. intros H. apply H. reflexivity.
Qed.

(** C4 (as amended): when [Take(n)] on a bucket of positive rate (whose
    [maxTokens] is the rate) returns a wait [w > 0] and the next call comes
    exactly [w] later, that call [Take(m)] returns 0 whenever
    [m <= rate * w] and, in addition, [m] is at most [maxTokens]. *)
Theorem Take_after_wait :
  forall (tb : TokenBucket) (now n m : Z),
    (0 < rate tb)%Q -> (maxTokens tb == rate tb)%Q ->
    let w := fst (Take tb now n) in
    let tb' := snd (Take tb now n) in
    0 < w ->
    (inject_Z m <= rate tb * Seconds w)%Q ->
    (inject_Z m <= maxTokens tb)%Q ->
    fst (Take tb' (now + w) m) = 0.
Proof.
  intros tb now n m Hr Hm w tb' Hw Hmw Hmax.
  subst w tb'.
  destruct (Take_cases tb now n) as [[Hle E]|[Hlt E]]; rewrite E in *;
    cbn [fst snd] in *; [lia|].
  pose proof (Duration_of_float64_pos _ Hw) as Hfit.
  set (w := Duration_of_float64 _) in *.
  match goal with |- fst (Take ?b _ _) = 0 => set (tb' := b) end.
  destruct (Take_cases tb' (now + w) m) as [[_ ->]|[Hlt' _]];
    [reflexivity|].
  exfalso. unfold refill in Hlt'. subst tb'.
  cbn [tokens rate maxTokens lastUpdate] in Hlt'.
  rewrite Time_Sub_after in Hlt' by lia.
  destruct (Qltb _ _); lra.
Qed.

Lemma Take_after_wait_witness :
  fst (Take (snd (Take (NewTokenBucket 100 0) 0 150))
         (0 + fst (Take (NewTokenBucket 100 0) 0 150)) 50) = 0.
Proof.
  apply (Take_after_wait (NewTokenBucket 100 0) 0 150 50);
    vm_compute; try reflexivity; discriminate.
Defined.

(** C4 (as stated) fails: a fresh bucket of rate 100 answers [Take(300)]
    with a wait of two seconds; two seconds later [Take(200)], with
    [200 <= rate * 2s], finds the bucket capped at 100 tokens and returns a
    wait of one more second. *)
Lemma second_take_waits_again :
  let tb := NewTokenBucket 100 0 in
  let w := fst (Take tb 0 300) in
  let tb' := snd (Take tb 0 300) in
  w = 2 * Second
  /\ (inject_Z 200 <= rate tb * Seconds w)%Q
  /\ fst (Take tb' (0 + w) 200) = 1 * Second.
Proof.
  cbv zeta. repeat apply conj; try (vm_compute; reflexivity).
  vm_compute. discriminate.
Qed.

(** ** Chaos writer *)

Section ChaosWriterFacts.

Context {W : Type} `{Writer W}.

Lemma sleep_if_positive_events (d : Z) (s : WriteState W) :
  ws_events (sleep_if_positive d s) = ws_events s ++ sleep_events d.
Proof.
  unfold sleep_if_positive, sleep_events.
  destruct (d >? 0); cbn [sleep ws_events]; [reflexivity|].
  now rewrite List.app_nil_r.
Qed.

Lemma sleep_if_positive_clock (d : Z) (s : WriteState W) :
  ws_clock (sleep_if_positive d s) = ws_clock s + Z.max 0 d.
Proof.
  unfold sleep_if_positive.
  destruct (Z.gtb_spec d 0); cbn [sleep ws_clock]; lia.
Qed.

Lemma sleep_if_positive_cw (d : Z) (s : WriteState W) :
  ws_cw (sleep_if_positive d s) = ws_cw s.
Proof. unfold sleep_if_positive. destruct (d >? 0); reflexivity. Qed.

(** What [write_through] returns and leaves. *)
Lemma write_through_spec (p : bytes) (s : WriteState W) :
  exists n err w',
    Writer_Write (cw_w (ws_cw s)) p = ((n, err), w')
    /\ fst (write_through p s) = Returned n err
    /\ ws_events (snd (write_through p s)) = ws_events s ++ [EvWrite p]
    /\ ws_clock (snd (write_through p s)) = ws_clock s
    /\ cw_w (ws_cw (snd (write_through p s))) = w'
    /\ cw_cfg (ws_cw (snd (write_through p s))) = cw_cfg (ws_cw s)
    /\ cw_bucket (ws_cw (snd (write_through p s))) = cw_bucket (ws_cw s)
    /\ DroppedWrites (cw_stats (ws_cw (snd (write_through p s))))
       = DroppedWrites (cw_stats (ws_cw s)).
Proof.
  unfold write_through.
  destruct (Writer_Write (cw_w (ws_cw s)) p) as [[n err] w'].
  exists n, err, w'. repeat split.
Qed.

(** What [add_latency] returns and leaves: a panic of [Int63n] before any
    sleep, or one sleep of a delay that is not negative, then the write. *)
Lemma add_latency_spec (p : bytes) (s : WriteState W) :
  (fst (add_latency p s) = Panicked
   /\ ws_events (snd (add_latency p s)) = ws_events s
   /\ 0 < Jitter (cw_cfg (ws_cw s)))
  \/ exists n err w' delay,
       Writer_Write (cw_w (ws_cw s)) p = ((n, err), w')
       /\ 0 <= delay
       /\ (Jitter (cw_cfg (ws_cw s)) <= 0 ->
           delay = Z.max 0 (Latency (cw_cfg (ws_cw s))))
       /\ fst (add_latency p s) = Returned n err
       /\ ws_events (snd (add_latency p s))
          = ws_events s ++ sleep_events delay ++ [EvWrite p]
       /\ ws_clock (snd (add_latency p s)) = ws_clock s + delay
       /\ cw_w (ws_cw (snd (add_latency p s))) = w'
       /\ cw_cfg (ws_cw (snd (add_latency p s))) = cw_cfg (ws_cw s)
       /\ cw_bucket (ws_cw (snd (add_latency p s))) = cw_bucket (ws_cw s)
       /\ DroppedWrites (cw_stats (ws_cw (snd (add_latency p s))))
          = DroppedWrites (cw_stats (ws_cw s)).
Proof.
  unfold add_latency.
  set (cfg := cw_cfg (ws_cw s)).
  destruct (Z.gtb_spec (Jitter cfg) 0) as [Hj|Hj].
  - rewrite orb_true_r.
    destruct (Rand_Int63n (cw_rng (ws_cw s)) (int64 (2 * Jitter cfg)))
      as [[draw rng']|]; [|left; repeat split; lia].
    right.
    set (d := int64 (Latency cfg + int64 (draw - Jitter cfg))).
    set (delay := if d <? 0 then 0 else d).
    set (s1 := sleep_if_positive delay _).
    destruct (write_through_spec p s1)
      as (n & err & w' & HW & Hout & Hev & Hclk & Hw & Hcfg & Hb & Hd).
    exists n, err, w', delay.
    subst s1. rewrite sleep_if_positive_events in Hev.
    rewrite sleep_if_positive_clock in Hclk.
    rewrite sleep_if_positive_cw in HW, Hcfg, Hb, Hd.
    cbn [with_cw ws_cw ws_events ws_clock set_rng cw_w cw_cfg cw_bucket
         cw_stats] in *.
    assert (H0 : 0 <= delay)
      by (subst delay; destruct (Z.ltb_spec d 0); lia).
    repeat split; try assumption; try lia.
    now rewrite <- List.app_assoc in Hev.
  - rewrite orb_false_r.
    destruct (Z.gtb_spec (Latency cfg) 0) as [Hl|Hl]; right.
    + set (s1 := sleep_if_positive (Latency cfg) s).
      destruct (write_through_spec p s1)
        as (n & err & w' & HW & Hout & Hev & Hclk & Hw & Hcfg & Hb & Hd).
      exists n, err, w', (Latency cfg).
      subst s1. rewrite sleep_if_positive_events in Hev.
      rewrite sleep_if_positive_clock in Hclk.
      rewrite sleep_if_positive_cw in HW, Hcfg, Hb, Hd.
      repeat split; try assumption; try lia.
      now rewrite <- List.app_assoc in Hev.
    + destruct (write_through_spec p s)
        as (n & err & w' & HW & Hout & Hev & Hclk & Hw & Hcfg & Hb & Hd).
      exists n, err, w', 0.
      repeat split; try assumption; try lia.
Qed.

(** What [limit_bandwidth] returns and leaves. *)
Lemma limit_bandwidth_spec (p : bytes) (s : WriteState W) :
  let wait := bandwidth_wait (ws_cw s) (ws_clock s) p in
  (fst (limit_bandwidth p s) = Panicked
   /\ ws_events (snd (limit_bandwidth p s)) = ws_events s ++ sleep_events wait
   /\ 0 < Jitter (cw_cfg (ws_cw s)))
  \/ exists n err w' delay,
       Writer_Write (cw_w (ws_cw s)) p = ((n, err), w')
       /\ 0 <= delay
       /\ (Jitter (cw_cfg (ws_cw s)) <= 0 ->
           delay = Z.max 0 (Latency (cw_cfg (ws_cw s))))
       /\ fst (limit_bandwidth p s) = Returned n err
       /\ ws_events (snd (limit_bandwidth p s))
          = ws_events s ++ sleep_events wait ++ sleep_events delay
              ++ [EvWrite p]
       /\ ws_clock (snd (limit_bandwidth p s))
          = ws_clock s + Z.max 0 wait + delay
       /\ cw_w (ws_cw (snd (limit_bandwidth p s))) = w'
       /\ cw_cfg (ws_cw (snd (limit_bandwidth p s))) = cw_cfg (ws_cw s)
       /\ cw_bucket (ws_cw (snd (limit_bandwidth p s)))
          = bucket_charged (ws_cw s) (ws_clock s) p
       /\ DroppedWrites (cw_stats (ws_cw (snd (limit_bandwidth p s))))
          = DroppedWrites (cw_stats (ws_cw s)).
Proof.
  intros wait. subst wait.
  unfold limit_bandwidth, bandwidth_wait, bucket_charged.
  destruct (cw_bucket (ws_cw s)) as [b|] eqn:Eb; cbn [option_map].
  - destruct (Take b (ws_clock s) (len p)) as [wait b'] eqn:ET. cbn [fst snd].
    set (s1 := sleep_if_positive wait _).
    assert (Hcw : ws_cw s1 = set_bucket (ws_cw s) (Some b'))
      by (subst s1; now rewrite sleep_if_positive_cw).
    assert (Hev1 : ws_events s1 = ws_events s ++ sleep_events wait)
      by (subst s1; now rewrite sleep_if_positive_events).
    assert (Hclk1 : ws_clock s1 = ws_clock s + Z.max 0 wait)
      by (subst s1; now rewrite sleep_if_positive_clock).
    destruct (add_latency_spec p s1)
      as [(Hout & Hev & Hj)
         |(n & err & w' & delay & HW & H0 & Hdl & Hout & Hev & Hclk & Hw
           & Hcfg & Hb & Hd)];
      rewrite Hcw in *; cbn [set_bucket cw_w cw_cfg cw_bucket cw_stats] in *.
    + left. repeat split; try assumption. now rewrite Hev, Hev1.
    + right. exists n, err, w', delay.
      repeat split; try assumption.
      * now rewrite Hev, Hev1, <- List.app_assoc.
      * lia.
  - destruct (add_latency_spec p s)
      as [(Hout & Hev & Hj)
         |(n & err & w' & delay & HW & H0 & Hdl & Hout & Hev & Hclk & Hw
           & Hcfg & Hb & Hd)].
    + left. repeat split; try assumption.
      now rewrite Hev, List.app_nil_r.
    + right. exists n, err, w', delay.
      repeat split; try assumption; try lia.
      now rewrite Hb, Eb.
Qed.

(** A dropped write. *)
Lemma Write_dropped (c : ChaosWriter W) (now : Z) (p : bytes) :
  drops c ->
  fst (ChaosWriter_Write c now p) = Returned (len p) None
  /\ ws_events (snd (ChaosWriter_Write c now p)) = []
  /\ ws_clock (snd (ChaosWriter_Write c now p)) = now
  /\ cw_w (ws_cw (snd (ChaosWriter_Write c now p))) = cw_w c
  /\ cw_bucket (ws_cw (snd (ChaosWriter_Write c now p))) = cw_bucket c
  /\ DroppedWrites (cw_stats (ws_cw (snd (ChaosWriter_Write c now p))))
     = int64 (DroppedWrites (cw_stats c) + 1)
  /\ ActualBytes (cw_stats (ws_cw (snd (ChaosWriter_Write c now p))))
     = ActualBytes (cw_stats c).
Proof.
  intros [Hloss Hdraw]. unfold ChaosWriter_Write.
  cbn [set_stats cw_cfg cw_rng].
  apply Qltb_true_iff in Hloss. rewrite Hloss.
  destruct (Rand_Float64 (cw_rng c)) as [draw rng'] eqn:ER.
  cbn [fst set_rng set_stats cw_cfg cw_rng] in *.
  apply Qltb_true_iff in Hdraw. rewrite Hdraw.
  repeat split.
Qed.

(** A write that is not dropped. *)
Lemma Write_not_dropped (c : ChaosWriter W) (now : Z) (p : bytes) :
  ~ drops c ->
  let wait := bandwidth_wait c now p in
  (fst (ChaosWriter_Write c now p) = Panicked
   /\ ws_events (snd (ChaosWriter_Write c now p)) = sleep_events wait
   /\ 0 < Jitter (cw_cfg c))
  \/ exists n err w' delay,
       Writer_Write (cw_w c) p = ((n, err), w')
       /\ 0 <= delay
       /\ (Jitter (cw_cfg c) <= 0 -> delay = Z.max 0 (Latency (cw_cfg c)))
       /\ fst (ChaosWriter_Write c now p) = Returned n err
       /\ ws_events (snd (ChaosWriter_Write c now p))
          = sleep_events wait ++ sleep_events delay ++ [EvWrite p]
       /\ ws_clock (snd (ChaosWriter_Write c now p))
          = now + Z.max 0 wait + delay
       /\ cw_w (ws_cw (snd (ChaosWriter_Write c now p))) = w'
       /\ cw_cfg (ws_cw (snd (ChaosWriter_Write c now p))) = cw_cfg c
       /\ cw_bucket (ws_cw (snd (ChaosWriter_Write c now p)))
          = bucket_charged c now p
       /\ DroppedWrites (cw_stats (ws_cw (snd (ChaosWriter_Write c now p))))
          = DroppedWrites (cw_stats c).
Proof.
  intros Hnd wait. unfold ChaosWriter_Write.
  cbn [set_stats cw_cfg cw_rng].
  match goal with
  | |- context [if Qltb 0 _ then _ else limit_bandwidth p ?s0] =>
      set (s := s0)
  end.
  assert (Hgoal : forall s1 : WriteState W,
    ws_clock s1 = now -> ws_events s1 = [] ->
    cw_w (ws_cw s1) = cw_w c -> cw_cfg (ws_cw s1) = cw_cfg c ->
    cw_bucket (ws_cw s1) = cw_bucket c ->
    DroppedWrites (cw_stats (ws_cw s1)) = DroppedWrites (cw_stats c) ->
    (fst (limit_bandwidth p s1) = Panicked
     /\ ws_events (snd (limit_bandwidth p s1)) = sleep_events wait
     /\ 0 < Jitter (cw_cfg c))
    \/ exists n err w' delay,
         Writer_Write (cw_w c) p = ((n, err), w')
         /\ 0 <= delay
         /\ (Jitter (cw_cfg c) <= 0 -> delay = Z.max 0 (Latency (cw_cfg c)))
         /\ fst (limit_bandwidth p s1) = Returned n err
         /\ ws_events (snd (limit_bandwidth p s1))
            = sleep_events wait ++ sleep_events delay ++ [EvWrite p]
         /\ ws_clock (snd (limit_bandwidth p s1))
            = now + Z.max 0 wait + delay
         /\ cw_w (ws_cw (snd (limit_bandwidth p s1))) = w'
         /\ cw_cfg (ws_cw (snd (limit_bandwidth p s1))) = cw_cfg c
         /\ cw_bucket (ws_cw (snd (limit_bandwidth p s1)))
            = bucket_charged c now p
         /\ DroppedWrites (cw_stats (ws_cw (snd (limit_bandwidth p s1))))
            = DroppedWrites (cw_stats c)).
  { intros s1 Hclk Hev Hw Hcfg Hb Hd.
    assert (Hwait : bandwidth_wait (ws_cw s1) (ws_clock s1) p = wait)
      by (subst wait; unfold bandwidth_wait; now rewrite Hb, Hclk).
    assert (Hch : bucket_charged (ws_cw s1) (ws_clock s1) p
                  = bucket_charged c now p)
      by (unfold bucket_charged; now rewrite Hb, Hclk).
    destruct (limit_bandwidth_spec p s1)
      as [(Hout & Hev' & Hj)
         |(n & err & w' & delay & HW & H0 & Hdl & Hout & Hev' & Hclk' & Hw'
           & Hcfg' & Hb' & Hd')];
      rewrite Hwait, Hev in *; cbn [app] in *.
    - left. rewrite Hcfg in Hj. repeat split; assumption.
    - right. exists n, err, w', delay.
      rewrite Hw, Hcfg, Hclk in *. rewrite Hch in Hb'.
      repeat split; try assumption. congruence. }
  destruct (Qltb 0 (PacketLossPercent (cw_cfg c))) eqn:Eloss.
  - destruct (Rand_Float64 (cw_rng c)) as [draw rng'] eqn:ER.
    cbn [set_rng set_stats cw_cfg cw_rng].
    destruct (Qltb (draw * 100) (PacketLossPercent (cw_cfg c))) eqn:Edraw.
    + exfalso. apply Hnd. split.
      * now apply Qltb_true_iff.
      * rewrite ER. cbn [fst]. now apply Qltb_true_iff.
    + apply Hgoal; reflexivity.
  - apply Hgoal; reflexivity.
Qed.

(** A writer without effects passes the write through. *)
Lemma Write_no_effects (c : ChaosWriter W) (now : Z) (p : bytes) :
  no_effects c ->
  exists n err w',
    Writer_Write (cw_w c) p = ((n, err), w')
    /\ fst (ChaosWriter_Write c now p) = Returned n err
    /\ ws_events (snd (ChaosWriter_Write c now p)) = [EvWrite p]
    /\ ws_clock (snd (ChaosWriter_Write c now p)) = now
    /\ cw_w (ws_cw (snd (ChaosWriter_Write c now p))) = w'
    /\ no_effects (ws_cw (snd (ChaosWriter_Write c now p))).
Proof.
  intros (Hloss & Hlat & Hjit & Hbw & Hb).
  assert (Hnd : ~ drops c) by (intros [Hpos _]; lra).
  destruct (Write_not_dropped c now p Hnd)
    as [(_ & _ & Hj)
       |(n & err & w' & delay & HW & H0 & Hdl & Hout & Hev & Hclk & Hw
         & Hcfg & Hb' & _)]; [lia|].
  assert (Hd : delay = 0) by (rewrite Hdl, Hlat; lia).
  assert (Hwait : bandwidth_wait c now p = 0)
    by (unfold bandwidth_wait; now rewrite Hb).
  rewrite Hwait, Hd in *.
  exists n, err, w'. repeat split; try assumption.
  - rewrite Hclk. lia.
  - now rewrite Hcfg.
  - now rewrite Hcfg.
  - now rewrite Hcfg.
  - now rewrite Hcfg.
  - rewrite Hb'. unfold bucket_charged. now rewrite Hb.
Qed.

Lemma NewChaosWriterWithRng_no_effects (w : W) (cfg : ChaosConfig)
  (rng : Rand) (now : Z) :
  (PacketLossPercent cfg == 0)%Q -> Latency cfg = 0 -> Jitter cfg = 0 ->
  BandwidthBps cfg = 0 ->
  no_effects (NewChaosWriterWithRng w cfg rng now).
Proof.
  intros Hl Hlat Hj Hb. unfold no_effects, NewChaosWriterWithRng.
  cbn [cw_cfg cw_bucket]. rewrite Hb. repeat split; assumption.
Qed.

End ChaosWriterFacts.

(** C5: a [Write] whose loss draw selects a drop counts one more dropped
    write, returns [(len(p), nil)], does nothing to the underlying writer,
    does not sleep and leaves the bucket (if any) as it was; a [Write] that
    is not dropped and returns has asked the bucket for its tokens at the
    time of the call, then slept the bucket's wait (if positive), then
    slept the latency and jitter delay (if positive; without jitter, the
    latency), then written [p] to the underlying writer, in that order. *)
Theorem Write_drop_pace_delay_write :
  forall (W : Type) (HW : Writer W) (c : ChaosWriter W) (now : Z) (p : bytes),
    (drops c ->
     fst (ChaosWriter_Write c now p) = Returned (len p) None
     /\ ws_events (snd (ChaosWriter_Write c now p)) = []
     /\ cw_w (ws_cw (snd (ChaosWriter_Write c now p))) = cw_w c
     /\ cw_bucket (ws_cw (snd (ChaosWriter_Write c now p))) = cw_bucket c
     /\ DroppedWrites (cw_stats (ws_cw (snd (ChaosWriter_Write c now p))))
        = int64 (DroppedWrites (cw_stats c) + 1))
    /\ (~ drops c ->
        forall n err,
          fst (ChaosWriter_Write c now p) = Returned n err ->
          exists delay,
            0 <= delay
            /\ (Jitter (cw_cfg c) <= 0 ->
                delay = Z.max 0 (Latency (cw_cfg c)))
            /\ ws_events (snd (ChaosWriter_Write c now p))
               = sleep_events (bandwidth_wait c now p)
                   ++ sleep_events delay ++ [EvWrite p]
            /\ cw_bucket (ws_cw (snd (ChaosWriter_Write c now p)))
               = bucket_charged c now p
            /\ (n, err) = fst (Writer_Write (cw_w c) p)
            /\ cw_w (ws_cw (snd (ChaosWriter_Write c now p)))
               = snd (Writer_Write (cw_w c) p)
            /\ DroppedWrites
                 (cw_stats (ws_cw (snd (ChaosWriter_Write c now p))))
               = DroppedWrites (cw_stats c)).
Proof.
  intros W HW c now p. split.
  - intros Hd.
    destruct (Write_dropped c now p Hd) as (H1 & H2 & _ & H3 & H4 & H5 & _).
    repeat split; assumption.
  - intros Hnd n err Hret.
    destruct (Write_not_dropped c now p Hnd)
      as [(Hp & _)
         |(n' & err' & w' & delay & HWr & H0 & Hdl & Hout & Hev & _ & Hw & _
           & Hb & Hdw)].
    + rewrite Hp in Hret. discriminate.
    + rewrite Hout in Hret. injection Hret as -> ->.
      exists delay. rewrite HWr. cbn [fst snd].
      repeat split; assumption.
Qed.

(** With half of the writes lost, 100 bytes per second and 10 ms of
    latency: the first write (draw 0.1) is dropped; the second (draw 0.9)
    of 150 bytes waits half a second for the bucket, then 10 ms, then is
    written. *)
Lemma Write_drop_pace_delay_write_witness :
  (fst (ChaosWriter_Write lossy_writer 0 sample_chunk)
   = Returned (len sample_chunk) None
   /\ ws_events (snd (ChaosWriter_Write lossy_writer 0 sample_chunk)) = [])
  /\ ws_events (snd (ChaosWriter_Write paced_writer 0 sample_chunk))
     = [EvSleep (500 * Millisecond); EvSleep (10 * Millisecond);
        EvWrite sample_chunk].
Proof.
  split.
  - destruct (Write_drop_pace_delay_write _ _ lossy_writer 0 sample_chunk)
      as [Hd _].
    assert (Hdrops : drops lossy_writer).
    { split; vm_compute; reflexivity. }
    destruct (Hd Hdrops) as (H1 & H2 & _). split; assumption.
  - destruct (Write_drop_pace_delay_write _ _ paced_writer 0 sample_chunk)
      as [_ Hn].
    assert (Hnd : ~ drops paced_writer).
    { intros [_ Hlt]. vm_compute in Hlt. discriminate. }
    destruct (Hn Hnd (len sample_chunk) None)
      as (delay & _ & Hdl & Hev & _).
    + vm_compute. reflexivity.
    + rewrite Hev, Hdl by (vm_compute; discriminate).
      vm_compute. reflexivity.
Defined.

(** C10: a [ChaosWriter] made from an all-zero [ChaosConfig] has no bucket,
    and each of its [Write] calls, the first and every later one, performs
    exactly the underlying write of [p] and nothing else (no sleep),
    returns what the underlying writer returned, and leaves the clock where
    it was. *)
Theorem zero_config_writes_through :
  forall (W : Type) (HW : Writer W),
    (forall (w : W) (cfg : ChaosConfig) (rng : Rand) (now : Z),
        (PacketLossPercent cfg == 0)%Q -> Latency cfg = 0 ->
        Jitter cfg = 0 -> BandwidthBps cfg = 0 ->
        no_effects (NewChaosWriterWithRng w cfg rng now))
    /\ (forall (c : ChaosWriter W) (now : Z) (p : bytes),
          no_effects c ->
          fst (ChaosWriter_Write c now p)
          = Returned (fst (fst (Writer_Write (cw_w c) p)))
              (snd (fst (Writer_Write (cw_w c) p)))
          /\ ws_events (snd (ChaosWriter_Write c now p)) = [EvWrite p]
          /\ ws_clock (snd (ChaosWriter_Write c now p)) = now
          /\ cw_w (ws_cw (snd (ChaosWriter_Write c now p)))
             = snd (Writer_Write (cw_w c) p)
          /\ no_effects (ws_cw (snd (ChaosWriter_Write c now p)))).
Proof.
  intros W HW. split.
  - intros w cfg rng now. apply NewChaosWriterWithRng_no_effects.
  - intros c now p Hne.
    destruct (Write_no_effects c now p Hne)
      as (n & err & w' & HWr & Hout & Hev & Hclk & Hw & Hne').
    rewrite HWr. cbn [fst snd].
    exact (conj Hout (conj Hev (conj Hclk (conj Hw Hne')))).
Qed.

Lemma zero_config_writes_through_witness :
  no_effects plain_writer
  /\ fst (ChaosWriter_Write plain_writer 0 sample_chunk)
     = Returned (len sample_chunk) None
  /\ ws_events (snd (ChaosWriter_Write plain_writer 0 sample_chunk))
     = [EvWrite sample_chunk]
  /\ buf (cw_w (ws_cw (snd (ChaosWriter_Write plain_writer 0 sample_chunk))))
     = sample_chunk.
Proof.
  destruct (zero_config_writes_through limitedBuffer _) as [Hnew Hwrite].
  assert (Hne : no_effects plain_writer).
  { apply Hnew; reflexivity. }
  destruct (Hwrite plain_writer 0 sample_chunk Hne)
    as (Hout & Hev & _ & Hw & _).
  split; [exact Hne|]. split; [exact Hout|]. split; [exact Hev|].
  rewrite Hw. reflexivity.
Defined.

(** ** Peer routes *)

Section EnsurePeerRouteFacts.

Variable PublicKey : Type.
Variable DecodePublicKey : string -> option PublicKey.

#[local] Abbreviation Node := (MeshNode PublicKey).

Implicit Types (m : Node) (peer : Peer) (listPeers : Z -> option (list Peer)).

Lemma sleeps_app (es1 es2 : list (Effect PublicKey)) :
  sleeps (es1 ++ es2) = sleeps es1 ++ sleeps es2.
Proof. apply List.flat_map_app. Qed.

Lemma attempts_app (es1 es2 : list (Effect PublicKey)) :
  attempts (es1 ++ es2) = attempts es1 ++ attempts es2.
Proof. apply List.flat_map_app. Qed.

Lemma found_effects_quiet peer m :
  sleeps (found_effects DecodePublicKey peer m) = []
  /\ attempts (found_effects DecodePublicKey peer m) = []
  /\ cache_lookups (found_effects DecodePublicKey peer m) = [].
Proof.
  unfold found_effects.
  destruct (key_to_install DecodePublicKey peer m); repeat split.
Qed.

Lemma fallback_effects_quiet (peerName : string) m :
  sleeps (fallback_effects peerName m) = []
  /\ attempts (fallback_effects peerName m) = []
  /\ cache_lookups (fallback_effects peerName m) = [peerName].
Proof.
  unfold fallback_effects.
  destruct (peerCache m !! peerName); repeat split.
Qed.

(** One turn of the loop. *)
Lemma retry_fail (fuel : nat) listPeers (peerName : string)
  (attempt backoff : Z) m :
  listPeers attempt = None -> (attempt <? maxRetries) = true ->
  retry_loop DecodePublicKey (S fuel) listPeers peerName attempt backoff m
  = retry_loop DecodePublicKey fuel listPeers peerName (attempt + 1)
      (int64 (backoff * 2))
      (emit (Sleep backoff) (emit (CallListPeers attempt) m)).
Proof. intros E Hlt. cbn [retry_loop]. now rewrite E, Hlt. Qed.

Lemma retry_fail_last (fuel : nat) listPeers (peerName : string)
  (attempt backoff : Z) m :
  listPeers attempt = None -> (attempt <? maxRetries) = false ->
  retry_loop DecodePublicKey (S fuel) listPeers peerName attempt backoff m
  = retry_loop DecodePublicKey fuel listPeers peerName (attempt + 1) backoff
      (emit (CallListPeers attempt) m).
Proof. intros E Hlt. cbn [retry_loop]. now rewrite E, Hlt. Qed.

Lemma retry_answer (fuel : nat) listPeers (peerName : string)
  (attempt backoff : Z) m (peers : list Peer) :
  listPeers attempt = Some peers ->
  retry_loop DecodePublicKey (S fuel) listPeers peerName attempt backoff m
  = match find (fun peer => String.eqb (Peer_Name peer) peerName) peers with
    | Some peer =>
        inl (route_found DecodePublicKey peer (emit (CallListPeers attempt) m))
    | None => inr (emit (CallListPeers attempt) m)
    end.
Proof. intros E. cbn [retry_loop]. now rewrite E. Qed.

Lemma route_found_spec peer m :
  fst (route_found DecodePublicKey peer m) = Peer_MeshIP peer
  /\ effects (snd (route_found DecodePublicKey peer m))
     = effects m ++ found_effects DecodePublicKey peer m
  /\ peerCache (snd (route_found DecodePublicKey peer m))
     = <[Peer_Name peer := Peer_MeshIP peer]> (peerCache m)
  /\ router (snd (route_found DecodePublicKey peer m))
     = <[Peer_MeshIP peer := Peer_Name peer]> (router m)
  /\ SSHTransport (snd (route_found DecodePublicKey peer m))
     = match key_to_install DecodePublicKey peer m with
       | Some key => option_map (fun keys => keys ++ [key]) (SSHTransport m)
       | None => SSHTransport m
       end.
Proof.
  unfold route_found, found_effects, key_to_install.
  cbn [node_CachePeerMeshIP router_AddRoute emit SSHTransport].
  destruct (negb (String.eqb (Peer_PublicKey peer) "")
            && bool_decide (is_Some (SSHTransport m)));
    [destruct (DecodePublicKey (Peer_PublicKey peer))|];
    cbn [fst snd transport_AddAuthorizedKey node_CachePeerMeshIP
         router_AddRoute emit effects peerCache router SSHTransport];
    rewrite <- ?List.app_assoc; repeat split.
Qed.

Lemma route_from_cache_spec (peerName : string) m :
  fst (route_from_cache peerName m)
  = default ""%string (peerCache m !! peerName)
  /\ effects (snd (route_from_cache peerName m))
     = effects m ++ fallback_effects peerName m
  /\ peerCache (snd (route_from_cache peerName m)) = peerCache m
  /\ SSHTransport (snd (route_from_cache peerName m)) = SSHTransport m.
Proof.
  unfold route_from_cache, fallback_effects, node_GetCachedPeerMeshIP.
  destruct (peerCache m !! peerName);
    cbn [fst snd router_AddRoute emit effects peerCache SSHTransport default];
    rewrite <- ?List.app_assoc; repeat split.
Qed.

(** The end of a run whose [k]-th attempt was answered, or whose five
    attempts all failed: [m'] is the node on leaving the loop. *)
Lemma found_after_intro (k : nat) peer m m' :
  effects m' = loop_trace k 1 backoff_schedule ->
  peerCache m' = peerCache m -> router m' = router m ->
  SSHTransport m' = SSHTransport m ->
  found_after DecodePublicKey k peer m (route_found DecodePublicKey peer m').
Proof.
  intros He Hc Hr Ht.
  destruct (route_found_spec peer m') as (H1 & H2 & H3 & H4 & H5).
  unfold found_after, found_effects, key_to_install in *.
  rewrite Ht, He, Hc, Hr in *. repeat split; assumption.
Qed.

Lemma fell_back_after_intro (k : nat) (peerName : string) m m' :
  effects m' = loop_trace k 1 backoff_schedule ->
  peerCache m' = peerCache m -> SSHTransport m' = SSHTransport m ->
  fell_back_after k peerName m (route_from_cache peerName m').
Proof.
  intros He Hc Ht.
  destruct (route_from_cache_spec peerName m') as (H1 & H2 & H3 & H4).
  unfold fell_back_after, fallback_effects in *.
  rewrite He, Hc, Ht in *. repeat split; assumption.
Qed.

Lemma found_after_trace (k : nat) peer m (r : string * Node) :
  found_after DecodePublicKey k peer m r ->
  sleeps (effects (snd r)) = sleeps (loop_trace (PublicKey := PublicKey) k 1 backoff_schedule)
  /\ attempts (effects (snd r)) = attempts (loop_trace (PublicKey := PublicKey) k 1 backoff_schedule)
  /\ cache_lookups (effects (snd r))
     = cache_lookups (loop_trace (PublicKey := PublicKey) k 1 backoff_schedule).
Proof.
  intros (_ & He & _). rewrite He.
  destruct (found_effects_quiet peer m) as (Hs & Ha & Hc).
  unfold sleeps, attempts, cache_lookups in *.
  rewrite !List.flat_map_app, Hs, Ha, Hc, !List.app_nil_r. repeat split.
Qed.

Lemma fell_back_after_trace (k : nat) (peerName : string) m
  (r : string * Node) :
  fell_back_after k peerName m r ->
  sleeps (effects (snd r)) = sleeps (loop_trace (PublicKey := PublicKey) k 1 backoff_schedule)
  /\ attempts (effects (snd r)) = attempts (loop_trace (PublicKey := PublicKey) k 1 backoff_schedule)
  /\ cache_lookups (effects (snd r))
     = cache_lookups (loop_trace (PublicKey := PublicKey) k 1 backoff_schedule) ++ [peerName].
Proof.
  intros (_ & He & _). rewrite He.
  destruct (fallback_effects_quiet peerName m) as (Hs & Ha & Hc).
  unfold sleeps, attempts, cache_lookups in *.
  rewrite !List.flat_map_app, Hs, Ha, Hc, !List.app_nil_r. repeat split.
Qed.

Lemma ensurePeerRoute_cases (peerName : string) listPeers m :
  client m = Some listPeers -> effects m = [] ->
  exists k : nat,
    (1 <= k <= 5)%nat
    /\ (forall a : nat, (1 <= a < k)%nat -> listPeers (Z.of_nat a) = None)
    /\ run_outcome DecodePublicKey k peerName listPeers m
         (ensurePeerRoute DecodePublicKey peerName m).
Proof.
  intros Hclient Heff. unfold ensurePeerRoute. rewrite Hclient.
  change (Z.to_nat maxRetries) with 5%nat.
  assert (Hnone : forall k : nat,
    (forall a : nat, (1 <= a <= k)%nat -> listPeers (Z.of_nat a) = None) ->
    forall a : nat, (1 <= a < S k)%nat -> listPeers (Z.of_nat a) = None).
  { intros k Hk a Ha. apply Hk. lia. }
  assert (Hanswer : forall (k : nat) (peers : list Peer) (m' : Node),
    listPeers (Z.of_nat k) = Some peers ->
    effects (emit (CallListPeers (Z.of_nat k)) m')
    = loop_trace k 1 backoff_schedule ->
    peerCache m' = peerCache m -> router m' = router m ->
    SSHTransport m' = SSHTransport m ->
    run_outcome DecodePublicKey k peerName listPeers m
      match
        match find (fun peer => String.eqb (Peer_Name peer) peerName) peers
        with
        | Some peer =>
            inl (route_found DecodePublicKey peer
                   (emit (CallListPeers (Z.of_nat k)) m'))
        | None => inr (emit (CallListPeers (Z.of_nat k)) m')
        end
      with
      | inl found => found
      | inr m'' => route_from_cache peerName m''
      end).
  { intros k peers m' E He Hc Hr Ht. unfold run_outcome. rewrite E.
    destruct (find _ peers) as [peer|].
    - now apply found_after_intro.
    - now apply fell_back_after_intro. }
  destruct (listPeers 1) as [peers1|] eqn:E1.
  { exists 1%nat. split; [lia|]. split; [intros a Ha; lia|].
    rewrite (retry_answer _ _ _ _ _ _ peers1 E1).
    apply (Hanswer 1%nat peers1 m E1); try reflexivity.
    cbn [emit effects]. now rewrite Heff. }
  rewrite (retry_fail _ _ _ _ _ _ E1) by reflexivity.
  destruct (listPeers 2) as [peers2|] eqn:E2.
  { exists 2%nat. split; [lia|].
    split; [intros a Ha; assert (a = 1%nat) as -> by lia; exact E1|].
    rewrite (retry_answer _ _ _ _ _ _ peers2 E2).
    apply (Hanswer 2%nat peers2 _ E2); try reflexivity.
    cbn [emit effects]. now rewrite Heff. }
  rewrite (retry_fail _ _ _ _ _ _ E2) by reflexivity.
  destruct (listPeers 3) as [peers3|] eqn:E3.
  { exists 3%nat. split; [lia|].
    split; [intros a Ha;
            assert (a = 1%nat \/ a = 2%nat) as [-> | ->] by lia; assumption|].
    rewrite (retry_answer _ _ _ _ _ _ peers3 E3).
    apply (Hanswer 3%nat peers3 _ E3); try reflexivity.
    cbn [emit effects]. now rewrite Heff. }
  rewrite (retry_fail _ _ _ _ _ _ E3) by reflexivity.
  destruct (listPeers 4) as [peers4|] eqn:E4.
  { exists 4%nat. split; [lia|].
    split; [intros a Ha;
            assert (a = 1%nat \/ a = 2%nat \/ a = 3%nat)
              as [-> | [-> | ->]] by lia; assumption|].
    rewrite (retry_answer _ _ _ _ _ _ peers4 E4).
    apply (Hanswer 4%nat peers4 _ E4); try reflexivity.
    cbn [emit effects]. now rewrite Heff. }
  rewrite (retry_fail _ _ _ _ _ _ E4) by reflexivity.
  exists 5%nat. split; [lia|].
  split; [intros a Ha;
          assert (a = 1%nat \/ a = 2%nat \/ a = 3%nat \/ a = 4%nat)
            as [-> | [-> | [-> | ->]]] by lia; assumption|].
  destruct (listPeers 5) as [peers5|] eqn:E5.
  { rewrite (retry_answer _ _ _ _ _ _ peers5 E5).
    apply (Hanswer 5%nat peers5 _ E5); try reflexivity.
    cbn [emit effects]. now rewrite Heff. }
  rewrite (retry_fail_last _ _ _ _ _ _ E5) by reflexivity.
  cbn [retry_loop]. unfold run_outcome.
  change (Z.of_nat 5) with 5. rewrite E5. split; [reflexivity|].
  apply fell_back_after_intro; try reflexivity.
  cbn [emit effects]. now rewrite Heff.
Qed.

Lemma loop_trace_projections (k : nat) :
  (1 <= k <= 5)%nat ->
  attempts (loop_trace (PublicKey := PublicKey) k 1 backoff_schedule)
  = map Z.of_nat (seq 1 k)
  /\ sleeps (loop_trace (PublicKey := PublicKey) k 1 backoff_schedule)
     = firstn (k - 1) backoff_schedule
  /\ cache_lookups (loop_trace (PublicKey := PublicKey) k 1 backoff_schedule)
     = [].
Proof.
  intros Hk.
  assert (Hc : k = 1%nat \/ k = 2%nat \/ k = 3%nat \/ k = 4%nat \/ k = 5%nat)
    by lia.
  destruct Hc as [-> | [-> | [-> | [-> | ->]]]]; repeat split.
Qed.

End EnsurePeerRouteFacts.




(* ===================================================================== *)
(** * Part III.  Further properties of the code                           *)
(* ===================================================================== *)

(** Splits the conjunctions that are written out in the goal. *)
Ltac split_ands :=
  repeat match goal with |- _ /\ _ => split end.

(** ** Codec: what a successful read says about the stream *)

Section CodecInversion.

Lemma byte_of_Z_mod (z : Z) : byte_of_Z (z mod 256) = byte_of_Z z.
Proof.
  unfold byte_of_Z, uint8, wrap. change (2 ^ 8) with 256.
  now rewrite Z.mod_mod by lia.
Qed.

Lemma be_encode_snoc (k : nat) (v : Z) :
  be_encode (S k) v = be_encode k (Z.shiftr v 8) ++ [byte_of_Z v].
Proof.
  induction k as [|k IH].
  - cbn [be_encode app]. now rewrite Z.shiftr_0_r.
  - change (be_encode (S (S k)) v)
      with (byte_of_Z (Z.shiftr v (8 * Z.of_nat (S k))) :: be_encode (S k) v).
    rewrite IH.
    change (be_encode (S k) (Z.shiftr v 8))
      with (byte_of_Z (Z.shiftr (Z.shiftr v 8) (8 * Z.of_nat k))
              :: be_encode k (Z.shiftr v 8)).
    rewrite Z.shiftr_shiftr by lia.
    replace (8 + 8 * Z.of_nat k) with (8 * Z.of_nat (S k)) by lia.
    reflexivity.
Qed.

Lemma be_decode_snoc (bs : bytes) (b : byte) :
  be_decode (bs ++ [b]) = be_decode bs * 256 + byte_to_Z b.
Proof. unfold be_decode. now rewrite List.fold_left_app. Qed.

Lemma be_encode_decode (bs : bytes) :
  be_encode (List.length bs) (be_decode bs) = bs.
Proof.
  induction bs as [|b bs IH] using List.rev_ind; [reflexivity|].
  rewrite List.length_app, Nat.add_1_r, be_encode_snoc, be_decode_snoc.
  pose proof (byte_to_Z_range b) as Hb.
  set (d := be_decode bs) in *. set (x := byte_to_Z b) in *.
  assert (Hq : Z.shiftr (d * 256 + x) 8 = d).
  { rewrite Z.shiftr_div_pow2 by lia. change (2 ^ 8) with 256.
    rewrite (Z.add_comm (d * 256) x), Z.div_add by lia.
    rewrite (Z.div_small x) by lia. lia. }
  assert (Hm : byte_of_Z (d * 256 + x) = b).
  { rewrite <- byte_of_Z_mod, (Z.add_comm (d * 256) x), Z.mod_add by lia.
    rewrite byte_of_Z_mod. apply byte_of_to_Z. }
  now rewrite Hq, Hm, IH.
Qed.

Lemma ReadFull_inv (n : nat) (r data rest : bytes) :
  ReadFull n r = Ok (data, rest) ->
  r = data ++ rest /\ List.length data = n.
Proof.
  intros E.
  destruct (Nat.lt_ge_cases (List.length r) n) as [Hlt|Hge].
  - rewrite ReadFull_short in E by exact Hlt. discriminate.
  - rewrite ReadFull_enough in E by exact Hge.
    assert (Hd : data = firstn n r) by congruence.
    assert (Hr : rest = skipn n r) by congruence.
    subst data rest. split.
    + symmetry. apply List.firstn_skipn.
    + rewrite List.length_firstn. lia.
Qed.

Lemma ReadFull_error_iff (n : nat) (r : bytes) :
  (exists e, ReadFull n r = Err e) <-> (List.length r < n)%nat.
Proof.
  split.
  - intros [e He]. destruct (Nat.lt_ge_cases (List.length r) n) as [|Hge];
      [assumption|].
    rewrite ReadFull_enough in He by lia. discriminate.
  - intros Hlt. rewrite ReadFull_short by lia. eexists; reflexivity.
Qed.

Lemma read_uint_inv (k : nat) (r : bytes) (v : Z) (rest : bytes) :
  read_uint k r = Ok (v, rest) ->
  r = be_encode k v ++ rest /\ 0 <= v < 256 ^ Z.of_nat k.
Proof.
  unfold read_uint, bind, ret.
  destruct (ReadFull k r) as [[bs rest']|e] eqn:E; [|discriminate].
  intros Hv. injection Hv as <- <-.
  apply ReadFull_inv in E. destruct E as [-> Hl].
  split.
  - now rewrite <- Hl at 1; rewrite be_encode_decode.
  - pose proof (be_decode_range bs) as Hr. unfold len in Hr.
    now rewrite Hl in Hr.
Qed.

Lemma read_uint_error_iff (k : nat) (r : bytes) :
  (exists e, read_uint k r = Err e) <-> (List.length r < k)%nat.
Proof.
  rewrite <- ReadFull_error_iff. unfold read_uint, bind, ret.
  destruct (ReadFull k r) as [[bs rest]|e]; split; intros [e' He];
    try discriminate; eexists; reflexivity.
Qed.

Lemma int64_range (u : Z) : is_int64 (int64 u).
Proof.
  unfold is_int64, int64, swrap, wrap. change (2 ^ (64 - 1)) with (2 ^ 63).
  pose proof (Z.mod_pos_bound u (2 ^ 64) ltac:(lia)).
  destruct (Z.ltb_spec (u mod 2 ^ 64) (2 ^ 63)); lia.
Qed.

Lemma uint64_int64 (u : Z) : 0 <= u < 2 ^ 64 -> uint64 (int64 u) = u.
Proof.
  intros Hu. unfold uint64, int64, swrap, wrap.
  change (2 ^ (64 - 1)) with (2 ^ 63).
  rewrite (Z.mod_small u) by lia.
  destruct (Z.ltb_spec u (2 ^ 63)).
  - apply Z.mod_small. lia.
  - symmetry. apply Z.mod_unique with (q := -1); lia.
Qed.

Lemma read_int64_inv (r : bytes) (v : Z) (rest : bytes) :
  read_int64 r = Ok (v, rest) ->
  r = write_int64 v ++ rest /\ is_int64 v.
Proof.
  unfold read_int64, bind, ret.
  destruct (read_uint 8 r) as [[u rest']|e] eqn:E; [|discriminate].
  intros Hv. injection Hv as <- <-.
  apply read_uint_inv in E. destruct E as [-> Hu].
  split; [|apply int64_range].
  unfold write_int64. now rewrite uint64_int64 by exact Hu.
Qed.

Lemma read_uint32_inv (r : bytes) (v : Z) (rest : bytes) :
  read_uint32 r = Ok (v, rest) ->
  r = write_uint32 v ++ rest /\ is_uint32 v.
Proof. apply read_uint_inv. Qed.

Lemma read_byte_inv (r : bytes) (b : byte) (rest : bytes) :
  read_byte r = Ok (b, rest) -> r = b :: rest.
Proof.
  destruct r as [|b' r]; [discriminate|].
  cbn. intros E. now injection E as <- <-.
Qed.

Lemma readString_inv (r : bytes) (s : string) (rest : bytes) :
  readString r = Ok (s, rest) ->
  r = writeString s ++ rest /\ fits_string s.
Proof.
  unfold readString, bind.
  destruct (read_uint16 r) as [[L r1]|e] eqn:E; [|discriminate].
  apply read_uint_inv in E. destruct E as [-> HL].
  change (256 ^ Z.of_nat 2) with (2 ^ 16) in HL.
  destruct (Z.eqb_spec L 0) as [->|Hnz].
  - unfold ret. intros E. injection E as <- <-.
    split; [reflexivity | unfold fits_string, len; simpl; lia].
  - destruct (ReadFull (Z.to_nat L) r1) as [[data rest']|e] eqn:ER;
      [|discriminate].
    unfold ret. intros E. injection E as <- <-.
    apply ReadFull_inv in ER. destruct ER as [-> Hl].
    assert (Hb : bytes_of_string (string_of_bytes data) = data)
      by apply list_byte_of_string_of_list_byte.
    assert (Hlen : len data = L) by (unfold len; lia).
    unfold writeString, fits_string. rewrite Hb, Hlen.
    unfold uint16, wrap. rewrite Z.mod_small by lia.
    unfold write_uint16. rewrite <- List.app_assoc. split; [reflexivity|lia].
Qed.

End CodecInversion.

(** X1: when [ReadMessage] succeeds the stream began with exactly one
    frame: the type byte, the four-byte length of the payload (below 2^32),
    the payload, and then what is left unread. *)
Theorem ReadMessage_reads_one_frame :
  forall (r : bytes) (t : MessageType) (payload rest : bytes),
    ReadMessage r = Ok ((t, payload), rest) ->
    r = write_byte t ++ write_uint32 (len payload) ++ payload ++ rest
    /\ len payload < 2 ^ 32
    /\ len r = 5 + len payload + len rest.
Proof.
  intros r t payload rest. unfold ReadMessage, bind, ret.
  destruct (read_byte r) as [[t' r1]|e] eqn:E1; [|discriminate].
  destruct (read_uint32 r1) as [[L r2]|e] eqn:E2; [|discriminate].
  destruct (ReadFull (Z.to_nat L) r2) as [[data r3]|e] eqn:E3; [|discriminate].
  intros E. injection E as <- <- <-.
  apply read_byte_inv in E1. apply read_uint32_inv in E2.
  apply ReadFull_inv in E3.
  destruct E2 as [-> HL]. destruct E3 as [-> Hl]. subst r.
  unfold is_uint32 in HL.
  assert (Hlen : len data = L) by (unfold len; lia).
  rewrite Hlen. split; [reflexivity|]. split; [lia|].
  unfold len, write_uint32 in *. cbn [List.length].
  rewrite !List.length_app, be_encode_length. lia.
Qed.

Lemma ReadMessage_reads_one_frame_witness :
  WriteMessage MsgPing sample_ping
  = write_byte MsgPing ++ write_uint32 (len (Encode sample_ping))
      ++ Encode sample_ping ++ []
  /\ len (Encode sample_ping) < 2 ^ 32.
Proof.
  destruct (ReadMessage_reads_one_frame (WriteMessage MsgPing sample_ping)
              MsgPing (Encode sample_ping) []) as (H1 & H2 & _).
  - vm_compute. reflexivity.
  - split; assumption.
Defined.

(** X2: a successful [Decode] of a Start, Data, Ping, Pong, Complete or
    Error message invents and loses nothing: the message has fields within
    their Go types and prefixes, and its own encoding followed by the
    unread rest is the stream that was decoded. *)
Theorem Decode_then_Encode :
  (forall (r : bytes) (m : StartMessage) (rest : bytes),
      Decode r = Ok (m, rest) ->
      StartMessage_typed m /\ fits_string (Start_Direction m)
      /\ r = Encode m ++ rest)
  /\ (forall (r : bytes) (m : DataMessage) (rest : bytes),
        Decode r = Ok (m, rest) ->
        DataMessage_typed m /\ len (Data_Data m) < 2 ^ 32
        /\ r = Encode m ++ rest)
  /\ (forall (r : bytes) (m : PingMessage) (rest : bytes),
        Decode r = Ok (m, rest) ->
        PingMessage_typed m /\ r = Encode m ++ rest)
  /\ (forall (r : bytes) (m : PongMessage) (rest : bytes),
        Decode r = Ok (m, rest) ->
        PongMessage_typed m /\ r = Encode m ++ rest)
  /\ (forall (r : bytes) (m : CompleteMessage) (rest : bytes),
        Decode r = Ok (m, rest) ->
        CompleteMessage_typed m /\ r = Encode m ++ rest)
  /\ (forall (r : bytes) (m : ErrorMessage) (rest : bytes),
        Decode r = Ok (m, rest) ->
        fits_string (Error_Error m) /\ r = Encode m ++ rest).
Proof.
  repeat apply conj; intros r m rest;
    cbn [Decode Encode StartMessage_Message DataMessage_Message
         PingMessage_Message PongMessage_Message CompleteMessage_Message
         ErrorMessage_Message]; unfold bind, ret.
  - destruct (read_int64 r) as [[size r1]|e] eqn:E1; [|discriminate].
    destruct (readString r1) as [[dir r2]|e] eqn:E2; [|discriminate].
    intros E. injection E as <- <-.
    apply read_int64_inv in E1. apply readString_inv in E2.
    destruct E1 as [-> H1]. destruct E2 as [-> H2].
    cbn [Start_Size Start_Direction]. unfold StartMessage_typed.
    cbn [Start_Size]. rewrite <- List.app_assoc. split_ands; try assumption; reflexivity.
  - destruct (read_uint32 r) as [[seq r1]|e] eqn:E1; [|discriminate].
    destruct (read_uint32 r1) as [[L r2]|e] eqn:E2; [|discriminate].
    destruct (ReadFull (Z.to_nat L) r2) as [[data r3]|e] eqn:E3;
      [|discriminate].
    intros E. injection E as <- <-.
    apply read_uint32_inv in E1. apply read_uint32_inv in E2.
    apply ReadFull_inv in E3.
    destruct E1 as [-> H1]. destruct E2 as [-> H2]. destruct E3 as [-> H3].
    cbn [Data_SeqNum Data_Data]. unfold DataMessage_typed, is_uint32 in *.
    cbn [Data_SeqNum].
    assert (Hlen : len data = L) by (unfold len; lia).
    rewrite Hlen. unfold uint32, wrap. rewrite Z.mod_small by lia.
    rewrite <- !List.app_assoc. split_ands; try lia; reflexivity.
  - destruct (read_uint32 r) as [[seq r1]|e] eqn:E1; [|discriminate].
    destruct (read_int64 r1) as [[ts r2]|e] eqn:E2; [|discriminate].
    intros E. injection E as <- <-.
    apply read_uint32_inv in E1. apply read_int64_inv in E2.
    destruct E1 as [-> H1]. destruct E2 as [-> H2].
    unfold PingMessage_typed. cbn [Ping_SeqNum Ping_Timestamp].
    rewrite <- List.app_assoc. split_ands; try assumption; reflexivity.
  - destruct (read_uint32 r) as [[seq r1]|e] eqn:E1; [|discriminate].
    destruct (read_int64 r1) as [[ts r2]|e] eqn:E2; [|discriminate].
    intros E. injection E as <- <-.
    apply read_uint32_inv in E1. apply read_int64_inv in E2.
    destruct E1 as [-> H1]. destruct E2 as [-> H2].
    unfold PongMessage_typed. cbn [Pong_SeqNum Pong_PingTimestamp].
    rewrite <- List.app_assoc. split_ands; try assumption; reflexivity.
  - destruct (read_int64 r) as [[n r1]|e] eqn:E1; [|discriminate].
    destruct (read_int64 r1) as [[d r2]|e] eqn:E2; [|discriminate].
    intros E. injection E as <- <-.
    apply read_int64_inv in E1. apply read_int64_inv in E2.
    destruct E1 as [-> H1]. destruct E2 as [-> H2].
    unfold CompleteMessage_typed.
    cbn [Complete_BytesTransferred Complete_DurationNs].
    rewrite <- List.app_assoc. split_ands; try assumption; reflexivity.
  - destruct (readString r) as [[err r1]|e] eqn:E1; [|discriminate].
    intros E. injection E as <- <-.
    apply readString_inv in E1. destruct E1 as [-> H1].
    cbn [Error_Error]. split_ands; try assumption; reflexivity.
Qed.

Lemma Decode_then_Encode_witness :
  PingMessage_typed sample_ping
  /\ Encode sample_ping ++ [ "255"%byte ]
     = Encode sample_ping ++ [ "255"%byte ].
Proof.
  destruct Decode_then_Encode as (_ & _ & HP & _).
  apply (HP (Encode sample_ping ++ [ "255"%byte ]) sample_ping
           [ "255"%byte ]).
  vm_compute. reflexivity.
Defined.

Section FixedSize.

Lemma read_uint_exactly (k : nat) : reads_exactly (read_uint k) k.
Proof.
  intros r. split; [apply read_uint_error_iff|].
  intros v rest E. apply read_uint_inv in E. destruct E as [-> _].
  now rewrite List.length_app, be_encode_length.
Qed.

Lemma read_int64_exactly : reads_exactly read_int64 8.
Proof.
  intros r. destruct (read_uint_exactly 8 r) as [He Ho].
  unfold read_int64, bind, ret.
  destruct (read_uint 8 r) as [[u r1]|e] eqn:E.
  - split.
    + split; [intros [e He']; discriminate|].
      intros Hlt. apply He in Hlt. destruct Hlt as [e He']. discriminate.
    + intros a rest Ea. injection Ea as <- <-. now apply (Ho u).
  - split.
    + split; [intros _; apply He; eexists; reflexivity|].
      intros _. eexists; reflexivity.
    + intros a rest Ea. discriminate.
Qed.

Lemma reads_exactly_pair {A B C} (rd1 : Reader A) (rd2 : Reader B)
  (mk : A -> B -> C) (k1 k2 : nat) :
  reads_exactly rd1 k1 -> reads_exactly rd2 k2 ->
  reads_exactly (bind rd1 (fun a => bind rd2 (fun b => ret (mk a b))))
    (k1 + k2).
Proof.
  intros H1 H2 r. destruct (H1 r) as [He1 Ho1]. unfold bind, ret.
  destruct (rd1 r) as [[a r1]|e] eqn:E1.
  - specialize (Ho1 a r1 eq_refl). destruct (H2 r1) as [He2 Ho2].
    destruct (rd2 r1) as [[b r2]|e] eqn:E2.
    + specialize (Ho2 b r2 eq_refl). split.
      * split; [intros [e He]; discriminate | lia].
      * intros c rest Ec. injection Ec as <- <-. lia.
    + assert (Hs : (List.length r1 < k2)%nat)
        by (apply He2; eexists; reflexivity).
      split; [split; [lia | eexists; reflexivity]|].
      intros c rest Ec. discriminate.
  - assert (Hs : (List.length r < k1)%nat)
      by (apply He1; eexists; reflexivity).
    split; [split; [lia | eexists; reflexivity]|].
    intros c rest Ec. discriminate.
Qed.

End FixedSize.

(** X3: the fixed-size messages fail to decode exactly on a short stream:
    Ping and Pong take 12 bytes, Complete takes 16; with that many bytes
    there, any bytes decode, and exactly that many are consumed. *)
Theorem fixed_size_Decode_fails_iff_short :
  reads_exactly (Decode (M := PingMessage)) 12
  /\ reads_exactly (Decode (M := PongMessage)) 12
  /\ reads_exactly (Decode (M := CompleteMessage)) 16.
Proof.
  repeat apply conj.
  - exact (reads_exactly_pair read_uint32 read_int64
             (fun a b => {| Ping_SeqNum := a; Ping_Timestamp := b |})
             4 8 (read_uint_exactly 4) read_int64_exactly).
  - exact (reads_exactly_pair read_uint32 read_int64
             (fun a b => {| Pong_SeqNum := a; Pong_PingTimestamp := b |})
             4 8 (read_uint_exactly 4) read_int64_exactly).
  - exact (reads_exactly_pair read_int64 read_int64
             (fun a b => {| Complete_BytesTransferred := a;
                            Complete_DurationNs := b |})
             8 8 read_int64_exactly read_int64_exactly).
Qed.

(** X4: [AckMessage.Decode] reads every non-zero flag byte as accepted, so
    decoding and encoding again normalises the flag to 0 or 1 and keeps the
    rest of the stream as it was. *)
Theorem Ack_Decode_normalises_flag :
  forall (flag : byte) (r : bytes) (m : AckMessage) (rest : bytes),
    Decode (flag :: r) = Ok (m, rest) ->
    Ack_Accepted m = negb (Byte.eqb flag "000"%byte)
    /\ fits_string (Ack_Error m)
    /\ Encode m ++ rest
       = (if Byte.eqb flag "000"%byte then "000"%byte else "001"%byte) :: r.
Proof.
  intros flag r m rest.
  cbn [Decode Encode AckMessage_Message]. unfold bind, ret.
  change (read_byte (flag :: r)) with (Ok (A := byte * bytes) (flag, r)).
  cbn iota beta.
  destruct (readString r) as [[err r1]|e] eqn:E; [|discriminate].
  intros Em. injection Em as <- <-.
  apply readString_inv in E. destruct E as [-> Hf].
  cbn [Ack_Accepted Ack_Error]. split; [reflexivity|]. split; [exact Hf|].
  destruct (Byte.eqb flag "000"%byte); cbn [negb write_byte app];
    now rewrite <- ?List.app_assoc.
Qed.

Lemma Ack_Decode_normalises_flag_witness :
  Ack_Accepted {| Ack_Accepted := true; Ack_Error := "" |}
  = negb (Byte.eqb "002"%byte "000"%byte)
  /\ Encode {| Ack_Accepted := true; Ack_Error := "" |} ++ []
     = [ "001"; "000"; "000" ]%byte.
Proof.
  destruct (Ack_Decode_normalises_flag "002"%byte [ "000"; "000" ]%byte
              {| Ack_Accepted := true; Ack_Error := "" |} [])
    as (H1 & _ & H2).
  - vm_compute. reflexivity.
  - split; [exact H1 | exact H2].
Defined.

Lemma fixed_size_Decode_fails_iff_short_witness :
  exists e, Decode (M := PingMessage) (repeat "000"%byte 11) = Err e.
Proof.
  destruct fixed_size_Decode_fails_iff_short as (HP & _ & _).
  destruct (HP (repeat "000"%byte 11)) as [[_ Hshort] _].
  apply Hshort. vm_compute. lia.
Defined.

(** ** Message type names *)

Section TypeNames.

Lemma all_bytes_complete (b : byte) : In b all_bytes.
Proof.
  unfold all_bytes. apply List.in_map_iff.
  pose proof (byte_to_Z_range b) as Hb.
  exists (Z.to_nat (byte_to_Z b)). split.
  - rewrite Z2Nat.id by lia. apply byte_of_to_Z.
  - apply List.in_seq. lia.
Qed.

Lemma names_distinct_check :
  forallb (fun m1 =>
    forallb (fun m2 =>
      implb (String.eqb (MessageType_String m1) (MessageType_String m2))
            (Byte.eqb m1 m2)) all_bytes) all_bytes = true.
Proof. vm_compute. reflexivity. Qed.

Lemma names_known_check :
  forallb (fun m =>
    Bool.eqb (known_type m)
      (negb (String.prefix "Unknown(" (MessageType_String m)))) all_bytes
  = true.
Proof. vm_compute. reflexivity. Qed.

End TypeNames.

(** X5: [MessageType.String] never gives two message types the same name,
    and a name starts with "Unknown(" exactly for the type bytes that are
    none of the seven message types. *)
Theorem MessageType_String_injective :
  forall m1 m2 : MessageType,
    (MessageType_String m1 = MessageType_String m2 -> m1 = m2)
    /\ (known_type m1 = false
        <-> String.prefix "Unknown(" (MessageType_String m1) = true).
Proof.
  intros m1 m2. split.
  - intros Hs.
    pose proof names_distinct_check as Hc.
    rewrite List.forallb_forall in Hc.
    specialize (Hc m1 (all_bytes_complete m1)).
    rewrite List.forallb_forall in Hc.
    specialize (Hc m2 (all_bytes_complete m2)).
    rewrite Hs, String.eqb_refl in Hc. cbn [implb] in Hc.
    now apply Byte.byte_dec_bl.
  - pose proof names_known_check as Hc.
    rewrite List.forallb_forall in Hc.
    specialize (Hc m1 (all_bytes_complete m1)).
    apply Bool.eqb_prop in Hc. rewrite Hc.
    destruct (String.prefix _ _); cbn [negb]; split; congruence.
Qed.

Lemma MessageType_String_injective_witness :
  MessageType_String "c"%byte = "Unknown(99)"%string
  /\ ("c"%byte : MessageType) = "c"%byte.
Proof.
  split; [reflexivity|].
  apply (MessageType_String_injective "c"%byte "c"%byte). reflexivity.
Defined.

(** ** Benchmark configuration *)

Section ConfigFacts.

Lemma IsEnabled_false (c : ChaosConfig) :
  ChaosConfig_IsEnabled c = false
  <-> (PacketLossPercent c <= 0)%Q /\ Latency c <= 0 /\ Jitter c <= 0
      /\ BandwidthBps c <= 0.
Proof.
  unfold ChaosConfig_IsEnabled. rewrite !orb_false_iff, Qltb_false_iff.
  destruct (Z.gtb_spec (Latency c) 0), (Z.gtb_spec (Jitter c) 0),
    (Z.gtb_spec (BandwidthBps c) 0); intuition (try discriminate; try lia).
Qed.

End ConfigFacts.

Section ConfigLoss.

(** The losses that neither comparison of [Validate] rejects. *)
Lemma loss_passes_iff (loss : float64_value) :
  float64_lt loss (Num 0%Q) || float64_lt (Num 100%Q) loss = false
  <-> loss = NaN
      \/ exists q : float64, loss = Num q /\ (0 <= q)%Q /\ (q <= 100)%Q.
Proof.
  destruct loss as [|[|]|q]; cbn [float64_lt orb negb].
  - split; [now left | reflexivity].
  - split; [discriminate|]. intros [H|(q & H & _)]; discriminate.
  - split; [discriminate|]. intros [H|(q & H & _)]; discriminate.
  - rewrite orb_false_iff, !Qltb_false_iff. split.
    + intros [H0 H1]. right. exists q. now split_ands.
    + intros [H|(q' & E & H0 & H1)]; [discriminate|].
      injection E as <-. now split.
Qed.

Lemma ChaosConfig_Validate_loss_Num (c : ChaosConfig) :
  ChaosConfig_Validate_loss (Num (PacketLossPercent c)) c
  = ChaosConfig_Validate c.
Proof. reflexivity. Qed.

Lemma ChaosConfig_Validate_loss_None (loss : float64_value)
  (c : ChaosConfig) :
  ChaosConfig_Validate_loss loss c = None
  <-> (loss = NaN
       \/ exists q : float64, loss = Num q /\ (0 <= q)%Q /\ (q <= 100)%Q)
      /\ 0 <= Latency c /\ 0 <= Jitter c /\ 0 <= BandwidthBps c.
Proof.
  unfold ChaosConfig_Validate_loss. rewrite <- loss_passes_iff.
  destruct (float64_lt loss (Num 0%Q) || float64_lt (Num 100%Q) loss).
  { split; [discriminate | intros (H & _); discriminate]. }
  destruct (Z.ltb_spec (Latency c) 0); [split; [discriminate | lia]|].
  destruct (Z.ltb_spec (Jitter c) 0); [split; [discriminate | lia]|].
  destruct (Z.ltb_spec (BandwidthBps c) 0); [split; [discriminate | lia]|].
  split; [intros _; split_ands; [reflexivity|assumption..] | reflexivity].
Qed.

End ConfigLoss.

(** X6: [Config.Validate] accepts a configuration exactly when the peer
    name is not empty, the size is positive, the direction is empty,
    "upload" or "download", the packet loss is a number within 0..100 or
    is NaN (which neither [< 0] nor [> 100] rejects), and latency, jitter
    and bandwidth are not negative; the checks are made in that order, so
    an empty peer name or a non-positive size is what is reported first.
    For a loss that is a number this is [Config_Validate]. *)
Theorem Config_Validate_accepts_iff :
  forall (loss : float64_value) (c : Config),
    (Config_Validate_loss loss c = None
     <-> PeerName c <> ""%string /\ 0 < Size c
         /\ (Direction c = ""%string \/ Direction c = DirectionUpload
             \/ Direction c = DirectionDownload)
         /\ (loss = NaN
             \/ exists q : float64,
                  loss = Num q /\ (0 <= q)%Q /\ (q <= 100)%Q)
         /\ 0 <= Latency (Chaos c) /\ 0 <= Jitter (Chaos c)
         /\ 0 <= BandwidthBps (Chaos c))
    /\ (PeerName c = ""%string ->
        Config_Validate_loss loss c = Some ErrPeerNameRequired)
    /\ (PeerName c <> ""%string -> Size c <= 0 ->
        Config_Validate_loss loss c = Some ErrSizeNotPositive)
    /\ Config_Validate_loss (Num (PacketLossPercent (Chaos c))) c
       = Config_Validate c.
Proof.
  intros loss c. unfold Config_Validate_loss.
  pose proof (ChaosConfig_Validate_loss_None loss (Chaos c)) as Hch.
  split_ands; [| | |reflexivity].
  - destruct (String.eqb_spec (PeerName c) "") as [Hn|Hn];
      [split; [discriminate | tauto]|].
    destruct (Z.leb_spec (Size c) 0) as [Hs|Hs];
      [split; [discriminate | intros (_ & H & _); lia]|].
    destruct (String.eqb_spec (Direction c) "") as [Hd0|Hd0];
      [|destruct (String.eqb_spec (Direction c) DirectionUpload) as [Hd1|Hd1];
        [|destruct (String.eqb_spec (Direction c) DirectionDownload)
            as [Hd2|Hd2]]];
      cbn [negb andb];
      try (destruct (ChaosConfig_Validate_loss loss (Chaos c)) as [e|];
           [split; [discriminate|];
            intros (_ & _ & _ & H); apply Hch in H; discriminate
           |split; [|reflexivity];
            intros _; split_ands; tauto]).
    split; [discriminate | tauto].
  - intros ->. reflexivity.
  - intros Hn Hs.
    destruct (String.eqb_spec (PeerName c) ""); [contradiction|].
    destruct (Z.leb_spec (Size c) 0); [reflexivity | lia].
Qed.

Lemma Config_Validate_accepts_iff_witness :
  Config_Validate_loss NaN sample_config = None
  /\ Config_Validate_loss (Num (- (1))%Q) sample_config
     = Some (ErrChaosConfig ErrPacketLoss)
  /\ Config_Validate_loss (Num 5%Q) backwards_config
     = Some ErrSizeNotPositive.
Proof.
  split_ands.
  - destruct (Config_Validate_accepts_iff NaN sample_config) as ([_ H] & _).
    apply H.
    split_ands; try (right; left; reflexivity); try reflexivity;
      try (left; reflexivity); try (vm_compute; discriminate).
  - vm_compute. reflexivity.
  - destruct (Config_Validate_accepts_iff (Num 5%Q) backwards_config)
      as (_ & _ & H & _).
    apply H.
    + discriminate.
    + vm_compute. discriminate.
Defined.

(** X7: [Config.WithDefaults] changes nothing when applied twice, does not
    change what [Validate] answers, and a configuration accepted after the
    defaults has direction "upload" or "download", a port and a timeout. *)
Theorem WithDefaults_then_Validate :
  forall c : Config,
    Config_WithDefaults (Config_WithDefaults c) = Config_WithDefaults c
    /\ Config_Validate (Config_WithDefaults c) = Config_Validate c
    /\ (Config_Validate (Config_WithDefaults c) = None ->
        (Direction (Config_WithDefaults c) = DirectionUpload
         \/ Direction (Config_WithDefaults c) = DirectionDownload)
        /\ Port (Config_WithDefaults c) <> 0
        /\ Timeout (Config_WithDefaults c) <> 0).
Proof.
  intros c.
  assert (Hport : Port (Config_WithDefaults c) <> 0).
  { unfold Config_WithDefaults. cbn [Port].
    destruct (Z.eqb_spec (Port c) 0); [discriminate | assumption]. }
  assert (Htime : Timeout (Config_WithDefaults c) <> 0).
  { unfold Config_WithDefaults. cbn [Timeout].
    destruct (Z.eqb_spec (Timeout c) 0); [discriminate | assumption]. }
  assert (Hval : Config_Validate (Config_WithDefaults c) = Config_Validate c).
  { unfold Config_Validate, Config_WithDefaults.
    cbn [PeerName Size Direction Chaos].
    destruct (String.eqb (Direction c) "") eqn:E.
    - apply String.eqb_eq in E. rewrite E. reflexivity.
    - rewrite E. reflexivity. }
  split_ands.
  - unfold Config_WithDefaults at 1. cbn [PeerName Size Chaos].
    destruct c as [name size dir timeout port chaos].
    unfold Config_WithDefaults. cbn [Direction Port Timeout PeerName Size Chaos].
    f_equal.
    + destruct (String.eqb_spec dir ""); [reflexivity|].
      destruct (String.eqb_spec dir ""); [contradiction | reflexivity].
    + destruct (Z.eqb_spec timeout 0); [reflexivity|].
      destruct (Z.eqb_spec timeout 0); [contradiction | reflexivity].
    + destruct (Z.eqb_spec port 0); [reflexivity|].
      destruct (Z.eqb_spec port 0); [contradiction | reflexivity].
  - exact Hval.
  - intros Hok. split_ands; [|exact Hport|exact Htime].
    apply Config_Validate_direction in Hok.
    unfold Config_WithDefaults in Hok |- *. cbn [Direction] in *.
    destruct (String.eqb_spec (Direction c) "");
      [left; reflexivity | tauto].
Qed.

Lemma WithDefaults_then_Validate_witness :
  Direction (Config_WithDefaults bare_config) = DirectionUpload
  \/ Direction (Config_WithDefaults bare_config) = DirectionDownload.
Proof.
  destruct (WithDefaults_then_Validate bare_config) as (_ & _ & H).
  apply H. vm_compute. reflexivity.
Defined.

(** X8: when [ChaosConfig.IsEnabled] is false, the writer that
    [NewChaosWriterWithRng] makes has no bucket and its [Write] is the
    underlying write: one write of [p], the underlying result, no sleep, no
    panic.  (So [runUpload], which wraps the connection only when
    [IsEnabled] holds, loses nothing by not wrapping it.) *)
Theorem disabled_chaos_is_transparent :
  forall (W : Type) (HW : Writer W) (w : W) (cfg : ChaosConfig) (rng : Rand)
         (now0 now : Z) (p : bytes),
    ChaosConfig_IsEnabled cfg = false ->
    let c := NewChaosWriterWithRng w cfg rng now0 in
    cw_bucket c = None
    /\ fst (ChaosWriter_Write c now p)
       = Returned (fst (fst (Writer_Write w p))) (snd (fst (Writer_Write w p)))
    /\ ws_events (snd (ChaosWriter_Write c now p)) = [EvWrite p]
    /\ ws_clock (snd (ChaosWriter_Write c now p)) = now
    /\ cw_w (ws_cw (snd (ChaosWriter_Write c now p)))
       = snd (Writer_Write w p).
Proof.
  intros W HW w cfg rng now0 now p Hdis c.
  apply IsEnabled_false in Hdis. destruct Hdis as (Hl & Hlat & Hj & Hb).
  assert (Hbucket : cw_bucket c = None).
  { subst c. unfold NewChaosWriterWithRng. cbn [cw_bucket].
    destruct (Z.gtb_spec (BandwidthBps cfg) 0); [lia | reflexivity]. }
  assert (Hcfg : cw_cfg c = cfg) by reflexivity.
  assert (Hw : cw_w c = w) by reflexivity.
  assert (Hnd : ~ drops c).
  { intros [Hpos _]. rewrite Hcfg in Hpos. lra. }
  destruct (Write_not_dropped c now p Hnd)
    as [(_ & _ & Hjit)
       |(n & err & w' & delay & HWr & H0 & Hdl & Hout & Hev & Hclk & Hw'
         & _)].
  { rewrite Hcfg in Hjit. lia. }
  rewrite Hcfg in Hdl. rewrite Hw in HWr.
  assert (Hd : delay = 0) by (rewrite Hdl by lia; lia).
  assert (Hwait : bandwidth_wait c now p = 0)
    by (unfold bandwidth_wait; now rewrite Hbucket).
  rewrite Hwait, Hd in *. rewrite HWr. cbn [fst snd].
  split_ands; try assumption. rewrite Hclk. lia.
Qed.

Lemma disabled_chaos_is_transparent_witness :
  ws_events
    (snd (ChaosWriter_Write
            (NewChaosWriterWithRng {| buf := [] |} no_chaos
               {| float_draws := []; int_draws := [] |} 0) 5 sample_chunk))
  = [EvWrite sample_chunk].
Proof.
  apply (disabled_chaos_is_transparent limitedBuffer _ {| buf := [] |}
           no_chaos {| float_draws := []; int_draws := [] |} 0 5
           sample_chunk).
  vm_compute. reflexivity.
Defined.

Section ThroughputFacts.

Lemma CalculateThroughput_again (r : Result) :
  CalculateThroughput (CalculateThroughput r) = CalculateThroughput r.
Proof.
  unfold CalculateThroughput, durationSec.
  destruct (DurationMs r >? 0) eqn:E;
    cbn [DurationMs TransferredSize ID Timestamp LocalPeer RemotePeer
         Result_Direction RequestedSize LatencyMinMs LatencyMaxMs
         LatencyAvgMs Success Result_Error Result_Chaos];
    rewrite E; reflexivity.
Qed.

Lemma Qdiv_le_mono_l (a b d : Q) :
  (0 < d)%Q -> (a <= b)%Q -> (a / d <= b / d)%Q.
Proof.
  intros Hd Hab. apply Qle_shift_div_l; [exact Hd|].
  assert (E : (a / d * d == a)%Q) by (field; lra).
  rewrite E. exact Hab.
Qed.

Lemma Qdiv_le_anti_r (a d1 d2 : Q) :
  (0 <= a)%Q -> (0 < d1)%Q -> (d1 <= d2)%Q -> (a / d2 <= a / d1)%Q.
Proof.
  intros Ha H1 H12.
  assert (H2 : (0 < d2)%Q) by lra.
  apply Qle_shift_div_r; [exact H2|].
  assert (E : (a / d1 * d2 == a * d2 / d1)%Q) by (field; lra).
  rewrite E. apply Qle_shift_div_l; [exact H1|].
  assert (0 <= a * (d2 - d1))%Q by (apply Qmult_le_0_compat; lra).
  lra.
Qed.

Lemma megabits_scale (b : Q) : (b * 8 / 1000000 == b * (1 # 125000))%Q.
Proof. field. Qed.

Lemma CalculateThroughput_fields (r : Result) :
  0 < DurationMs r ->
  ThroughputBps (CalculateThroughput r)
  = (inject_Z (TransferredSize r) / durationSec r)%Q
  /\ ThroughputMbps (CalculateThroughput r)
     = (inject_Z (TransferredSize r) / durationSec r * 8 / 1000000)%Q.
Proof.
  intros Hd. unfold CalculateThroughput.
  destruct (Z.gtb_spec (DurationMs r) 0); [|lia]. split; reflexivity.
Qed.

Lemma durationSec_pos (r : Result) :
  0 < DurationMs r -> (0 < durationSec r)%Q.
Proof.
  intros Hd. unfold durationSec.
  assert (Hq : (0 < inject_Z (DurationMs r))%Q)
    by (rewrite <- (Zlt_Qlt 0); exact Hd).
  apply Qlt_shift_div_l; lra.
Qed.

Lemma durationSec_mono (r r2 : Result) :
  DurationMs r <= DurationMs r2 -> (durationSec r <= durationSec r2)%Q.
Proof.
  intros Hd. unfold durationSec. apply Qdiv_le_mono_l; [reflexivity|].
  rewrite <- Zle_Qle. exact Hd.
Qed.

End ThroughputFacts.

(** X9: a second [CalculateThroughput] changes nothing.  After
    [CalculateThroughput] on a result with a positive duration,
    [ThroughputBps] and [ThroughputMbps] are zero when nothing was
    transferred, positive when something was, and never negative for a
    size that is not negative; more bytes in the same time never give a
    lower throughput, and the same bytes in more time never a higher one. *)
Theorem CalculateThroughput_values :
  forall r : Result,
    CalculateThroughput (CalculateThroughput r) = CalculateThroughput r
    /\ (0 < DurationMs r ->
        (0 <= TransferredSize r ->
         (0 <= ThroughputBps (CalculateThroughput r))%Q
         /\ (0 <= ThroughputMbps (CalculateThroughput r))%Q)
        /\ (0 < TransferredSize r ->
            (0 < ThroughputBps (CalculateThroughput r))%Q
            /\ (0 < ThroughputMbps (CalculateThroughput r))%Q)
        /\ (TransferredSize r = 0 ->
            (ThroughputBps (CalculateThroughput r) == 0)%Q
            /\ (ThroughputMbps (CalculateThroughput r) == 0)%Q)
        /\ (forall r2 : Result,
              DurationMs r2 = DurationMs r ->
              TransferredSize r <= TransferredSize r2 ->
              (ThroughputBps (CalculateThroughput r)
               <= ThroughputBps (CalculateThroughput r2))%Q
              /\ (ThroughputMbps (CalculateThroughput r)
                  <= ThroughputMbps (CalculateThroughput r2))%Q)
        /\ (forall r2 : Result,
              TransferredSize r2 = TransferredSize r ->
              0 <= TransferredSize r ->
              DurationMs r <= DurationMs r2 ->
              (ThroughputBps (CalculateThroughput r2)
               <= ThroughputBps (CalculateThroughput r))%Q
              /\ (ThroughputMbps (CalculateThroughput r2)
                  <= ThroughputMbps (CalculateThroughput r))%Q)).
Proof.
  intros r. split; [apply CalculateThroughput_again|].
  intros Hd.
  destruct (CalculateThroughput_fields r Hd) as [-> ->].
  pose proof (durationSec_pos r Hd) as Hs.
  set (t := inject_Z (TransferredSize r)).
  set (d := durationSec r) in *.
  assert (Hdiv : forall x : Q, (x / d * d == x)%Q)
    by (intros x; field; lra).
  split_ands.
  - intros Ht.
    assert (Ht' : (0 <= t)%Q) by (subst t; rewrite <- (Zle_Qle 0); exact Ht).
    assert (Hb : (0 <= t / d)%Q)
      by (apply Qle_shift_div_l; [exact Hs | lra]).
    split; [exact Hb|]. rewrite !megabits_scale. lra.
  - intros Ht.
    assert (Ht' : (0 < t)%Q) by (subst t; rewrite <- (Zlt_Qlt 0); exact Ht).
    assert (Hb : (0 < t / d)%Q)
      by (apply Qlt_shift_div_l; [exact Hs | lra]).
    split; [exact Hb|]. rewrite !megabits_scale. lra.
  - intros Ht. subst t. rewrite Ht. split; field; lra.
  - intros r2 Ed Ht.
    assert (Hd2 : 0 < DurationMs r2) by lia.
    destruct (CalculateThroughput_fields r2 Hd2) as [-> ->].
    assert (Ed' : durationSec r2 = d)
      by (subst d; unfold durationSec; now rewrite Ed).
    rewrite Ed'.
    assert (Hb : (t / d <= inject_Z (TransferredSize r2) / d)%Q).
    { apply Qdiv_le_mono_l; [exact Hs|]. subst t.
      rewrite <- Zle_Qle. exact Ht. }
    split; [exact Hb|]. rewrite !megabits_scale. lra.
  - intros r2 Et Ht Hdd.
    assert (Hd2 : 0 < DurationMs r2) by lia.
    destruct (CalculateThroughput_fields r2 Hd2) as [-> ->].
    rewrite Et. fold t.
    assert (Hb : (t / durationSec r2 <= t / d)%Q).
    { apply Qdiv_le_anti_r; [|exact Hs|now apply durationSec_mono].
      subst t. rewrite <- (Zle_Qle 0). exact Ht. }
    split; [exact Hb|]. rewrite !megabits_scale. lra.
Qed.

Lemma CalculateThroughput_values_witness :
  (0 < ThroughputBps (CalculateThroughput sample_result))%Q
  /\ (0 < ThroughputMbps (CalculateThroughput sample_result))%Q.
Proof.
  destruct (CalculateThroughput_values sample_result) as [_ H].
  destruct (H ltac:(reflexivity)) as (_ & Hpos & _).
  apply Hpos. reflexivity.
Defined.

(** ** Token bucket: the wait and the burst *)

Section TakeWaits.

Lemma Duration_of_float64_floor (x : float64) :
  (0 <= x)%Q -> (x <= inject_Z maxDuration)%Q ->
  Duration_of_float64 x = Qfloor x.
Proof.
  intros Hx Hfit. unfold Duration_of_float64.
  pose proof (Qtrunc_nonneg x Hx). pose proof (Qtrunc_le x _ Hx Hfit).
  assert (Hq : Qtrunc x = Qfloor x).
  { unfold Qtrunc. destruct (Qle_bool 0 x) eqn:Eb; [reflexivity|].
    apply Qle_bool_iff in Hx. congruence. }
  destruct (Z.leb_spec minDuration (Qtrunc x));
    destruct (Z.leb_spec (Qtrunc x) maxDuration); cbn [andb];
    unfold minDuration, maxDuration in *; try lia; exact Hq.
Qed.

(** The time a deficit of [m - available] tokens takes, for a demand [m]
    worth no more than [bound] nanoseconds at the rate. *)
Lemma deficit_time_fits (tb : TokenBucket) (now m : Z) (bound : Q) :
  bucket_inv tb -> lastUpdate tb <= now ->
  (refill tb now < inject_Z m)%Q ->
  (inject_Z m * inject_Z Second <= bound * rate tb)%Q ->
  (0 <= (inject_Z m - refill tb now) / rate tb * inject_Z Second)%Q
  /\ ((inject_Z m - refill tb now) / rate tb * inject_Z Second <= bound)%Q.
Proof.
  intros Hinv Hnow Hlt Hb.
  pose proof (refill_nonneg tb now Hinv Hnow) as H0.
  destruct Hinv as (Hr & _).
  pose proof Second_pos as HS.
  assert (E : ((inject_Z m - refill tb now) / rate tb * inject_Z Second
               == (inject_Z m * inject_Z Second
                   - refill tb now * inject_Z Second) / rate tb)%Q)
    by (field; lra).
  assert (0 <= refill tb now * inject_Z Second)%Q
    by (apply Qmult_le_0_compat; lra).
  assert (0 <= (inject_Z m - refill tb now) * inject_Z Second)%Q
    by (apply Qmult_le_0_compat; lra).
  rewrite E. split.
  - apply Qle_shift_div_l; [exact Hr|]. lra.
  - apply Qle_shift_div_r; [exact Hr|]. lra.
Qed.

End TakeWaits.

(** X13: on a bucket in the state [NewTokenBucket] and [Take] leave it in,
    a [Take] that finds the tokens it is asked for returns 0, and one that
    does not empties the bucket; either way the time of the call is
    stored.  Asking for more never shortens the wait: for [0 <= n <= m],
    with [m] tokens worth no more than 2^62 nanoseconds at the rate, the
    wait for [n] is between 0 and the wait for [m]. *)
Theorem Take_wait_grows_with_demand :
  forall (tb : TokenBucket) (now n m : Z),
    bucket_inv tb ->
    lastUpdate tb <= now ->
    0 <= n <= m ->
    (inject_Z m * inject_Z Second <= inject_Z (2 ^ 62) * rate tb)%Q ->
    0 <= fst (Take tb now n) <= fst (Take tb now m)
    /\ ((inject_Z n <= refill tb now)%Q -> fst (Take tb now n) = 0)
    /\ ((refill tb now < inject_Z n)%Q ->
        (tokens (snd (Take tb now n)) == 0)%Q)
    /\ lastUpdate (snd (Take tb now n)) = now.
Proof.
  intros tb now n m Hinv Hnow [Hn Hnm] Hb.
  assert (Hnq : (inject_Z n <= inject_Z m)%Q) by (rewrite <- Zle_Qle; lia).
  assert (Hmax : (inject_Z (2 ^ 62) <= inject_Z maxDuration)%Q)
    by (rewrite <- Zle_Qle; unfold maxDuration; lia).
  pose proof Hinv as (Hr & _).
  pose proof Second_pos as HS.
  assert (Hbn : (inject_Z n * inject_Z Second
                 <= inject_Z (2 ^ 62) * rate tb)%Q).
  { apply Qle_trans with (inject_Z m * inject_Z Second)%Q; [|exact Hb].
    apply Qmult_le_compat_r; lra. }
  split; [|split_ands].
  - destruct (Take_cases tb now n) as [[Hle En]|[Hlt En]]; rewrite En;
      destruct (Take_cases tb now m) as [[Hle' Em]|[Hlt' Em]]; rewrite Em;
      cbn [fst]; try lia; try lra.
    + destruct (deficit_time_fits tb now m _ Hinv Hnow Hlt' Hb) as [H0 H1].
      split; [lia|]. apply Duration_of_float64_nonneg; lra.
    + destruct (deficit_time_fits tb now n _ Hinv Hnow Hlt Hbn) as [H0 H1].
      destruct (deficit_time_fits tb now m _ Hinv Hnow Hlt' Hb) as [H0' H1'].
      rewrite !Duration_of_float64_floor by lra.
      split.
      * change 0 with (Qfloor 0). now apply Qfloor_resp_le.
      * apply Qfloor_resp_le.
        apply Qmult_le_compat_r; [|lra].
        apply Qdiv_le_mono_l; [exact Hr|]. lra.
  - intros Hle. destruct (Take_cases tb now n) as [[_ ->]|[Hlt _]];
      [reflexivity | lra].
  - intros Hlt. destruct (Take_cases tb now n) as [[Hle _]|[_ ->]];
      [lra | reflexivity].
  - destruct (Take_cases tb now n) as [[_ ->]|[_ ->]]; reflexivity.
Qed.

Lemma Take_wait_grows_with_demand_witness :
  0 <= fst (Take (NewTokenBucket 3 0) 0 10)
       <= fst (Take (NewTokenBucket 3 0) 0 20)
  /\ fst (Take (NewTokenBucket 3 0) 0 10) = 2333333333.
Proof.
  split; [|vm_compute; reflexivity].
  apply (Take_wait_grows_with_demand (NewTokenBucket 3 0) 0 10 20).
  - apply NewTokenBucket_inv. lia.
  - reflexivity.
  - lia.
  - vm_compute. discriminate.
Defined.

(** X14: a bucket left alone for a second or more is full again, however
    empty it was: a [Take] of up to [maxTokens] tokens then returns 0 and
    leaves the rest; and [Take(0)] never waits. *)
Theorem idle_bucket_is_full :
  forall (tb : TokenBucket) (now n : Z),
    bucket_inv tb ->
    (Second <= now - lastUpdate tb ->
     (refill tb now == maxTokens tb)%Q
     /\ (0 <= n -> (inject_Z n <= maxTokens tb)%Q ->
         fst (Take tb now n) = 0
         /\ (tokens (snd (Take tb now n)) == maxTokens tb - inject_Z n)%Q))
    /\ (lastUpdate tb <= now -> fst (Take tb now 0) = 0).
Proof.
  intros tb now n Hinv.
  pose proof Hinv as (Hr & Hm & Ht0 & Ht1). split.
  - intros Hidle.
    assert (Hfull : (refill tb now == maxTokens tb)%Q).
    { pose proof (refill_le_max tb now) as Hle.
      unfold refill in *.
      assert (He : (1 <= Seconds (Time_Sub now (lastUpdate tb)))%Q).
      { unfold Seconds. apply Qle_shift_div_l; [apply Second_pos|].
        rewrite Qmult_1_l. rewrite <- Zle_Qle.
        unfold Time_Sub, minDuration, maxDuration, Second, Millisecond in *.
        destruct (Z.ltb_spec (now - lastUpdate tb) (- 2 ^ 63)); [lia|].
        destruct (Z.ltb_spec (2 ^ 63 - 1) (now - lastUpdate tb)); lia. }
      assert (Hp : (rate tb
                    <= Seconds (Time_Sub now (lastUpdate tb)) * rate tb)%Q).
      { rewrite <- (Qmult_1_l (rate tb)) at 1.
        apply Qmult_le_compat_r; lra. }
      destruct (Qltb _ _) eqn:E; [reflexivity|].
      apply Qltb_false_iff in E. lra. }
    split; [exact Hfull|]. intros Hn Hnm.
    destruct (Take_cases tb now n) as [[_ ->]|[Hlt _]]; [|lra].
    cbn [fst snd tokens]. split; [reflexivity | lra].
  - intros Hnow.
    pose proof (refill_nonneg tb now Hinv Hnow) as H0.
    destruct (Take_cases tb now 0) as [[_ ->]|[Hlt _]]; [reflexivity|].
    change (inject_Z 0) with 0%Q in Hlt. lra.
Qed.

Lemma idle_bucket_is_full_witness :
  fst (Take (snd (Take (NewTokenBucket 100 0) 0 300)) (1 * Second) 100) = 0.
Proof.
  destruct (idle_bucket_is_full (snd (Take (NewTokenBucket 100 0) 0 300))
              (1 * Second) 100) as [H _].
  - vm_compute. split_ands; try reflexivity; discriminate.
  - destruct H as [_ H]; [vm_compute; discriminate|].
    apply H; vm_compute; discriminate.
Defined.

(** ** Chaos writer: accounting, jitter and panics *)

Section ChaosAccounting.

Context {W : Type} `{Writer W}.

Lemma int64_small (x : Z) : is_int64 x -> int64 x = x.
Proof.
  unfold is_int64, int64, swrap, wrap. intros Hx.
  change (2 ^ (64 - 1)) with (2 ^ 63).
  destruct (Z_lt_dec x 0).
  - replace (x mod 2 ^ 64) with (x + 2 ^ 64)
      by (apply Z.mod_unique with (q := -1); lia).
    destruct (Z.ltb_spec (x + 2 ^ 64) (2 ^ 63)); lia.
  - rewrite Z.mod_small by lia.
    destruct (Z.ltb_spec x (2 ^ 63)); lia.
Qed.

Lemma Rand_Int63n_range (r : Rand) (n : Z) :
  match Rand_Int63n r n with
  | Some (d, _) => 0 < n /\ 0 <= d < n
  | None => n <= 0
  end.
Proof.
  unfold Rand_Int63n. destruct (Z.leb_spec n 0); [assumption|].
  destruct (int_draws r) as [|i rest].
  - lia.
  - pose proof (Z.mod_pos_bound i n ltac:(lia)). lia.
Qed.

Lemma events_sleeps_only (d : Z) :
  forallb is_sleep (sleep_events d) = true
  /\ existsb is_write (sleep_events d) = false.
Proof. unfold sleep_events. destruct (d >? 0); split; reflexivity. Qed.

(** A write that is not dropped goes on to the latency step in a state
    where the bucket was asked and its wait slept. *)
Lemma Write_reaches_latency (c : ChaosWriter W) (now : Z) (p : bytes) :
  ~ drops c ->
  exists s1 : WriteState W,
    ChaosWriter_Write c now p = add_latency p s1
    /\ ws_events s1 = sleep_events (bandwidth_wait c now p)
    /\ ws_clock s1 = now + Z.max 0 (bandwidth_wait c now p)
    /\ cw_cfg (ws_cw s1) = cw_cfg c
    /\ cw_w (ws_cw s1) = cw_w c
    /\ cw_bucket (ws_cw s1) = bucket_charged c now p
    /\ cw_stats (ws_cw s1) = counted c p.
Proof.
  intros Hnd.
  assert (Hlb : forall s0 : WriteState W,
    ws_clock s0 = now -> ws_events s0 = [] ->
    cw_cfg (ws_cw s0) = cw_cfg c -> cw_w (ws_cw s0) = cw_w c ->
    cw_bucket (ws_cw s0) = cw_bucket c ->
    cw_stats (ws_cw s0) = counted c p ->
    exists s1 : WriteState W,
      limit_bandwidth p s0 = add_latency p s1
      /\ ws_events s1 = sleep_events (bandwidth_wait c now p)
      /\ ws_clock s1 = now + Z.max 0 (bandwidth_wait c now p)
      /\ cw_cfg (ws_cw s1) = cw_cfg c
      /\ cw_w (ws_cw s1) = cw_w c
      /\ cw_bucket (ws_cw s1) = bucket_charged c now p
      /\ cw_stats (ws_cw s1) = counted c p).
  { intros s0 Hclk Hev Hcfg Hw Hb Hst.
    unfold limit_bandwidth, bandwidth_wait, bucket_charged. rewrite Hb.
    destruct (cw_bucket c) as [b|]; cbn [option_map].
    - rewrite Hclk.
      destruct (Take b now (len p)) as [wait b'] eqn:ET. cbn [fst snd].
      eexists. split; [reflexivity|].
      rewrite sleep_if_positive_events, sleep_if_positive_clock,
        sleep_if_positive_cw.
      cbn [with_cw ws_events ws_clock ws_cw set_bucket cw_cfg cw_w
           cw_bucket cw_stats].
      rewrite Hev, Hclk. split_ands; try assumption; reflexivity.
    - exists s0. rewrite Hev, Hclk. cbn [sleep_events Z.gtb Z.compare].
      split_ands; try assumption; try reflexivity. lia. }
  unfold ChaosWriter_Write. cbn [set_stats cw_cfg cw_rng].
  destruct (Qltb 0 (PacketLossPercent (cw_cfg c))) eqn:Eloss.
  - destruct (Rand_Float64 (cw_rng c)) as [draw rng'] eqn:ER.
    cbn [set_rng set_stats cw_cfg cw_rng].
    destruct (Qltb (draw * 100) (PacketLossPercent (cw_cfg c))) eqn:Edraw.
    + exfalso. apply Hnd. split.
      * now apply Qltb_true_iff.
      * rewrite ER. cbn [fst]. now apply Qltb_true_iff.
    + apply Hlb; reflexivity.
  - apply Hlb; reflexivity.
Qed.

(** The latency step: a panic, or a sleep and the write. *)
Lemma add_latency_full (p : bytes) (s : WriteState W) :
  let cfg := cw_cfg (ws_cw s) in
  let st := cw_stats (ws_cw s) in
  (0 < Jitter cfg /\ int64 (2 * Jitter cfg) <= 0
   /\ add_latency p s = (Panicked, s))
  \/ exists n err w' delay,
       Writer_Write (cw_w (ws_cw s)) p = ((n, err), w')
       /\ fst (add_latency p s) = Returned n err
       /\ ws_events (snd (add_latency p s))
          = ws_events s ++ sleep_events delay ++ [EvWrite p]
       /\ cw_w (ws_cw (snd (add_latency p s))) = w'
       /\ cw_stats (ws_cw (snd (add_latency p s)))
          = {| TotalWrites := TotalWrites st;
               DroppedWrites := DroppedWrites st;
               TotalBytes := TotalBytes st;
               ActualBytes := int64 (ActualBytes st + int64 n) |}
       /\ ((Jitter cfg <= 0 /\ delay = Z.max 0 (Latency cfg))
           \/ (0 < Jitter cfg /\ 0 < int64 (2 * Jitter cfg)
               /\ exists draw,
                    0 <= draw < int64 (2 * Jitter cfg)
                    /\ delay
                       = Z.max 0
                           (int64 (Latency cfg
                                   + int64 (draw - Jitter cfg))))).
Proof.
  intros cfg st. unfold add_latency. fold cfg.
  destruct (Z.gtb_spec (Jitter cfg) 0) as [Hj|Hj].
  - rewrite orb_true_r.
    pose proof (Rand_Int63n_range (cw_rng (ws_cw s)) (int64 (2 * Jitter cfg)))
      as Hrange.
    destruct (Rand_Int63n (cw_rng (ws_cw s)) (int64 (2 * Jitter cfg)))
      as [[draw rng']|]; [|left; split_ands; [lia | lia | reflexivity]].
    right. destruct Hrange as [Hpos Hdraw].
    set (d := int64 (Latency cfg + int64 (draw - Jitter cfg))).
    unfold write_through.
    rewrite sleep_if_positive_cw, sleep_if_positive_events,
      sleep_if_positive_clock.
    cbn [with_cw ws_cw ws_events ws_clock set_rng cw_w cw_stats].
    destruct (Writer_Write (cw_w (ws_cw s)) p) as [[n err] w'].
    exists n, err, w', (if d <? 0 then 0 else d).
    cbn [fst snd ws_events ws_cw set_stats set_w cw_w cw_stats].
    split_ands; try reflexivity.
    + now rewrite <- List.app_assoc.
    + right. split_ands; try lia. exists draw. split; [lia|].
      destruct (Z.ltb_spec d 0); lia.
  - rewrite orb_false_r. right.
    destruct (Z.gtb_spec (Latency cfg) 0) as [Hl|Hl].
    + unfold write_through.
      rewrite sleep_if_positive_cw, sleep_if_positive_events,
        sleep_if_positive_clock.
      destruct (Writer_Write (cw_w (ws_cw s)) p) as [[n err] w'].
      exists n, err, w', (Latency cfg).
      cbn [fst snd ws_events ws_cw set_stats set_w cw_w cw_stats].
      split_ands; try reflexivity.
      * now rewrite <- List.app_assoc.
      * left. split; lia.
    + unfold write_through.
      destruct (Writer_Write (cw_w (ws_cw s)) p) as [[n err] w'].
      exists n, err, w', 0.
      cbn [fst snd ws_events ws_cw set_stats set_w cw_w cw_stats
           sleep_events Z.gtb Z.compare app].
      split_ands; try reflexivity. left. split; lia.
Qed.

Lemma classic_drops (c : ChaosWriter W) : drops c \/ ~ drops c.
Proof.
  unfold drops.
  destruct (Qlt_le_dec 0 (PacketLossPercent (cw_cfg c))) as [Hl|Hl];
    [|right; intros [H1 _]; lra].
  destruct (Qlt_le_dec (fst (Rand_Float64 (cw_rng c)) * 100)
              (PacketLossPercent (cw_cfg c))) as [Hd|Hd];
    [left; split; assumption | right; intros [_ H2]; lra].
Qed.

(** What one call does to the counters, by the way it ends. *)
Lemma Write_accounting (c : ChaosWriter W) (now : Z) (p : bytes) :
  let out := fst (ChaosWriter_Write c now p) in
  let s := snd (ChaosWriter_Write c now p) in
  let st := cw_stats c in
  let st' := cw_stats (ws_cw s) in
  TotalWrites st' = int64 (TotalWrites st + 1)
  /\ TotalBytes st' = int64 (TotalBytes st + int64 (len p))
  /\ ((entry_dropped (out, ws_events s) = true
       /\ entry_wrote (out, ws_events s) = false
       /\ entry_panicked (out, ws_events s) = false
       /\ DroppedWrites st' = int64 (DroppedWrites st + 1)
       /\ ActualBytes st' = ActualBytes st)
      \/ (entry_dropped (out, ws_events s) = false
          /\ entry_wrote (out, ws_events s) = false
          /\ entry_panicked (out, ws_events s) = true
          /\ DroppedWrites st' = DroppedWrites st
          /\ ActualBytes st' = ActualBytes st)
      \/ (entry_dropped (out, ws_events s) = false
          /\ entry_wrote (out, ws_events s) = true
          /\ entry_panicked (out, ws_events s) = false
          /\ DroppedWrites st' = DroppedWrites st
          /\ exists n err,
               out = Returned n err
               /\ List.length (filter is_write (ws_events s)) = 1%nat
               /\ ActualBytes st' = int64 (ActualBytes st + int64 n))).
Proof.
  intros out s st st'. subst out s st st'.
  destruct (classic_drops c) as [Hd|Hnd].
  - destruct (Write_dropped c now p Hd)
      as (Hout & Hev & _ & _ & _ & Hdw & Hab).
    assert (Ht : TotalWrites (cw_stats (ws_cw (snd (ChaosWriter_Write c now p))))
                 = int64 (TotalWrites (cw_stats c) + 1)
                 /\ TotalBytes
                      (cw_stats (ws_cw (snd (ChaosWriter_Write c now p))))
                    = int64 (TotalBytes (cw_stats c) + int64 (len p))).
    { destruct Hd as [Hloss Hdraw]. unfold ChaosWriter_Write.
      cbn [set_stats cw_cfg cw_rng].
      apply Qltb_true_iff in Hloss. rewrite Hloss.
      destruct (Rand_Float64 (cw_rng c)) as [draw rng'] eqn:ER.
      cbn [fst set_rng set_stats cw_cfg cw_rng] in *.
      apply Qltb_true_iff in Hdraw. rewrite Hdraw. split; reflexivity. }
    destruct Ht as [Ht Hb]. split; [exact Ht|]. split; [exact Hb|].
    left. rewrite Hout, Hev. split_ands; try reflexivity; assumption.
  - destruct (Write_reaches_latency c now p Hnd)
      as (s1 & E & Hev1 & _ & Hcfg & Hw & _ & Hst).
    rewrite E.
    destruct (add_latency_full p s1)
      as [(_ & _ & Ep)
         |(n & err & w' & delay & _ & Hout & Hev & _ & Hst' & _)].
    + rewrite Ep. cbn [fst snd]. rewrite Hst, Hev1. cbn [counted
        TotalWrites TotalBytes DroppedWrites ActualBytes].
      split; [reflexivity|]. split; [reflexivity|].
      right; left. unfold entry_dropped, entry_wrote, entry_panicked.
      cbn [fst snd].
      destruct (events_sleeps_only (bandwidth_wait c now p)) as [_ Hnw].
      rewrite Hnw. split_ands; reflexivity.
    + rewrite Hst', Hst, Hout, Hev, Hev1.
      cbn [counted TotalWrites TotalBytes DroppedWrites ActualBytes].
      split; [reflexivity|]. split; [reflexivity|].
      right; right. unfold entry_dropped, entry_wrote, entry_panicked.
      cbn [fst snd].
      assert (Hex : existsb is_write
                      (sleep_events (bandwidth_wait c now p)
                       ++ sleep_events delay ++ [EvWrite p]) = true).
      { rewrite !List.existsb_app. cbn. now rewrite !orb_true_r. }
      assert (Hcount : List.length (filter is_write
                         (sleep_events (bandwidth_wait c now p)
                          ++ sleep_events delay ++ [EvWrite p])) = 1%nat).
      { rewrite !List.filter_app, !List.length_app.
        unfold sleep_events.
        destruct (bandwidth_wait c now p >? 0), (delay >? 0); reflexivity. }
      rewrite Hex. split_ands; try reflexivity.
      exists n, err. split_ands; try reflexivity; assumption.
Qed.

End ChaosAccounting.

Section ChaosRuns.

Context {W : Type} `{Writer W}.

Lemma int64_mod (x : Z) : int64 x mod 2 ^ 64 = x mod 2 ^ 64.
Proof.
  unfold int64, swrap, wrap. change (2 ^ (64 - 1)) with (2 ^ 63).
  pose proof (Z.mod_pos_bound x (2 ^ 64) ltac:(lia)).
  destruct (Z.ltb_spec (x mod 2 ^ 64) (2 ^ 63)).
  - now rewrite Z.mod_mod by lia.
  - replace (x mod 2 ^ 64 - 2 ^ 64) with (x mod 2 ^ 64 + (-1) * 2 ^ 64)
      by lia.
    rewrite Z.mod_add by lia. now rewrite Z.mod_mod by lia.
Qed.

Lemma int64_congr (x y : Z) :
  x mod 2 ^ 64 = y mod 2 ^ 64 -> int64 x = int64 y.
Proof. unfold int64, swrap, wrap. now intros ->. Qed.

Lemma int64_add_l (x y : Z) : int64 (int64 x + y) = int64 (x + y).
Proof.
  apply int64_congr.
  rewrite Z.add_mod, int64_mod, <- Z.add_mod by lia. reflexivity.
Qed.

Lemma int64_add_r (x y : Z) : int64 (x + int64 y) = int64 (x + y).
Proof. rewrite (Z.add_comm x), int64_add_l. f_equal. lia. Qed.

Lemma int64_add_add (x y z : Z) :
  int64 (int64 (x + int64 y) + z) = int64 (x + (y + z)).
Proof.
  rewrite int64_add_l.
  replace (x + int64 y + z) with (x + z + int64 y) by lia.
  rewrite int64_add_r. f_equal. lia.
Qed.

Lemma Writes_counters_from (calls : list (Z * bytes)) :
  forall c : ChaosWriter W,
    0 <= DroppedWrites (cw_stats c) <= TotalWrites (cw_stats c) ->
    TotalWrites (cw_stats c) + len calls < 2 ^ 63 ->
    is_int64 (TotalBytes (cw_stats c)) ->
    let log := fst (ChaosWriter_Writes c calls) in
    let st' := cw_stats (snd (ChaosWriter_Writes c calls)) in
    TotalWrites st' = TotalWrites (cw_stats c) + len log
    /\ DroppedWrites st'
       = DroppedWrites (cw_stats c) + len (filter entry_dropped log)
    /\ len log
       = len (filter entry_dropped log) + len (filter entry_wrote log)
         + len (filter entry_panicked log)
    /\ len log <= len calls
    /\ TotalBytes st'
       = int64 (TotalBytes (cw_stats c)
                + bytes_offered calls (List.length log)).
Proof.
  induction calls as [|[now p] calls IH]; intros c Hd Ht Hb.
  - cbn [ChaosWriter_Writes fst snd filter]. unfold len, bytes_offered.
    cbn [List.length firstn fold_right].
    rewrite (Z.add_0_r (TotalBytes (cw_stats c))).
    rewrite int64_small by exact Hb.
    split_ands; lia.
  - cbn [ChaosWriter_Writes].
    pose proof (Write_accounting c now p) as HA.
    destruct (ChaosWriter_Write c now p) as [out s] eqn:EW.
    cbn [fst snd] in HA. destruct HA as (HT & HB & Hcase).
    unfold len in Ht. cbn [List.length] in Ht.
    assert (HT1 : TotalWrites (cw_stats (ws_cw s))
                  = TotalWrites (cw_stats c) + 1).
    { rewrite HT. apply int64_small. unfold is_int64. lia. }
    assert (HD1 : DroppedWrites (cw_stats (ws_cw s))
                  = DroppedWrites (cw_stats c)
                    + (if entry_dropped (out, ws_events s) then 1 else 0)).
    { destruct Hcase as [(-> & _ & _ & HD & _)
                        |[(-> & _ & _ & HD & _)|(-> & _ & _ & HD & _)]];
        rewrite HD; [|lia|lia].
      apply int64_small. unfold is_int64. lia. }
    assert (Hflags :
      (if entry_dropped (out, ws_events s) then 1 else 0)
      + (if entry_wrote (out, ws_events s) then 1 else 0)
      + (if entry_panicked (out, ws_events s) then 1 else 0) = 1).
    { destruct Hcase as [(-> & -> & -> & _)
                        |[(-> & -> & -> & _)|(-> & -> & -> & _)]];
        reflexivity. }
    assert (HB1 : is_int64 (TotalBytes (cw_stats (ws_cw s))))
      by (rewrite HB; apply int64_range).
    destruct out as [n err|].
    + assert (Hd1 : 0 <= DroppedWrites (cw_stats (ws_cw s))
                    <= TotalWrites (cw_stats (ws_cw s))).
      { rewrite HD1, HT1.
        destruct (entry_dropped (Returned n err, ws_events s)); lia. }
      assert (Ht1 : TotalWrites (cw_stats (ws_cw s)) + len calls < 2 ^ 63)
        by (rewrite HT1; unfold len; lia).
      specialize (IH (ws_cw s) Hd1 Ht1 HB1).
      destruct (ChaosWriter_Writes (ws_cw s) calls) as [log c'].
      cbn [fst snd] in IH |- *.
      destruct IH as (IHT & IHD & IHL & IHC & IHB).
      cbn [filter].
      destruct (entry_dropped (Returned n err, ws_events s)),
        (entry_wrote (Returned n err, ws_events s)),
        (entry_panicked (Returned n err, ws_events s));
        unfold len in *; cbn [List.length] in *;
        (split_ands; [lia | lia | lia | lia |]);
        rewrite IHB, HB, int64_add_add;
        unfold bytes_offered; cbn [firstn fold_right snd];
        reflexivity.
    + cbn [fst snd filter].
      destruct (entry_dropped (Panicked, ws_events s)),
        (entry_wrote (Panicked, ws_events s)),
        (entry_panicked (Panicked, ws_events s));
        unfold len in *; cbn [filter List.length] in *;
        (split_ands; [lia | lia | lia | lia |]);
        rewrite HB, int64_add_r;
        unfold bytes_offered; cbn [firstn fold_right snd];
        rewrite firstn_O; cbn [fold_right]; unfold len;
        f_equal; lia.
Qed.

Lemma int64_double_big (j : Z) :
  2 ^ 62 <= j < 2 ^ 63 -> int64 (2 * j) = 2 * j - 2 ^ 64.
Proof.
  intros Hj. unfold int64, swrap, wrap. change (2 ^ (64 - 1)) with (2 ^ 63).
  rewrite Z.mod_small by lia.
  destruct (Z.ltb_spec (2 * j) (2 ^ 63)); lia.
Qed.

End ChaosRuns.

(** X10: over any run of [Write] calls on a writer whose counters are
    consistent (as after [NewChaosWriterWithRng] or [Reset]) and cannot
    overflow, [TotalWrites] grows by the number of calls made,
    [DroppedWrites] by the number of those that returned without writing,
    every call either was dropped, wrote exactly once or panicked, so
    [DroppedWrites] never exceeds [TotalWrites]; and [TotalBytes] grows
    (modulo 2^64) by the bytes offered, dropped or not. *)
Theorem Writes_counters :
  forall (W : Type) (HW : Writer W) (c : ChaosWriter W)
         (calls : list (Z * bytes)),
    0 <= DroppedWrites (cw_stats c) <= TotalWrites (cw_stats c) ->
    TotalWrites (cw_stats c) + len calls < 2 ^ 63 ->
    is_int64 (TotalBytes (cw_stats c)) ->
    let log := fst (ChaosWriter_Writes c calls) in
    let st' := ChaosWriter_Stats (snd (ChaosWriter_Writes c calls)) in
    TotalWrites st' = TotalWrites (cw_stats c) + len log
    /\ DroppedWrites st'
       = DroppedWrites (cw_stats c) + len (filter entry_dropped log)
    /\ len log
       = len (filter entry_dropped log) + len (filter entry_wrote log)
         + len (filter entry_panicked log)
    /\ len log <= len calls
    /\ 0 <= DroppedWrites st' <= TotalWrites st'
    /\ TotalBytes st'
       = int64 (TotalBytes (cw_stats c)
                + bytes_offered calls (List.length log)).
Proof.
  intros W HW c calls Hd Ht Hb log st'.
  destruct (Writes_counters_from calls c Hd Ht Hb)
    as (HT & HD & HL & HC & HB).
  fold log in HT, HD, HL, HC, HB. unfold ChaosWriter_Stats in st'.
  fold st' in HT, HD, HB.
  split_ands; try assumption.
  - unfold len in *. lia.
  - unfold len in *. lia.
Qed.

(** The writer of the latency example, reset, then two writes: one
    dropped, one written. *)
Lemma Writes_counters_witness :
  TotalWrites
    (ChaosWriter_Stats
       (snd (ChaosWriter_Writes (ChaosWriter_Reset lossy_writer)
               [(0, sample_chunk); (0, sample_chunk)]))) = 2
  /\ DroppedWrites
       (ChaosWriter_Stats
          (snd (ChaosWriter_Writes (ChaosWriter_Reset lossy_writer)
                  [(0, sample_chunk); (0, sample_chunk)]))) = 1.
Proof.
  destruct (Writes_counters limitedBuffer _ (ChaosWriter_Reset lossy_writer)
              [(0, sample_chunk); (0, sample_chunk)])
    as (HT & HD & _).
  - vm_compute. split; discriminate.
  - vm_compute. reflexivity.
  - vm_compute. split; [discriminate | reflexivity].
  - rewrite HT, HD. vm_compute. split; reflexivity.
Defined.

(** X11: with a jitter [J] between 0 and 2^62 (exclusive) and a latency
    [L >= 0] such that [L + J] fits a [Duration], a write that is not
    dropped never panics, and the delay it sleeps before writing is at
    least [L - J] (and at least 0) and less than [L + J]. *)
Theorem Write_jitter_delay :
  forall (W : Type) (HW : Writer W) (c : ChaosWriter W) (now : Z) (p : bytes),
    ~ drops c ->
    0 <= Latency (cw_cfg c) ->
    0 < Jitter (cw_cfg c) < 2 ^ 62 ->
    Latency (cw_cfg c) + Jitter (cw_cfg c) < 2 ^ 63 ->
    exists n err delay,
      fst (ChaosWriter_Write c now p) = Returned n err
      /\ (n, err) = fst (Writer_Write (cw_w c) p)
      /\ ws_events (snd (ChaosWriter_Write c now p))
         = sleep_events (bandwidth_wait c now p)
             ++ sleep_events delay ++ [EvWrite p]
      /\ 0 <= delay
      /\ Latency (cw_cfg c) - Jitter (cw_cfg c) <= delay
      /\ delay < Latency (cw_cfg c) + Jitter (cw_cfg c).
Proof.
  intros W HW c now p Hnd HL HJ HLJ.
  destruct (Write_reaches_latency c now p Hnd)
    as (s1 & E & Hev1 & _ & Hcfg & Hw & _ & _).
  rewrite E.
  assert (H2J : int64 (2 * Jitter (cw_cfg c)) = 2 * Jitter (cw_cfg c))
    by (apply int64_small; unfold is_int64; lia).
  destruct (add_latency_full p s1)
    as [(_ & Hneg & _)
       |(n & err & w' & delay & HWr & Hout & Hev & _ & _ & Hdelay)];
    rewrite Hcfg in *.
  { rewrite H2J in Hneg. lia. }
  exists n, err, delay. rewrite Hw in HWr. rewrite HWr, Hev, Hev1.
  cbn [fst]. split; [exact Hout|]. split; [reflexivity|].
  split; [reflexivity|].
  destruct Hdelay as [[Hj _]|(_ & _ & draw & Hdraw & ->)]; [lia|].
  rewrite H2J in Hdraw.
  rewrite (int64_small (draw - Jitter (cw_cfg c)))
    by (unfold is_int64; lia).
  rewrite int64_small by (unfold is_int64; lia).
  lia.
Qed.

Lemma Write_jitter_delay_witness :
  exists n err delay,
    fst (ChaosWriter_Write jittery_writer 0 sample_chunk) = Returned n err
    /\ 1 * Millisecond <= delay < 3 * Millisecond.
Proof.
  destruct (Write_jitter_delay limitedBuffer _ jittery_writer 0 sample_chunk)
    as (n & err & delay & Hout & _ & _ & _ & Hlo & Hhi).
  - intros [Hpos _]. vm_compute in Hpos. discriminate.
  - vm_compute. discriminate.
  - vm_compute. split; reflexivity.
  - vm_compute. reflexivity.
  - exists n, err, delay. split; [exact Hout|].
    change (Latency (cw_cfg jittery_writer)) with (2 * Millisecond) in *.
    change (Jitter (cw_cfg jittery_writer)) with (1 * Millisecond) in *.
    unfold Millisecond in *. lia.
Defined.

(** X12: for a jitter within the range of a [Duration], a write that is
    not dropped panics exactly when the jitter is 2^62 ns or more (the
    range handed to [Int63n] then wraps below zero), a value that
    [ChaosConfig.Validate] accepts; the panic comes after the call was
    counted and the bucket's wait slept, and before any underlying
    write. *)
Theorem Write_panics_iff_jitter_wraps :
  forall (W : Type) (HW : Writer W) (c : ChaosWriter W) (now : Z) (p : bytes),
    ~ drops c ->
    0 <= Jitter (cw_cfg c) < 2 ^ 63 ->
    (fst (ChaosWriter_Write c now p) = Panicked
     <-> 2 ^ 62 <= Jitter (cw_cfg c))
    /\ (fst (ChaosWriter_Write c now p) = Panicked ->
        ws_events (snd (ChaosWriter_Write c now p))
        = sleep_events (bandwidth_wait c now p)
        /\ cw_w (ws_cw (snd (ChaosWriter_Write c now p))) = cw_w c
        /\ TotalWrites (cw_stats (ws_cw (snd (ChaosWriter_Write c now p))))
           = int64 (TotalWrites (cw_stats c) + 1)).
Proof.
  intros W HW c now p Hnd HJ.
  destruct (Write_reaches_latency c now p Hnd)
    as (s1 & E & Hev1 & _ & Hcfg & Hw & _ & Hst).
  rewrite E.
  destruct (add_latency_full p s1)
    as [(Hpos & Hneg & Ep)
       |(n & err & w' & delay & _ & Hout & _ & _ & _ & Hdelay)];
    rewrite Hcfg in *.
  - rewrite Ep. cbn [fst snd]. split.
    + split; [intros _|reflexivity].
      destruct (Z_lt_dec (Jitter (cw_cfg c)) (2 ^ 62)) as [Hs|Hs]; [|lia].
      rewrite int64_small in Hneg by (unfold is_int64; lia). lia.
    + intros _. rewrite Hst. split_ands; try assumption. reflexivity.
  - rewrite Hout. split; [|discriminate].
    split; [discriminate|]. intros Hbig. exfalso.
    destruct Hdelay as [[Hj _]|(_ & Hp & _)]; [lia|].
    rewrite int64_double_big in Hp by lia. lia.
Qed.

Lemma Write_panics_iff_jitter_wraps_witness :
  ChaosConfig_Validate (cw_cfg wrapping_writer) = None
  /\ fst (ChaosWriter_Write wrapping_writer 0 sample_chunk) = Panicked.
Proof.
  split; [vm_compute; reflexivity|].
  apply (Write_panics_iff_jitter_wraps limitedBuffer _ wrapping_writer 0
           sample_chunk).
  - intros [Hpos _]. vm_compute in Hpos. discriminate.
  - vm_compute. split; [discriminate | reflexivity].
  - vm_compute. discriminate.
Defined.

(** ** Latency statistics *)

Section LatencyStats.

#[local] Instance Qle_trans_inst : Transitive Qle.
Proof. intros x y z. apply Qle_trans. Qed.

#[local] Instance Qle_total_inst : Total Qle.
Proof.
  intros x y. destruct (Qlt_le_dec x y) as [Hlt|Hle].
  - left. now apply Qlt_le_weak.
  - now right.
Qed.

Lemma Float64s_sorted (l : list float64) : StronglySorted Qle (Float64s l).
Proof. apply StronglySorted_merge_sort; typeclasses eauto. Qed.

Lemma Float64s_perm (l : list float64) : Float64s l ≡ₚ l.
Proof. apply merge_sort_Permutation. Qed.

Lemma sorted_first_least (l : list float64) (x : float64) :
  StronglySorted Qle l -> In x l -> (nth 0 l 0 <= x)%Q.
Proof.
  intros Hs Hin. destruct l as [|a l]; [destruct Hin|].
  cbn [nth]. destruct Hin as [->|Hin]; [apply Qle_refl|].
  apply StronglySorted_inv in Hs as [_ Hall].
  rewrite List.Forall_forall in Hall. now apply Hall.
Qed.

Lemma sorted_last_greatest (l : list float64) :
  StronglySorted Qle l ->
  forall x : float64, In x l -> (x <= nth (List.length l - 1) l 0)%Q.
Proof.
  induction l as [|a l IH]; intros Hs x Hin; [destruct Hin|].
  apply StronglySorted_inv in Hs as [Hs Hall].
  rewrite List.Forall_forall in Hall.
  destruct l as [|b l].
  - destruct Hin as [->|[]]. cbn. apply Qle_refl.
  - replace (List.length (a :: b :: l) - 1)%nat
      with (S (List.length (b :: l) - 1)) by (cbn [List.length]; lia).
    set (k := (List.length (b :: l) - 1)%nat) in *.
    change (nth (S k) (a :: b :: l) 0%Q) with (nth k (b :: l) 0%Q).
    destruct Hin as [->|Hin]; [|now apply IH].
    apply Qle_trans with b; [apply Hall; now left|].
    apply (IH Hs). now left.
Qed.

Lemma nth_In_nonempty (l : list float64) (i : nat) :
  l <> [] -> (i < List.length l)%nat -> In (nth i l 0%Q) l.
Proof. intros _ Hi. now apply List.nth_In. Qed.

Lemma sum_between (lo hi : Q) (l : list float64) :
  (forall x, In x l -> (lo <= x)%Q /\ (x <= hi)%Q) ->
  forall acc : Q,
    (acc + lo * inject_Z (len l) <= fold_left Qplus l acc)%Q
    /\ (fold_left Qplus l acc <= acc + hi * inject_Z (len l))%Q.
Proof.
  induction l as [|a l IH]; intros Hb acc.
  - change (inject_Z (len [])) with 0%Q. cbn [fold_left]. split; lra.
  - destruct (Hb a (or_introl eq_refl)) as [Ha1 Ha2].
    destruct (IH (fun x Hx => Hb x (or_intror Hx)) (acc + a)%Q) as [I1 I2].
    cbn [fold_left]. unfold len in *. cbn [List.length].
    rewrite Nat2Z.inj_succ, <- Z.add_1_r, inject_Z_plus.
    change (inject_Z 1) with 1%Q. split; lra.
Qed.

Lemma calculateLatencyStats_nonempty (latencies : list float64) (r : Result) :
  latencies <> [] ->
  calculateLatencyStats latencies r
  = {| ID := ID r;
       Timestamp := Timestamp r;
       LocalPeer := LocalPeer r;
       RemotePeer := RemotePeer r;
       Result_Direction := Result_Direction r;
       RequestedSize := RequestedSize r;
       TransferredSize := TransferredSize r;
       DurationMs := DurationMs r;
       ThroughputBps := ThroughputBps r;
       ThroughputMbps := ThroughputMbps r;
       LatencyMinMs := nth 0 (Float64s latencies) 0%Q;
       LatencyMaxMs :=
         nth (List.length (Float64s latencies) - 1) (Float64s latencies) 0%Q;
       LatencyAvgMs :=
         (fold_left Qplus latencies 0 / inject_Z (len latencies))%Q;
       Success := Success r;
       Result_Error := Result_Error r;
       Result_Chaos := Result_Chaos r |}.
Proof.
  intros Hne. unfold calculateLatencyStats.
  destruct (Z.eqb_spec (len latencies) 0) as [E|_]; [|reflexivity].
  destruct latencies; [congruence|]. unfold len in E. cbn in E. lia.
Qed.

End LatencyStats.

(** X15: [calculateLatencyStats] leaves the result alone when there is no
    sample; otherwise the minimum and the maximum it stores are samples
    that bound every sample (so the minimum is at most the maximum), the
    average of samples that are not negative is not negative, and the
    transfer fields are not touched. *)
Theorem calculateLatencyStats_bounds :
  forall (latencies : list float64) (r : Result),
    (latencies = [] -> calculateLatencyStats latencies r = r)
    /\ (latencies <> [] ->
        let r' := calculateLatencyStats latencies r in
        In (LatencyMinMs r') latencies
        /\ In (LatencyMaxMs r') latencies
        /\ (forall x, In x latencies ->
              (LatencyMinMs r' <= x)%Q /\ (x <= LatencyMaxMs r')%Q)
        /\ (LatencyMinMs r' <= LatencyMaxMs r')%Q
        /\ ((forall x, In x latencies -> (0 <= x)%Q) ->
            (0 <= LatencyAvgMs r')%Q)
        /\ TransferredSize r' = TransferredSize r
        /\ DurationMs r' = DurationMs r
        /\ ThroughputBps r' = ThroughputBps r
        /\ ThroughputMbps r' = ThroughputMbps r).
Proof.
  intros latencies r. split; [intros ->; reflexivity|].
  intros Hne r'. subst r'.
  rewrite (calculateLatencyStats_nonempty latencies r Hne).
  cbn [LatencyMinMs LatencyMaxMs LatencyAvgMs TransferredSize DurationMs
       ThroughputBps ThroughputMbps].
  pose proof (Float64s_sorted latencies) as Hs.
  pose proof (Float64s_perm latencies) as Hp.
  assert (Hlen : List.length (Float64s latencies) = List.length latencies)
    by now apply Permutation_length.
  assert (Hpos : (0 < List.length latencies)%nat)
    by (destruct latencies; [congruence|cbn; lia]).
  assert (Hin : forall x, In x (Float64s latencies) <-> In x latencies).
  { intros x. split; apply Permutation_in; [exact Hp|now symmetry]. }
  assert (Hb : forall x, In x latencies ->
             (nth 0 (Float64s latencies) 0 <= x)%Q
             /\ (x <= nth (List.length (Float64s latencies) - 1)
                       (Float64s latencies) 0)%Q).
  { intros x Hx. apply Hin in Hx. split.
    - now apply sorted_first_least.
    - now apply sorted_last_greatest. }
  assert (Hn : (0 < inject_Z (len latencies))%Q).
  { unfold len. change 0%Q with (inject_Z 0). rewrite <- Zlt_Qlt. lia. }
  assert (Hmin : In (nth 0 (Float64s latencies) 0%Q) latencies)
    by (apply Hin, List.nth_In; lia).
  split_ands; try reflexivity.
  - exact Hmin.
  - apply Hin, List.nth_In. lia.
  - exact Hb.
  - apply (Hb _ Hmin).
  - intros H0.
    assert (Hb0 : forall x, In x latencies ->
               (0 <= x)%Q
               /\ (x <= nth (List.length (Float64s latencies) - 1)
                         (Float64s latencies) 0)%Q).
    { intros x Hx. split; [now apply H0 | now apply Hb]. }
    destruct (sum_between _ _ latencies Hb0 0%Q) as [S1 _].
    apply Qle_shift_div_l; [exact Hn|]. lra.
Qed.

Lemma calculateLatencyStats_bounds_witness :
  (LatencyMinMs (calculateLatencyStats [3; 1; 2]%Q sample_result)
   <= LatencyMaxMs (calculateLatencyStats [3; 1; 2]%Q sample_result))%Q
  /\ In (LatencyMaxMs (calculateLatencyStats [3; 1; 2]%Q sample_result))
       [3; 1; 2]%Q.
Proof.
  destruct (calculateLatencyStats_bounds [3; 1; 2]%Q sample_result)
    as [_ H].
  destruct (H ltac:(discriminate)) as (_ & Hmax & _ & Hlo & _).
  split; [exact Hlo | exact Hmax].
Defined.

(** ** Benchmarker: the peers of a round *)

Section BenchmarkerPeers.

Import Benchmarker.

Lemma fetchPeers_filter_spec (LocalPeer : string) (peers : list peerInfo) :
  fetchPeers_filter LocalPeer peers
  = filter (fun p => negb (String.eqb (Name p) LocalPeer)) peers.
Proof.
  unfold fetchPeers_filter.
  enough (Hgen : forall acc,
             fold_left
               (fun filtered p =>
                  if negb (String.eqb (Name p) LocalPeer)
                  then filtered ++ [p] else filtered) peers acc
             = acc ++ filter (fun p => negb (String.eqb (Name p) LocalPeer))
                        peers) by apply (Hgen []).
  induction peers as [|p peers IH]; intros acc.
  - cbn. now rewrite List.app_nil_r.
  - cbn [fold_left filter]. rewrite IH.
    destruct (negb (String.eqb (Name p) LocalPeer)); [|reflexivity].
    now rewrite <- List.app_assoc.
Qed.

Lemma swap_perm {A} (l l' : list A) (i j : nat) :
  swap l i j = Some l' -> l' ≡ₚ l /\ List.length l' = List.length l.
Proof.
  unfold swap. destruct (l !! i) as [a|] eqn:Ei; [|discriminate].
  destruct (l !! j) as [b|] eqn:Ej; [|discriminate].
  intros [= <-]. split.
  - apply Permutation_insert_swap; assumption.
  - now rewrite !length_insert.
Qed.

Lemma swap_in_range {A} (l : list A) (i j : nat) :
  (i < List.length l)%nat -> (j < List.length l)%nat ->
  exists l', swap l i j = Some l'.
Proof.
  intros Hi Hj. unfold swap.
  destruct (lookup_lt_is_Some_2 l i Hi) as [a ->].
  destruct (lookup_lt_is_Some_2 l j Hj) as [b ->]. eauto.
Qed.

Lemma Shuffle_perm {A} (i : nat) :
  forall (rng : Rand) (l : list A),
    (i < List.length l)%nat ->
    exists l' rng',
      Shuffle rng i l = Some (l', rng') /\ l' ≡ₚ l.
Proof.
  induction i as [|i IH]; intros rng l Hi.
  - exists l, rng. split; reflexivity.
  - cbn [Shuffle].
    pose proof (Rand_Int63n_range rng (Z.of_nat (S i) + 1)) as Hj.
    destruct (Rand_Int63n rng (Z.of_nat (S i) + 1)) as [[j rng']|]; [|lia].
    destruct (swap_in_range l (S i) (Z.to_nat j)) as [l1 Hs]; [lia|lia|].
    rewrite Hs. destruct (swap_perm _ _ _ _ Hs) as [Hp Hl].
    destruct (IH rng' l1) as (l' & rng'' & E & Hp'); [lia|].
    exists l', rng''. split; [exact E|]. now rewrite Hp'.
Qed.

Lemma submseteq_ListNoDup {A} (l k : list A) :
  l ⊆+ k -> List.NoDup k -> List.NoDup l.
Proof.
  intros Hs Hk. apply NoDup_ListNoDup. apply NoDup_ListNoDup in Hk.
  destruct (submseteq_Permutation _ _ Hs) as [k' Hp].
  rewrite Hp in Hk. apply list.NoDup_app in Hk. tauto.
Qed.

Lemma selectRandomPeers_spec (rng : Rand) (peers : list peerInfo) (n : Z) :
  0 <= n ->
  exists sel rng',
    selectRandomPeers rng peers n = Some (sel, rng')
    /\ len sel = Z.min n (len peers)
    /\ sel ⊆+ peers.
Proof.
  intros Hn. unfold selectRandomPeers.
  destruct (Z.leb_spec (len peers) n) as [Hle|Hgt].
  - exists peers, rng. split; [reflexivity|]. split; [lia|reflexivity].
  - unfold len in Hgt.
    destruct (Shuffle_perm (List.length peers - 1) rng peers)
      as (l' & rng' & -> & Hp); [lia|].
    destruct (Z.ltb_spec n 0); [lia|].
    exists (firstn (Z.to_nat n) l'), rng'. split; [reflexivity|]. split.
    + unfold len. rewrite List.length_firstn.
      apply Permutation_length in Hp. lia.
    + rewrite <- Hp. apply sublist_submseteq, sublist_take.
Qed.

End BenchmarkerPeers.

(** X16: [selectRandomPeers(peers, n)] with [n >= 0] does not panic and
    returns [min(n, len(peers))] peers that form a sub-multiset of [peers]
    (so no peer is taken more often than it is listed); and the peers a
    round of [runBenchmarks] goes through are at most two, none of them
    has the local peer's name, all of them come from the coordinator's
    list, and they are pairwise different entries when that list has no
    duplicate. *)
Theorem selected_peers_spec :
  forall (rng : Rand) (LocalPeer : string)
         (peers : list Benchmarker.peerInfo) (n : Z),
    0 <= n ->
    (exists sel rng',
        Benchmarker.selectRandomPeers rng peers n = Some (sel, rng')
        /\ len sel = Z.min n (len peers)
        /\ sel ⊆+ peers)
    /\ (exists sel rng',
           Benchmarker.selectedPeers rng LocalPeer peers = Some (sel, rng')
           /\ len sel
              = Z.min 2 (len (filter
                                (fun p => negb (String.eqb
                                                  (Benchmarker.Name p)
                                                  LocalPeer)) peers))
           /\ (forall p, In p sel ->
                 In p peers /\ Benchmarker.Name p <> LocalPeer)
           /\ (NoDup peers -> NoDup sel)).
Proof.
  intros rng LocalPeer peers n Hn.
  split; [now apply selectRandomPeers_spec|].
  unfold Benchmarker.selectedPeers. rewrite fetchPeers_filter_spec.
  set (f := fun p => negb (String.eqb (Benchmarker.Name p) LocalPeer)).
  assert (Hf : forall p, In p (filter f peers) ->
             In p peers /\ Benchmarker.Name p <> LocalPeer).
  { intros p Hp. apply List.filter_In in Hp as [Hin Hp]. split; [exact Hin|].
    unfold f in Hp. apply negb_true_iff in Hp.
    now apply String.eqb_neq in Hp. }
  destruct (Z.eqb_spec (len (filter f peers)) 0) as [E|_].
  - exists [], rng. rewrite E. split; [reflexivity|].
    split; [reflexivity|]. split; [intros p []|]. intros _. constructor.
  - destruct (selectRandomPeers_spec rng (filter f peers) 2)
      as (sel & rng' & -> & Hl & Hs); [lia|].
    exists sel, rng'. split; [reflexivity|]. split; [exact Hl|]. split.
    + intros p Hp. apply Hf.
      apply list_elem_of_In. apply list_elem_of_In in Hp.
      eapply elem_of_submseteq; eassumption.
    + intros Hnd. apply (submseteq_ListNoDup _ _ Hs).
      now apply List.NoDup_filter.
Qed.

Lemma selected_peers_spec_witness :
  exists sel rng',
    Benchmarker.selectedPeers
      {| float_draws := []; int_draws := [5; 7] |} "bench"
      mesh_peers = Some (sel, rng')
    /\ len sel = 2.
Proof.
  destruct (selected_peers_spec
              {| float_draws := []; int_draws := [5; 7] |} "bench"
              mesh_peers 2 ltac:(lia))
    as (_ & sel & rng' & E & Hl & _).
  exists sel, rng'. split; [exact E|]. rewrite Hl. vm_compute. reflexivity.
Defined.

(** ** Peer configuration *)

Lemma PeerConfig_Validate_None (c : PeerConfig) :
  PeerConfig_Validate c = None
  <-> PeerConfig_Name c <> ""%string
      /\ PeerConfig_Server c <> ""%string
      /\ 1 <= PeerConfig_SSHPort c <= 65535
      /\ 576 <= TUN_MTU (PeerConfig_TUN c) <= 65535.
Proof.
  unfold PeerConfig_Validate. rewrite !Z.gtb_ltb.
  destruct (String.eqb_spec (PeerConfig_Name c) "");
    [split; [discriminate|tauto]|].
  destruct (String.eqb_spec (PeerConfig_Server c) "");
    [split; [discriminate|tauto]|].
  destruct (Z.leb_spec (PeerConfig_SSHPort c) 0),
    (Z.ltb_spec 65535 (PeerConfig_SSHPort c)),
    (Z.ltb_spec (TUN_MTU (PeerConfig_TUN c)) 576),
    (Z.ltb_spec 65535 (TUN_MTU (PeerConfig_TUN c))); cbn [orb];
    (split; [intros Hv; try discriminate Hv; split_ands; try assumption; lia
            |intros (_ & _ & ? & ?); try reflexivity; lia]).
Qed.

(** X17: [PeerConfig.Validate] accepts a configuration that went through
    the defaults of [LoadPeerConfig] exactly when name and server are set
    and the SSH port and the MTU read from the file are either left out
    (0) or within 1..65535 and 576..65535; the defaults leave no default-able
    field at its zero value; and the resolver cannot be switched off while
    it listens on the default address: with [dns.listen] left out or equal
    to "127.0.0.53:5353", [dns.enabled] is true after loading whatever the
    file says, otherwise it is what the file says. *)
Theorem LoadPeerConfig_defaults_spec :
  forall (Join : string -> string -> string) (homeDir : option string)
         (cfg : PeerConfig),
    let c := LoadPeerConfig_defaults Join homeDir cfg in
    (PeerConfig_Validate c = None
     <-> PeerConfig_Name cfg <> ""%string
         /\ PeerConfig_Server cfg <> ""%string
         /\ (PeerConfig_SSHPort cfg = 0 \/ 1 <= PeerConfig_SSHPort cfg <= 65535)
         /\ (TUN_MTU (PeerConfig_TUN cfg) = 0
             \/ 576 <= TUN_MTU (PeerConfig_TUN cfg) <= 65535))
    /\ (PeerConfig_SSHPort c <> 0
        /\ TUN_Name (PeerConfig_TUN c) <> ""%string
        /\ TUN_MTU (PeerConfig_TUN c) <> 0
        /\ DNS_Listen (PeerConfig_DNS c) <> ""%string
        /\ DNS_CacheTTL (PeerConfig_DNS c) <> 0)
    /\ (DNS_Listen (PeerConfig_DNS cfg) = ""%string
        \/ DNS_Listen (PeerConfig_DNS cfg) = defaultDNSListen ->
        DNS_Enabled (PeerConfig_DNS c) = true)
    /\ (DNS_Listen (PeerConfig_DNS cfg) <> ""%string ->
        DNS_Listen (PeerConfig_DNS cfg) <> defaultDNSListen ->
        DNS_Enabled (PeerConfig_DNS c) = DNS_Enabled (PeerConfig_DNS cfg))
    /\ (String.prefix "~/" (PeerConfig_PrivateKey cfg) = false
        \/ homeDir = None ->
        PeerConfig_PrivateKey c = PeerConfig_PrivateKey cfg).
Proof.
  intros Join homeDir cfg c. subst c.
  destruct cfg as [name server token port key [tname mtu] [en listen ttl]].
  rewrite PeerConfig_Validate_None.
  unfold LoadPeerConfig_defaults.
  cbn [PeerConfig_Name PeerConfig_Server PeerConfig_AuthToken
       PeerConfig_SSHPort PeerConfig_PrivateKey PeerConfig_TUN PeerConfig_DNS
       TUN_Name TUN_MTU DNS_Enabled DNS_Listen DNS_CacheTTL].
  split_ands.
  - destruct (Z.eqb_spec port 0), (Z.eqb_spec mtu 0); intuition lia.
  - destruct (Z.eqb_spec port 0); [discriminate|assumption].
  - destruct (String.eqb_spec tname ""); [discriminate|assumption].
  - destruct (Z.eqb_spec mtu 0); [discriminate|assumption].
  - destruct (String.eqb_spec listen ""); [discriminate|assumption].
  - destruct (Z.eqb_spec ttl 0); [discriminate|assumption].
  - intros [->| ->]; cbn; now destruct en.
  - intros H1 H2. destruct (String.eqb_spec listen ""); [contradiction|].
    destruct (String.eqb_spec listen defaultDNSListen); [contradiction|].
    now rewrite andb_false_r.
  - intros [-> | ->]; [reflexivity|].
    now destruct (String.prefix "~/" key).
Qed.

Lemma LoadPeerConfig_defaults_spec_witness :
  PeerConfig_Validate
    (LoadPeerConfig_defaults String.append None minimal_peer_config) = None
  /\ DNS_Enabled
       (PeerConfig_DNS
          (LoadPeerConfig_defaults String.append None minimal_peer_config))
     = true.
Proof.
  destruct (LoadPeerConfig_defaults_spec String.append None
              minimal_peer_config) as (Hv & _ & Hdns & _).
  split.
  - apply Hv. vm_compute.
    split_ands; [discriminate | discriminate | now left | now left].
  - apply Hdns. now left.
Defined.

(** ** Client: the download loop *)

Section ClientDownload.

Context {W : Type} `{Writer W}.

Lemma ReadMessage_inv (r : bytes) (t : MessageType) (payload rest : bytes) :
  ReadMessage r = Ok ((t, payload), rest) ->
  r = frame t payload ++ rest /\ len payload < 2 ^ 32.
Proof.
  unfold ReadMessage, bind, ret.
  destruct (read_byte r) as [[t' r1]|e] eqn:E1; [|discriminate].
  destruct (read_uint32 r1) as [[L r2]|e] eqn:E2; [|discriminate].
  destruct (ReadFull (Z.to_nat L) r2) as [[data r3]|e] eqn:E3; [|discriminate].
  intros E. injection E as <- <- <-.
  apply read_byte_inv in E1. apply read_uint32_inv in E2.
  apply ReadFull_inv in E3.
  destruct E2 as [-> HL]. destruct E3 as [-> Hl]. subst r.
  unfold is_uint32 in HL.
  assert (Hlen : len data = L) by (unfold len; lia).
  unfold frame. rewrite Hlen, <- !List.app_assoc.
  split; [reflexivity|lia].
Qed.

Lemma frame_length (t : MessageType) (payload : bytes) :
  List.length (frame t payload) = (5 + List.length payload)%nat.
Proof.
  unfold frame, write_byte, write_uint32. cbn [List.length app].
  rewrite List.length_app, be_encode_length. lia.
Qed.

Lemma Byte_eqb_true (a b : byte) : Byte.eqb a b = true -> a = b.
Proof. apply Byte.byte_dec_bl. Qed.

Lemma calculateLatencyStats_transfer (latencies : list float64) (r : Result) :
  TransferredSize (calculateLatencyStats latencies r) = TransferredSize r
  /\ DurationMs (calculateLatencyStats latencies r) = DurationMs r.
Proof.
  unfold calculateLatencyStats.
  destruct (len latencies =? 0); split; reflexivity.
Qed.

Variable env : ClientEnv.
Variable startTime : Z.
Variable latencies : list float64.
Variable result : Result.

(** On a connection of finitely many bytes, iterations beyond their number
    are never used: [runDownload] allows the loop enough of them, and its
    [None] does not occur.  (This is about such connections only; the loop
    of the source has no bound of its own.) *)
Lemma download_loop_total (fuel : nat) :
  forall (received : Z) (s : ClientState W),
    (List.length (cs_in s) < fuel)%nat ->
    exists out,
      download_loop fuel env startTime received latencies result s = Some out.
Proof.
  induction fuel as [|fuel IH]; intros received s Hf; [lia|].
  cbn [download_loop]. unfold ctx_poll, time_Now, conn_ReadMessage.
  cbn [cs_in cs_out cs_ticks cs_polls cs_log].
  destruct (ctx_done env (cs_polls s)); [eauto|].
  destruct (ReadMessage (cs_in s)) as [[[mt data] rest]|e] eqn:ER; [|eauto].
  apply ReadMessage_inv in ER. destruct ER as [Hr _].
  assert (Hlen : (List.length rest < fuel)%nat).
  { rewrite Hr, List.length_app, frame_length in Hf. lia. }
  destruct (Byte.eqb mt MsgData).
  - destruct (Decode data) as [[dataMsg r']|e]; [|eauto].
    apply IH. exact Hlen.
  - destruct (Byte.eqb mt MsgComplete).
    + destruct (Decode data) as [[c r']|e]; eauto.
    + apply IH. exact Hlen.
Qed.

(** A run of the loop that ends well has read frames it went past and then
    a Complete. *)
Lemma download_loop_ok (fuel : nat) :
  forall (received : Z) (s : ClientState W) (r' : Result)
         (s' : ClientState W),
    is_int64 received ->
    download_loop fuel env startTime received latencies result s
    = Some (RunOk, r', s') ->
    exists (pre : list (MessageType * bytes)) (cpl : bytes),
      forallb frame_passed pre = true
      /\ cs_in s = frames pre ++ frame MsgComplete cpl ++ cs_in s'
      /\ len cpl < 2 ^ 32
      /\ (exists c rest, Decode (M := CompleteMessage) cpl = Ok (c, rest))
      /\ TransferredSize r' = int64 (received + data_total pre)
      /\ cs_out s' = cs_out s
      /\ cs_log s' = cs_log s
      /\ (forall i, (i <= List.length pre)%nat ->
            ctx_done env (cs_polls s + i) = false).
Proof.
  induction fuel as [|fuel IH]; intros received s r' s' Hrec; [discriminate|].
  cbn [download_loop]. unfold ctx_poll, time_Now, conn_ReadMessage.
  cbn [cs_in cs_out cs_ticks cs_polls cs_log].
  destruct (ctx_done env (cs_polls s)) eqn:Ed; [discriminate|].
  destruct (ReadMessage (cs_in s)) as [[[mt data] rest]|e] eqn:ER;
    [|discriminate].
  apply ReadMessage_inv in ER. destruct ER as [Hr Hl].
  destruct (Byte.eqb mt MsgData) eqn:Emt.
  - destruct (Decode data) as [[dataMsg rd]|e] eqn:ED; [|discriminate].
    intros Hrun. apply IH in Hrun; [|apply int64_range].
    destruct Hrun as (pre & cpl & Hp & Hin & Hc & Hdec & Ht & Ho & Hlog & Hctx).
    cbn [cs_in cs_out cs_ticks cs_polls cs_log set_in] in *.
    exists ((mt, data) :: pre), cpl.
    assert (Hfd : frame_data (mt, data) = len (Data_Data dataMsg)).
    { unfold frame_data. cbn [fst snd]. now rewrite Emt, ED. }
    split_ands; try assumption.
    + cbn [forallb]. rewrite Hp, andb_true_r. unfold frame_passed.
      cbn [fst snd]. rewrite Emt, ED.
      apply Byte_eqb_true in Emt. subst mt.
      destruct (Z.ltb_spec (len data) (2 ^ 32)); [reflexivity|lia].
    + rewrite Hr, Hin. unfold frames. cbn [flat_map fst snd].
      now rewrite <- !List.app_assoc.
    + rewrite Ht. unfold data_total. cbn [fold_right]. rewrite Hfd.
      apply int64_add_add.
    + intros [|i] Hi; [now rewrite Nat.add_0_r|].
      cbn [List.length] in Hi. specialize (Hctx i ltac:(lia)).
      now replace (cs_polls s + S i)%nat with (S (cs_polls s) + i)%nat by lia.
  - destruct (Byte.eqb mt MsgComplete) eqn:Ec.
    + destruct (Decode data) as [[c rd]|e] eqn:ED; [|discriminate].
      intros Hrun. injection Hrun as <- <-.
      apply Byte_eqb_true in Ec. subst mt.
      exists [], data. cbn [cs_in cs_out cs_ticks cs_polls cs_log set_in].
      split_ands; try reflexivity; try assumption.
      * eauto.
      * destruct (calculateLatencyStats_transfer latencies
                    (set_transfer result received
                       (Milliseconds
                          (Time_Sub (clock env (S (cs_ticks s))) startTime))))
          as [-> _].
        cbn [set_transfer TransferredSize data_total fold_right].
        rewrite Z.add_0_r. symmetry. now apply int64_small.
      * intros i Hi. cbn [List.length] in Hi.
        replace i with 0%nat by lia. now rewrite Nat.add_0_r.
    + intros Hrun. apply IH in Hrun; [|exact Hrec].
      destruct Hrun
        as (pre & cpl & Hp & Hin & Hc & Hdec & Ht & Ho & Hlog & Hctx).
      cbn [cs_in cs_out cs_ticks cs_polls cs_log set_in] in *.
      exists ((mt, data) :: pre), cpl.
      assert (Hfd : frame_data (mt, data) = 0).
      { unfold frame_data. cbn [fst snd]. now rewrite Emt. }
      split_ands; try assumption.
      * cbn [forallb]. rewrite Hp, andb_true_r. unfold frame_passed.
        cbn [fst snd]. rewrite Emt, Ec.
        destruct (Z.ltb_spec (len data) (2 ^ 32)); [reflexivity|lia].
      * rewrite Hr, Hin. unfold frames. cbn [flat_map fst snd].
        now rewrite <- !List.app_assoc.
      * rewrite Ht. unfold data_total. cbn [fold_right]. rewrite Hfd.
        f_equal.
      * intros [|i] Hi; [now rewrite Nat.add_0_r|].
        cbn [List.length] in Hi. specialize (Hctx i ltac:(lia)).
        now replace (cs_polls s + S i)%nat with (S (cs_polls s) + i)%nat
          by lia.
Qed.

(** Frames the loop goes past and then a Complete: the loop ends well. *)
Lemma download_loop_frames (pre : list (MessageType * bytes))
  (cpl rest : bytes) :
  len cpl < 2 ^ 32 ->
  (exists c rd, Decode (M := CompleteMessage) cpl = Ok (c, rd)) ->
  forall (fuel : nat) (received : Z) (s : ClientState W),
    forallb frame_passed pre = true ->
    cs_in s = frames pre ++ frame MsgComplete cpl ++ rest ->
    (forall i, (i <= List.length pre)%nat ->
       ctx_done env (cs_polls s + i) = false) ->
    (List.length pre < fuel)%nat ->
    is_int64 received ->
    exists r' s',
      download_loop fuel env startTime received latencies result s
      = Some (RunOk, r', s')
      /\ TransferredSize r' = int64 (received + data_total pre)
      /\ DurationMs r'
         = Milliseconds
             (Time_Sub (clock env (cs_ticks s + List.length pre + 1))
                startTime)
      /\ cs_in s' = rest
      /\ cs_out s' = cs_out s.
Proof.
  intros Hc (c & rd & Hdec).
  induction pre as [|[mt data] pre IH];
    intros fuel received s Hp Hin Hctx Hf Hrec;
    (destruct fuel as [|fuel]; [cbn [List.length] in Hf; lia|]);
    cbn [download_loop]; unfold ctx_poll, time_Now, conn_ReadMessage;
    cbn [cs_in cs_out cs_ticks cs_polls cs_log];
    pose proof (Hctx 0%nat ltac:(lia)) as H0; rewrite Nat.add_0_r in H0;
    rewrite H0, Hin.
  - unfold frames. cbn [flat_map app]. unfold frame.
    rewrite <- !List.app_assoc, ReadMessage_frame by exact Hc.
    change (Byte.eqb MsgComplete MsgData) with false.
    change (Byte.eqb MsgComplete MsgComplete) with true.
    cbn iota. rewrite Hdec.
    eexists _, _. split; [reflexivity|].
    match goal with
    | |- context [calculateLatencyStats ?l ?r] =>
        destruct (calculateLatencyStats_transfer l r) as [-> ->]
    end.
    cbn [set_transfer TransferredSize DurationMs data_total fold_right
         List.length set_in cs_in cs_out].
    rewrite Z.add_0_r, int64_small by exact Hrec.
    replace (cs_ticks s + 0 + 1)%nat with (S (cs_ticks s)) by lia.
    split_ands; reflexivity.
  - cbn [forallb] in Hp. apply andb_true_iff in Hp as [Hfp Hp].
    unfold frame_passed in Hfp. cbn [fst snd] in Hfp.
    apply andb_true_iff in Hfp as [Hfp Hdd].
    apply andb_true_iff in Hfp as [Hnc Hlen].
    apply negb_true_iff in Hnc. apply Z.ltb_lt in Hlen.
    unfold frames. cbn [flat_map fst snd]. unfold frame at 1.
    rewrite <- !List.app_assoc, ReadMessage_frame by exact Hlen.
    cbn iota.
    assert (Hctx' : forall i, (i <= List.length pre)%nat ->
              ctx_done env (S (cs_polls s) + i) = false).
    { intros i Hi. specialize (Hctx (S i)). cbn [List.length] in Hctx.
      replace (S (cs_polls s) + i)%nat with (cs_polls s + S i)%nat by lia.
      apply Hctx. lia. }
    cbn [List.length] in Hf.
    destruct (Byte.eqb mt MsgData) eqn:Emt.
    + destruct (Decode data) as [[dataMsg rd']|e] eqn:ED; [|discriminate].
      destruct (IH fuel (int64 (received + int64 (len (Data_Data dataMsg))))
                  (set_in
                     {| cs_in := cs_in s; cs_out := cs_out s;
                        cs_ticks := S (cs_ticks s);
                        cs_polls := S (cs_polls s); cs_log := cs_log s |}
                     (flat_map (fun f => frame (fst f) (snd f)) pre
                        ++ frame MsgComplete cpl ++ rest)))
        as (r' & s' & E & Ht & Hd & Hi & Ho);
        [exact Hp | reflexivity | exact Hctx' | lia | apply int64_range |].
      exists r', s'. split; [exact E|].
      cbn [set_in cs_in cs_out cs_ticks cs_polls] in *.
      split_ands; try assumption.
      * rewrite Ht. unfold data_total, frame_data. cbn [fold_right fst snd].
        rewrite Emt, ED. apply int64_add_add.
      * rewrite Hd. cbn [List.length]. do 3 f_equal. lia.
    + rewrite Hnc.
      destruct (IH fuel received
                  (set_in
                     {| cs_in := cs_in s; cs_out := cs_out s;
                        cs_ticks := S (cs_ticks s);
                        cs_polls := S (cs_polls s); cs_log := cs_log s |}
                     (flat_map (fun f => frame (fst f) (snd f)) pre
                        ++ frame MsgComplete cpl ++ rest)))
        as (r' & s' & E & Ht & Hd & Hi & Ho);
        [exact Hp | reflexivity | exact Hctx' | lia | exact Hrec |].
      exists r', s'. split; [exact E|].
      cbn [set_in cs_in cs_out cs_ticks cs_polls] in *.
      split_ands; try assumption.
      * rewrite Ht. unfold data_total, frame_data. cbn [fold_right fst snd].
        rewrite Emt. reflexivity.
      * rewrite Hd. cbn [List.length]. do 3 f_equal. lia.
Qed.

End ClientDownload.

Lemma frames_length (pre : list (MessageType * bytes)) :
  (List.length pre <= List.length (frames pre))%nat.
Proof.
  induction pre as [|[t p] pre IH]; [reflexivity|].
  unfold frames in *. cbn [flat_map fst snd List.length].
  rewrite List.length_app, frame_length. lia.
Qed.



(** ** Client: the upload loop *)

Section ClientUpload.

Context {W : Type} `{Writer W}.

Lemma data_log_app (l1 l2 : list ClientEvent) :
  data_log (l1 ++ l2) = data_log l1 ++ data_log l2.
Proof. unfold data_log. apply List.flat_map_app. Qed.

Lemma conn_WriteMessage_log {M} `{Message M} (t : MessageType) (m : M)
  (s : ClientState W) :
  cs_log (snd (conn_WriteMessage t m s)) = cs_log s ++ [EvSend t (Encode m)].
Proof.
  unfold conn_WriteMessage, log_event, set_out.
  cbn [cs_in cs_out cs_ticks cs_polls cs_log].
  destruct (Writer_Write (cs_out s) (write_byte t)) as [[n1 [e1|]] w1];
    [reflexivity|].
  destruct (Writer_Write w1 (write_uint32 (uint32 (len (Encode m)))))
    as [[n2 [e2|]] w2]; [reflexivity|].
  destruct (Writer_Write w2 (Encode m)) as [[n3 e3] w3]. reflexivity.
Qed.

Lemma conn_ReadMessage_log (s : ClientState W) :
  cs_log (snd (conn_ReadMessage s)) = cs_log s.
Proof.
  unfold conn_ReadMessage.
  destruct (ReadMessage (cs_in s)) as [[m rest]|e]; reflexivity.
Qed.

Lemma measureLatency_data_log (env : ClientEnv) (seqNum : Z)
  (s : ClientState W) :
  data_log (cs_log (snd (measureLatency env seqNum s))) = data_log (cs_log s).
Proof.
  unfold measureLatency, time_Now.
  match goal with
  | |- context [conn_WriteMessage ?t ?m ?s0] =>
      pose proof (conn_WriteMessage_log t m s0) as Hw;
      destruct (conn_WriteMessage t m s0) as [err s1]
  end.
  cbn [snd cs_log] in Hw.
  assert (Hd : data_log (cs_log s1) = data_log (cs_log s)).
  { rewrite Hw, data_log_app. cbn. apply List.app_nil_r. }
  destruct err as [e|]; [exact Hd|].
  cbn [cs_in cs_out cs_ticks cs_polls cs_log].
  match goal with
  | |- context [conn_ReadMessage ?s0] =>
      pose proof (conn_ReadMessage_log s0) as Hr;
      destruct (conn_ReadMessage s0) as [r s2]
  end.
  cbn [snd cs_log] in Hr.
  destruct r as [[mt data]|e]; cbn [snd]; [|now rewrite Hr].
  destruct (negb (Byte.eqb mt MsgPong)); cbn [snd]; [now rewrite Hr|].
  destruct (Decode data) as [[pong rd]|e]; cbn [snd cs_log]; now rewrite Hr.
Qed.

Lemma periodic_ping_data_log (env : ClientEnv) (seqNum : Z)
  (latencies : list float64) (s : ClientState W) :
  data_log (cs_log (snd (periodic_ping env seqNum latencies s)))
  = data_log (cs_log s).
Proof.
  unfold periodic_ping. destruct (seqNum mod 10 =? 0); [|reflexivity].
  pose proof (measureLatency_data_log env seqNum s) as Hm.
  destruct (measureLatency env seqNum s) as [latency s1]. exact Hm.
Qed.

Lemma send_data_log (env : ClientEnv) (cw : option (ChaosWriter W))
  (dataMsg : DataMessage) (s : ClientState W) :
  data_log (cs_log (snd (send_data env cw dataMsg s)))
  = data_log (cs_log s) ++ [dataMsg].
Proof.
  unfold send_data. destruct cw as [cw|].
  - unfold time_Now, log_event.
    cbn [cs_in cs_out cs_ticks cs_polls cs_log].
    destruct (ChaosWriter_Write _ _ _) as [out ws].
    cbn [snd set_out cs_log]. now rewrite data_log_app.
  - match goal with
    | |- context [conn_WriteMessage ?t ?m ?s0] =>
        pose proof (conn_WriteMessage_log t m s0) as Hw;
        destruct (conn_WriteMessage t m s0) as [err s1]
    end.
    cbn [snd cs_log log_event] in *. rewrite Hw, !data_log_app. cbn.
    now rewrite List.app_nil_r.
Qed.

Lemma chunk_count_spec (size : Z) (i : nat) :
  Z.of_nat i * ChunkSize < size <-> Z.of_nat i < chunk_count size.
Proof.
  unfold chunk_count, ChunkSize. change (64 * 1024) with 65536. split.
  - intros Hlt.
    enough (Z.of_nat i + 1 <= (size + 65536 - 1) / 65536) by lia.
    apply Z.div_le_lower_bound; lia.
  - intros Hlt.
    destruct (Z_lt_dec (Z.of_nat i * 65536) size) as [|Hge]; [assumption|].
    exfalso.
    enough ((size + 65536 - 1) / 65536 < Z.of_nat i + 1) by lia.
    apply Z.div_lt_upper_bound; lia.
Qed.

Lemma chunk_count_nonneg (size : Z) : 0 <= size -> 0 <= chunk_count size.
Proof.
  intros Hs. unfold chunk_count, ChunkSize. apply Z.div_pos; lia.
Qed.

Lemma chunk_count_le (size : Z) :
  0 <= size -> chunk_count size <= size / ChunkSize + 1.
Proof.
  intros Hs. unfold chunk_count, ChunkSize. change (64 * 1024) with 65536.
  replace (size / 65536 + 1) with ((size + 1 * 65536) / 65536)
    by (rewrite Z.div_add by lia; reflexivity).
  apply Z.div_le_mono; lia.
Qed.

Lemma uint32_succ (a : Z) : uint32 (uint32 a + 1) = uint32 (a + 1).
Proof. unfold uint32, wrap. now rewrite Zplus_mod_idemp_l. Qed.

Variable env : ClientEnv.
Variable cfg : Config.
Hypothesis Size_range : 0 <= Size cfg < 2 ^ 63.

(** Enough evaluations of the condition: the loop ends. *)
Lemma upload_loop_total (fuel : nat) :
  forall (i : nat) (v : UploadVars) (s : ClientState W),
    up_sent v = Z.min (Z.of_nat i * ChunkSize) (Size cfg) ->
    Z.of_nat i <= chunk_count (Size cfg) ->
    chunk_count (Size cfg) - Z.of_nat i < Z.of_nat fuel ->
    exists out, upload_loop fuel env cfg v s = Some out.
Proof.
  induction fuel as [|fuel IH]; intros i v s Hsent Hik Hf; [lia|].
  - cbn [upload_loop].
    destruct (Z.ltb_spec (up_sent v) (Size cfg)) as [Hlt|Hge]; cbn [negb];
      [|eauto].
    unfold ctx_poll. cbn [cs_in cs_out cs_ticks cs_polls cs_log].
    destruct (ctx_done env (cs_polls s)); [eauto|].
    destruct (send_data _ _ _ _) as [[out cw'] s1].
    destruct out as [n [e|]|]; [eauto| |eauto].
    destruct (periodic_ping _ _ _ _) as [lat s2].
    assert (Hi : Z.of_nat i * ChunkSize < Size cfg) by lia.
    pose proof (proj1 (chunk_count_spec (Size cfg) i) Hi) as Hlt'.
    apply (IH (S i)); [|lia|lia].
    cbn [up_sent]. rewrite Hsent.
      rewrite (Z.min_l (Z.of_nat i * ChunkSize)) by lia.
      rewrite (int64_small (Size cfg - Z.of_nat i * ChunkSize))
        by (unfold is_int64, ChunkSize in *; lia).
      unfold ChunkSize in *.
      destruct (Z.ltb_spec (Size cfg - Z.of_nat i * (64 * 1024)) (64 * 1024));
        rewrite int64_small by (unfold is_int64; lia); lia.
Qed.

(** A run of the loop that ends well has offered the chunks of the plan,
    from the [i]-th on. *)
Lemma upload_loop_ok (fuel : nat) :
  forall (i : nat) (v : UploadVars) (s : ClientState W)
         (v' : UploadVars) (s' : ClientState W),
    up_sent v = Z.min (Z.of_nat i * ChunkSize) (Size cfg) ->
    up_seqNum v = uint32 (Z.of_nat i) ->
    Z.of_nat i <= chunk_count (Size cfg) ->
    upload_loop fuel env cfg v s = Some (RunOk, v', s') ->
    up_sent v' = Size cfg
    /\ up_seqNum v' = uint32 (chunk_count (Size cfg))
    /\ data_log (cs_log s')
       = data_log (cs_log s)
         ++ map (planned_chunk (chunk env) (Size cfg))
              (seq i (Z.to_nat (chunk_count (Size cfg)) - i)).
Proof.
  induction fuel as [|fuel IH]; intros i v s v' s' Hsent Hseq Hi;
    [discriminate|].
  cbn [upload_loop].
  destruct (Z.ltb_spec (up_sent v) (Size cfg)) as [Hlt|Hge]; cbn [negb].
  - assert (Hic : Z.of_nat i * ChunkSize < Size cfg) by lia.
    pose proof (proj1 (chunk_count_spec (Size cfg) i) Hic) as Hik.
    assert (Es : up_sent v = Z.of_nat i * ChunkSize) by lia.
    assert (Er : int64 (Size cfg - up_sent v)
                 = Size cfg - Z.of_nat i * ChunkSize).
    { rewrite Es. apply int64_small. unfold is_int64, ChunkSize in *. lia. }
    rewrite Er.
    assert (Ed : (if Size cfg - Z.of_nat i * ChunkSize <? ChunkSize
                  then Size cfg - Z.of_nat i * ChunkSize else ChunkSize)
                 = Z.min ChunkSize (Size cfg - Z.of_nat i * ChunkSize)).
    { destruct (Z.ltb_spec (Size cfg - Z.of_nat i * ChunkSize) ChunkSize);
        lia. }
    rewrite Ed.
    unfold ctx_poll. cbn [cs_in cs_out cs_ticks cs_polls cs_log].
    destruct (ctx_done env (cs_polls s)); [discriminate|].
    match goal with
    | |- context [send_data ?e ?c ?m ?s0] =>
        pose proof (send_data_log e c m s0) as Hlog;
        destruct (send_data e c m s0) as [[out cw'] s1]
    end.
    cbn [snd cs_log] in Hlog.
    destruct out as [n [e|]|]; [discriminate| |discriminate].
    match goal with
    | |- context [periodic_ping ?e ?q ?l ?s0] =>
        pose proof (periodic_ping_data_log e q l s0) as Hping;
        destruct (periodic_ping e q l s0) as [lat s2]
    end.
    cbn [snd] in Hping.
    intros Hrun. apply (IH (S i)) in Hrun.
    + destruct Hrun as (Hs' & Hq' & Hl'). split; [exact Hs'|].
      split; [exact Hq'|].
      rewrite Hl', Hping, Hlog, <- List.app_assoc. f_equal.
      replace (Z.to_nat (chunk_count (Size cfg)) - i)%nat
        with (S (Z.to_nat (chunk_count (Size cfg)) - S i)) by lia.
      cbn [seq map app]. f_equal.
      unfold planned_chunk. now rewrite Hseq.
    + cbn [up_sent]. rewrite Es. unfold ChunkSize in *.
      rewrite int64_small by (unfold is_int64; lia). lia.
    + cbn [up_seqNum]. rewrite Hseq, uint32_succ. f_equal. lia.
    + lia.
  - intros Hrun. injection Hrun as <- <-.
    assert (Hge' : Size cfg <= Z.of_nat i * ChunkSize) by lia.
    assert (Hk : Z.of_nat i = chunk_count (Size cfg)).
    { pose proof (chunk_count_spec (Size cfg) i) as Hc.
      assert (~ Z.of_nat i < chunk_count (Size cfg))
        by (rewrite <- Hc; lia).
      lia. }
    split; [lia|]. split; [now rewrite Hseq, Hk|].
    replace (Z.to_nat (chunk_count (Size cfg)) - i)%nat with 0%nat by lia.
    cbn [seq map]. now rewrite List.app_nil_r.
Qed.

Lemma upload_from_ping_spec (result : Result) (startTime : Z)
  (cw : option (ChaosWriter W)) (s : ClientState W) :
  (exists out, upload_from_ping env cfg result startTime cw s = Some out)
  /\ (forall r' s',
         upload_from_ping env cfg result startTime cw s
         = Some (RunOk, r', s') ->
         TransferredSize r' = Size cfg
         /\ data_log (cs_log s')
            = data_log (cs_log s) ++ upload_plan (chunk env) (Size cfg)).
Proof.
  unfold upload_from_ping.
  pose proof (measureLatency_data_log env 0 s) as Hm0.
  destruct (measureLatency env 0 s) as [latency s0]. cbn [snd] in Hm0.
  set (v0 := {| up_sent := 0; up_seqNum := 0;
                up_latencies := add_latency_sample [] latency;
                up_chaosWriter := cw |}).
  assert (Hk0 : 0 <= chunk_count (Size cfg))
    by (apply chunk_count_nonneg; lia).
  destruct (upload_loop_total (S (Z.to_nat (Size cfg / ChunkSize + 1)))
              0%nat v0 s0) as [[[rr v] s1] Eloop].
  { cbn [v0 up_sent]. lia. }
  { cbn. exact Hk0. }
  { pose proof (chunk_count_le (Size cfg) ltac:(lia)).
    assert (0 <= Size cfg / ChunkSize)
      by (apply Z.div_pos; unfold ChunkSize; lia).
    lia. }
  rewrite Eloop.
  destruct rr as [|e|].
  2: { split; [eauto|discriminate]. }
  2: { split; [eauto|discriminate]. }
  destruct (upload_loop_ok (S (Z.to_nat (Size cfg / ChunkSize + 1))) 0%nat
              v0 s0 v s1) as (Hs & _ & Hl).
  { cbn [v0 up_sent]. lia. }
  { reflexivity. }
  { cbn. exact Hk0. }
  { exact Eloop. }
  rewrite Nat.sub_0_r in Hl. fold (upload_plan (chunk env) (Size cfg)) in Hl.
  match goal with
  | |- context [measureLatency ?e ?q ?s0] =>
      pose proof (measureLatency_data_log e q s0) as Hm1;
      destruct (measureLatency e q s0) as [latency1 s2]
  end.
  cbn [snd] in Hm1. unfold time_Now.
  match goal with
  | |- context [conn_WriteMessage ?t ?m ?s0] =>
      pose proof (conn_WriteMessage_log t m s0) as Hw;
      destruct (conn_WriteMessage t m s0) as [err s3]
  end.
  cbn [snd cs_log] in Hw.
  destruct err as [e|]; [split; [eauto|discriminate]|].
  pose proof (conn_ReadMessage_log s3) as Hr.
  destruct (conn_ReadMessage s3) as [r s4]. cbn [snd] in Hr.
  destruct r as [[mt data]|e]; [|split; [eauto|discriminate]].
  destruct (negb (Byte.eqb mt MsgComplete)); [split; [eauto|discriminate]|].
  destruct (Decode data) as [[c rd]|e]; [|split; [eauto|discriminate]].
  split; [eauto|]. intros r' s' E. injection E as <- <-.
  match goal with
  | |- context [calculateLatencyStats ?l ?r] =>
      destruct (calculateLatencyStats_transfer l r) as [-> _]
  end.
  cbn [set_transfer TransferredSize]. split; [exact Hs|].
  rewrite Hr, Hw, data_log_app, Hm1, Hl, Hm0. cbn.
  now rewrite List.app_nil_r.
Qed.

Lemma planned_chunk_length (size : Z) (i : nat) :
  len (chunk env) = ChunkSize ->
  Z.of_nat i * ChunkSize < size ->
  len (Data_Data (planned_chunk (chunk env) size i))
  = Z.min ChunkSize (size - Z.of_nat i * ChunkSize).
Proof.
  intros Hc Hi. unfold planned_chunk. cbn [Data_Data]. unfold len in *.
  rewrite List.length_firstn. unfold ChunkSize in *. lia.
Qed.

Lemma plan_bytes_from (size : Z) (n : nat) :
  len (chunk env) = ChunkSize ->
  forall j : nat,
    (j + n)%nat = Z.to_nat (chunk_count size) ->
    plan_bytes (map (planned_chunk (chunk env) size) (seq j n))
    = size - Z.min (Z.of_nat j * ChunkSize) size.
Proof.
  intros Hc. induction n as [|n IH]; intros j Hj.
  - cbn. pose proof (chunk_count_spec size j) as Hs.
    assert (~ Z.of_nat j < chunk_count size) by lia.
    assert (size <= Z.of_nat j * ChunkSize) by lia. lia.
  - cbn [seq map plan_bytes fold_right].
    fold (plan_bytes (map (planned_chunk (chunk env) size) (seq (S j) n))).
    rewrite (IH (S j)) by lia.
    assert (Hlt : Z.of_nat j < chunk_count size) by lia.
    apply chunk_count_spec in Hlt.
    rewrite planned_chunk_length by assumption.
    unfold ChunkSize in *. lia.
Qed.

End ClientUpload.

(** X19: [runUpload] always returns or panics (its loop ends).  When it
    returns nil, [TransferredSize] is the size that was asked for, whatever
    the server's Complete says it received and whether or not the chaos
    writer dropped frames; and the data messages it has offered to the
    connection or to the chaos writer are those of the plan, in order:
    message [i] carries sequence number [i] (modulo 2^32) and the first
    [min(ChunkSize, Size - i * ChunkSize)] bytes of the chunk.  The plan
    has [ceil(Size / ChunkSize)] messages, each with between 1 and
    [ChunkSize] data bytes, [Size] in all. *)
Theorem runUpload_sends_size :
  forall (W : Type) (HW : Writer W) (env : ClientEnv) (cfg : Config)
         (result : Result) (s : ClientState W),
    0 <= Size cfg < 2 ^ 63 ->
    len (chunk env) = ChunkSize ->
    (exists out, runUpload env cfg result s = Some out)
    /\ (forall r' s',
           runUpload env cfg result s = Some (RunOk, r', s') ->
           TransferredSize r' = Size cfg
           /\ data_log (cs_log s')
              = data_log (cs_log s) ++ upload_plan (chunk env) (Size cfg))
    /\ len (upload_plan (chunk env) (Size cfg)) = chunk_count (Size cfg)
    /\ plan_bytes (upload_plan (chunk env) (Size cfg)) = Size cfg
    /\ Forall (fun m => 0 < len (Data_Data m) <= ChunkSize)
         (upload_plan (chunk env) (Size cfg)).
Proof.
  intros W HW env cfg result s HS Hc.
  assert (Hk0 : 0 <= chunk_count (Size cfg))
    by (apply chunk_count_nonneg; lia).
  assert (Hrun :
    (exists out, runUpload env cfg result s = Some out)
    /\ (forall r' s',
           runUpload env cfg result s = Some (RunOk, r', s') ->
           TransferredSize r' = Size cfg
           /\ data_log (cs_log s')
              = data_log (cs_log s) ++ upload_plan (chunk env) (Size cfg))).
  { unfold runUpload, time_Now.
    destruct (ChaosConfig_IsEnabled (Chaos cfg));
      [destruct (BandwidthBps (Chaos cfg) >? 0)|];
      cbn [cs_in cs_out cs_ticks cs_polls cs_log];
      match goal with
      | |- context [upload_from_ping ?e ?c ?r ?t ?w ?s0] =>
          exact (upload_from_ping_spec e c HS r t w s0)
      end. }
  destruct Hrun as [Ht Hok]. split; [exact Ht|]. split; [exact Hok|].
  split_ands.
  - unfold upload_plan, len. rewrite List.length_map, List.length_seq. lia.
  - unfold upload_plan.
    rewrite (plan_bytes_from env (Size cfg)
               (Z.to_nat (chunk_count (Size cfg))) Hc 0%nat) by lia.
    cbn. lia.
  - unfold upload_plan. apply List.Forall_forall. intros m Hm.
    apply List.in_map_iff in Hm as (i & <- & Hi).
    apply List.in_seq in Hi.
    assert (Hlt : Z.of_nat i < chunk_count (Size cfg)) by lia.
    apply chunk_count_spec in Hlt.
    rewrite planned_chunk_length by assumption.
    unfold ChunkSize in *. lia.
Qed.

Lemma runUpload_sends_size_witness :
  exists r' s',
    runUpload dropping_env lossy_upload sample_result upload_conn
    = Some (RunOk, r', s')
    /\ TransferredSize r' = 300
    /\ len (buf (cs_out s')) = 55.
Proof.
  destruct (runUpload_sends_size limitedBuffer _ dropping_env lossy_upload
              sample_result upload_conn) as (_ & Hok & _).
  - vm_compute. split; [discriminate | reflexivity].
  - unfold dropping_env, chunk, len. rewrite repeat_length.
    vm_compute. reflexivity.
  - assert (Hrun : exists r' s',
               runUpload dropping_env lossy_upload sample_result upload_conn
               = Some (RunOk, r', s')
               /\ len (buf (cs_out s')) = 55).
    { vm_compute. eexists _, _. split; reflexivity. }
    destruct Hrun as (r' & s' & E & Hb).
    exists r', s'. split; [exact E|]. split; [|exact Hb].
    apply (Hok r' s' E).
Defined.

(** ** Client: the latency probe *)

Section ClientPing.

Context {W : Type} `{Writer W}.

Lemma Pong_reads_exactly : reads_exactly (Decode (M := PongMessage)) 12.
Proof.
  exact (reads_exactly_pair read_uint32 read_int64
           (fun a b => {| Pong_SeqNum := a; Pong_PingTimestamp := b |})
           4 8 (read_uint_exactly 4) read_int64_exactly).
Qed.

Lemma conn_WriteMessage_keeps {M} `{Message M} (t : MessageType) (m : M)
  (s : ClientState W) :
  cs_in (snd (conn_WriteMessage t m s)) = cs_in s
  /\ cs_ticks (snd (conn_WriteMessage t m s)) = cs_ticks s
  /\ cs_polls (snd (conn_WriteMessage t m s)) = cs_polls s.
Proof.
  unfold conn_WriteMessage, log_event, set_out.
  cbn [cs_in cs_out cs_ticks cs_polls cs_log].
  destruct (Writer_Write (cs_out s) (write_byte t)) as [[n1 [e1|]] w1];
    [now split_ands|].
  destruct (Writer_Write w1 (write_uint32 (uint32 (len (Encode m)))))
    as [[n2 [e2|]] w2]; [now split_ands|].
  destruct (Writer_Write w2 (Encode m)) as [[n3 e3] w3]. now split_ands.
Qed.

End ClientPing.



(** ** Client: a whole run *)

Section ClientRunFacts.

Context {W : Type} `{Writer W}.

Lemma download_loop_kept (env : ClientEnv) (startTime : Z)
  (latencies : list float64) (result : Result) (fuel : nat) :
  forall (received : Z) (s : ClientState W) rr r' s',
    download_loop fuel env startTime received latencies result s
    = Some (rr, r', s') ->
    transfer_kept result r' rr.
Proof.
  induction fuel as [|fuel IH]; intros received s rr r' s'; [discriminate|].
  cbn [download_loop]. unfold ctx_poll, time_Now, conn_ReadMessage.
  cbn [cs_in cs_out cs_ticks cs_polls cs_log].
  destruct (ctx_done env (cs_polls s)).
  { intros E. injection E as <- <- <-. reflexivity. }
  destruct (ReadMessage (cs_in s)) as [[[mt data] rest]|e].
  2: { intros E. injection E as <- <- <-. reflexivity. }
  destruct (Byte.eqb mt MsgData).
  - destruct (Decode data) as [[dataMsg rd]|e]; [apply IH|].
    intros E. injection E as <- <- <-. reflexivity.
  - destruct (Byte.eqb mt MsgComplete); [|apply IH].
    destruct (Decode data) as [[c rd]|e].
    + intros E. injection E as <- <- <-. cbn. eauto.
    + intros E. injection E as <- <- <-. reflexivity.
Qed.

Lemma runDownload_kept (env : ClientEnv) (result : Result)
  (s : ClientState W) rr r' s' :
  runDownload env result s = Some (rr, r', s') ->
  transfer_kept result r' rr.
Proof.
  unfold runDownload, time_Now.
  destruct (measureLatency _ _ _) as [latency s1].
  apply download_loop_kept.
Qed.

Lemma upload_from_ping_kept (env : ClientEnv) (cfg : Config)
  (result : Result) (startTime : Z) (cw : option (ChaosWriter W))
  (s : ClientState W) rr r' s' :
  upload_from_ping env cfg result startTime cw s = Some (rr, r', s') ->
  transfer_kept result r' rr.
Proof.
  unfold upload_from_ping.
  destruct (measureLatency env 0 s) as [latency s0].
  destruct (upload_loop _ _ _ _ _) as [[[rl v] s1]|]; [|discriminate].
  destruct rl as [|e|].
  2: { intros E. injection E as <- <- <-. reflexivity. }
  2: { intros E. injection E as <- <- <-. reflexivity. }
  destruct (measureLatency _ _ s1) as [latency1 s2]. unfold time_Now.
  destruct (conn_WriteMessage _ _ _) as [[e|] s3].
  { intros E. injection E as <- <- <-. reflexivity. }
  destruct (conn_ReadMessage s3) as [[[mt data]|e] s4].
  2: { intros E. injection E as <- <- <-. reflexivity. }
  destruct (negb (Byte.eqb mt MsgComplete)).
  { intros E. injection E as <- <- <-. reflexivity. }
  destruct (Decode data) as [[c rd]|e].
  - intros E. injection E as <- <- <-. cbn. eauto.
  - intros E. injection E as <- <- <-. reflexivity.
Qed.

Lemma runUpload_kept (env : ClientEnv) (cfg : Config) (result : Result)
  (s : ClientState W) rr r' s' :
  runUpload env cfg result s = Some (rr, r', s') ->
  transfer_kept result r' rr.
Proof.
  unfold runUpload, time_Now.
  destruct (ChaosConfig_IsEnabled (Chaos cfg));
    [destruct (BandwidthBps (Chaos cfg) >? 0)|];
    apply upload_from_ping_kept.
Qed.

Lemma calculateLatencyStats_keeps (latencies : list float64) (r : Result) :
  ID (calculateLatencyStats latencies r) = ID r
  /\ LocalPeer (calculateLatencyStats latencies r) = LocalPeer r
  /\ RemotePeer (calculateLatencyStats latencies r) = RemotePeer r
  /\ Result_Direction (calculateLatencyStats latencies r)
     = Result_Direction r
  /\ RequestedSize (calculateLatencyStats latencies r) = RequestedSize r
  /\ Success (calculateLatencyStats latencies r) = Success r
  /\ Result_Error (calculateLatencyStats latencies r) = Result_Error r.
Proof.
  unfold calculateLatencyStats.
  destruct (len latencies =? 0); now split_ands.
Qed.

Lemma CalculateThroughput_keeps (r : Result) :
  ID (CalculateThroughput r) = ID r
  /\ LocalPeer (CalculateThroughput r) = LocalPeer r
  /\ RemotePeer (CalculateThroughput r) = RemotePeer r
  /\ Result_Direction (CalculateThroughput r) = Result_Direction r
  /\ RequestedSize (CalculateThroughput r) = RequestedSize r
  /\ TransferredSize (CalculateThroughput r) = TransferredSize r
  /\ DurationMs (CalculateThroughput r) = DurationMs r
  /\ Success (CalculateThroughput r) = Success r
  /\ Result_Error (CalculateThroughput r) = Result_Error r.
Proof.
  unfold CalculateThroughput.
  destruct (DurationMs r >? 0); now split_ands.
Qed.

Lemma runUpload_ok (env : ClientEnv) (cfg : Config) (result : Result)
  (s : ClientState W) :
  0 <= Size cfg < 2 ^ 63 ->
  (exists out, runUpload env cfg result s = Some out)
  /\ (forall r' s',
         runUpload env cfg result s = Some (RunOk, r', s') ->
         TransferredSize r' = Size cfg).
Proof.
  intros HS. unfold runUpload, time_Now.
  destruct (ChaosConfig_IsEnabled (Chaos cfg));
    [destruct (BandwidthBps (Chaos cfg) >? 0)|];
    cbn [cs_in cs_out cs_ticks cs_polls cs_log];
    match goal with
    | |- context [upload_from_ping ?e ?c ?r ?t ?w ?s0] =>
        destruct (upload_from_ping_spec e c HS r t w s0) as [Ht Hok]
    end;
    (split; [exact Ht|]); intros r' s' E; now apply Hok in E.
Qed.

Lemma Config_Validate_size (c : Config) :
  Config_Validate c = None -> 0 < Size c.
Proof.
  unfold Config_Validate.
  destruct (String.eqb (PeerName c) ""); [discriminate|].
  destruct (Z.leb_spec (Size c) 0); [discriminate|]. lia.
Qed.

Lemma WithDefaults_direction (c : Config) :
  Config_Validate (Config_WithDefaults c) = None ->
  Direction (Config_WithDefaults c) = DirectionUpload
  \/ Direction (Config_WithDefaults c) = DirectionDownload.
Proof.
  intros Hv. apply Config_Validate_direction in Hv.
  destruct Hv as [H0|[H1|H2]]; [|now left|now right].
  exfalso. unfold Config_WithDefaults in H0. cbn [Direction] in H0.
  destruct (String.eqb_spec (Direction c) ""); [discriminate|contradiction].
Qed.

End ClientRunFacts.

Section ClientRunPost.

Context {W : Type} `{Writer W}.
Variable Error_text : run_error -> string.

Lemma Run_post_early (c : Client) (cfg : Config) (id : string)
  (e : RunError) (s : ClientState W) :
  (forall e', e <> ErrTransfer e') ->
  Run_post Error_text c cfg id (Some (RunReturns None (Some e), s)).
Proof.
  intros He. split; [discriminate|].
  intros res e0 s' E. injection E as <- <- <-.
  destruct e; try reflexivity. exfalso. now apply (He e).
Qed.

Lemma Run_post_finish (c : Client) (cfg cfg' : Config) (id : string)
  (now : Z) (transfer : option (run_result * Result * ClientState W)) :
  let result0 :=
    {| ID := id; Timestamp := now; LocalPeer := localPeer c;
       RemotePeer := PeerName cfg'; Result_Direction := Direction cfg';
       RequestedSize := Size cfg'; TransferredSize := 0; DurationMs := 0;
       ThroughputBps := 0%Q; ThroughputMbps := 0%Q; LatencyMinMs := 0%Q;
       LatencyMaxMs := 0%Q; LatencyAvgMs := 0%Q; Success := false;
       Result_Error := "";
       Result_Chaos :=
         if ChaosConfig_IsEnabled (Chaos cfg') then Some (Chaos cfg')
         else None |} in
  PeerName cfg' = PeerName cfg ->
  Size cfg' = Size cfg ->
  0 < Size cfg ->
  Direction cfg' = DirectionUpload \/ Direction cfg' = DirectionDownload ->
  (forall rr r' s', transfer = Some (rr, r', s') ->
     transfer_kept result0 r' rr) ->
  (Direction cfg' = DirectionUpload ->
   forall r' s', transfer = Some (RunOk, r', s') ->
     TransferredSize r' = Size cfg') ->
  Run_post Error_text c cfg id (Run_finish Error_text transfer).
Proof.
  intros result0 Ename Esize Hsize Hdir Hkept Hup.
  destruct transfer as [[[rr r'] s3]|];
    [|cbn [Run_finish]; split; discriminate].
  specialize (Hkept rr r' s3 eq_refl).
  destruct rr as [|e|]; cbn [transfer_kept Run_finish] in *.
  - split; [|discriminate].
    intros res s' E. injection E as <- <-.
    destruct Hkept as (lat & size & ms & Hr').
    eexists. split; [reflexivity|].
    set (r1 := set_status r' true (Result_Error r')).
    destruct (CalculateThroughput_keeps r1)
      as (-> & -> & -> & -> & -> & -> & _ & -> & ->).
    destruct (calculateLatencyStats_keeps lat (set_transfer result0 size ms))
      as (Hid & Hlp & Hrp & Hrd & Hrs & Hsu & Her).
    rewrite <- Hr' in Hid, Hlp, Hrp, Hrd, Hrs, Hsu, Her.
    cbn [r1 set_status Success Result_Error ID LocalPeer RemotePeer
         RequestedSize Result_Direction TransferredSize DurationMs].
    rewrite Her, Hid, Hlp, Hrp, Hrs, Hrd.
    cbn [set_transfer result0 Success Result_Error ID LocalPeer RemotePeer
         RequestedSize Result_Direction].
    split_ands; try reflexivity; try assumption.
    + intros Hd. exact (Hup Hd r' s3 eq_refl).
    + apply CalculateThroughput_again.
  - split; [discriminate|].
    intros res e0 s' E. injection E as <- <- <-. subst r'.
    eexists. split; [reflexivity|]. cbn. now split_ands.
  - split; discriminate.
Qed.

Lemma Run_post_holds (c : Client) (env : ClientEnv) (cfg : Config)
  (id : string) (connected : bool) (s : ClientState W) :
  Size cfg < 2 ^ 63 ->
  Run_post Error_text c cfg id (Run Error_text c env cfg id connected s).
Proof.
  intros HS. unfold Run.
  destruct (Config_Validate (Config_WithDefaults cfg)) as [ev|] eqn:EV;
    [apply Run_post_early; discriminate|].
  pose proof (Config_Validate_size _ EV) as Hsize.
  pose proof (WithDefaults_direction _ EV) as Hdir.
  set (cfg' := Config_WithDefaults cfg) in *.
  assert (Esize : Size cfg' = Size cfg) by reflexivity.
  assert (Ename : PeerName cfg' = PeerName cfg) by reflexivity.
  assert (HS' : 0 <= Size cfg' < 2 ^ 63) by lia.
  unfold time_Now.
  destruct connected; cbn [negb]; [|apply Run_post_early; discriminate].
  destruct (conn_WriteMessage _ _ _) as [[e|] s1];
    [apply Run_post_early; discriminate|].
  destruct (conn_ReadMessage s1) as [[[mt data]|e] s2];
    [|apply Run_post_early; discriminate].
  destruct (negb (Byte.eqb mt MsgAck)).
  { destruct (Byte.eqb mt MsgError); apply Run_post_early; discriminate. }
  destruct (Decode data) as [[ack rd]|e];
    [|apply Run_post_early; discriminate].
  destruct (negb (Ack_Accepted ack)); [apply Run_post_early; discriminate|].
  destruct (String.eqb_spec (Direction cfg') DirectionUpload) as [Eu|Enu].
  - match goal with
    | |- context [runUpload env cfg' ?r s2] =>
        destruct (runUpload_ok env cfg' r s2 HS') as [Ht Hok]
    end.
    apply (Run_post_finish c cfg cfg' id (clock env (cs_ticks s)));
      try assumption.
    + intros rr r' s'. apply runUpload_kept.
    + intros _. exact Hok.
  - destruct (String.eqb_spec (Direction cfg') DirectionDownload)
      as [Ed|End']; [|destruct Hdir; contradiction].
    apply (Run_post_finish c cfg cfg' id (clock env (cs_ticks s)));
      try assumption.
    + intros rr r' s'. apply runDownload_kept.
    + contradiction.
Qed.

End ClientRunPost.

(** X21: a configuration that [Validate] refuses after the defaults makes
    [Run] return at once, before the clock is read or the connection used.
    When [Run] returns a nil error, the result is there with [Success] set
    and no error text, carries the identifier, the peers and the requested
    size, which is positive; the direction is "upload" or "download"; for
    an upload [TransferredSize] is the requested size; and the throughput
    fields are those [CalculateThroughput] gives for the result's size and
    duration.  When a transfer fails, the result is there with [Success]
    false, the error's text and nothing transferred; every other error
    comes with a nil result. *)
Theorem Run_outcomes :
  forall (W : Type) (HW : Writer W) (Error_text : run_error -> string)
         (c : Client) (env : ClientEnv) (cfg : Config) (id : string)
         (connected : bool) (s : ClientState W),
    Size cfg < 2 ^ 63 ->
    (forall e,
           Config_Validate (Config_WithDefaults cfg) = Some e ->
           Run Error_text c env cfg id connected s
           = Some (RunReturns None (Some (ErrInvalidConfig e)), s))
    /\ (forall res s',
           Run Error_text c env cfg id connected s
           = Some (RunReturns res None, s') ->
           exists r,
             res = Some r
             /\ Success r = true
             /\ Result_Error r = ""%string
             /\ ID r = id
             /\ LocalPeer r = localPeer c
             /\ RemotePeer r = PeerName cfg
             /\ RequestedSize r = Size cfg
             /\ 0 < Size cfg
             /\ (Result_Direction r = DirectionUpload
                 \/ Result_Direction r = DirectionDownload)
             /\ (Result_Direction r = DirectionUpload ->
                 TransferredSize r = RequestedSize r)
             /\ CalculateThroughput r = r)
    /\ (forall res e s',
           Run Error_text c env cfg id connected s
           = Some (RunReturns res (Some e), s') ->
           match e with
           | ErrTransfer e' =>
               exists r,
                 res = Some r /\ Success r = false
                 /\ Result_Error r = Error_text e'
                 /\ TransferredSize r = 0
                 /\ RequestedSize r = Size cfg
           | _ => res = None
           end).
Proof.
  intros W HW Error_text c env cfg id connected s HS.
  destruct (Run_post_holds Error_text c env cfg id connected s HS)
    as (Hnil & Herr).
  split; [|split; assumption].
  intros e EV. unfold Run. now rewrite EV.
Qed.

Lemma Run_outcomes_witness :
  exists r s',
    Run (fun _ => "transfer failed"%string) sample_client dropping_env
      lossy_upload "run-1" true run_conn
    = Some (RunReturns (Some r) None, s')
    /\ Success r = true
    /\ RequestedSize r = 300.
Proof.
  destruct (Run_outcomes limitedBuffer _ (fun _ => "transfer failed"%string)
              sample_client dropping_env lossy_upload "run-1" true run_conn)
    as (_ & Hnil & _).
  - vm_compute. reflexivity.
  - assert (Hrun : exists res s',
               Run (fun _ => "transfer failed"%string) sample_client
                 dropping_env lossy_upload "run-1" true run_conn
               = Some (RunReturns res None, s')).
    { vm_compute. eexists _, _. reflexivity. }
    destruct Hrun as (res & s' & E).
    destruct (Hnil res s' E) as (r & -> & Hs & _ & _ & _ & _ & Hq & _).
    exists r, s'. split; [exact E|]. split; [exact Hs | exact Hq].
Defined.

(** ** Client: an upload read back *)

Section UploadWire.

Lemma sent_frames_app (l1 l2 : list ClientEvent) :
  sent_frames (l1 ++ l2) = sent_frames l1 ++ sent_frames l2.
Proof. unfold sent_frames. apply List.flat_map_app. Qed.

Lemma wire_of_app (l1 l2 : list ClientEvent) :
  wire_of (l1 ++ l2) = wire_of l1 ++ wire_of l2.
Proof. unfold wire_of. now rewrite sent_frames_app, List.flat_map_app. Qed.

(** On a buffer, [WriteMessage] does not fail and appends the frame. *)
Lemma conn_WriteMessage_buf {M} `{Message M} (t : MessageType) (m : M)
  (s : ClientState limitedBuffer) :
  fst (conn_WriteMessage t m s) = None
  /\ buf (cs_out (snd (conn_WriteMessage t m s)))
     = buf (cs_out s) ++ wire_frame (t, Encode m).
Proof.
  unfold conn_WriteMessage, wire_frame. cbn.
  now rewrite <- !List.app_assoc.
Qed.

Lemma wrote_events_refl (s : ClientState limitedBuffer) :
  wrote_events s s [].
Proof.
  split; [now rewrite List.app_nil_r|].
  unfold wire_of. cbn. now rewrite List.app_nil_r.
Qed.

Lemma wrote_events_same (s s' : ClientState limitedBuffer) :
  cs_log s' = cs_log s -> cs_out s' = cs_out s -> wrote_events s s' [].
Proof.
  intros Hl Ho. split; [now rewrite Hl, List.app_nil_r|].
  rewrite Ho. unfold wire_of. cbn. now rewrite List.app_nil_r.
Qed.

Lemma wrote_events_trans (s1 s2 s3 : ClientState limitedBuffer)
  (e1 e2 : list ClientEvent) :
  wrote_events s1 s2 e1 -> wrote_events s2 s3 e2 ->
  wrote_events s1 s3 (e1 ++ e2).
Proof.
  intros [L1 B1] [L2 B2]. split.
  - now rewrite L2, L1, List.app_assoc.
  - now rewrite B2, B1, wire_of_app, List.app_assoc.
Qed.

Lemma body_events_nil : body_events [].
Proof. split; [constructor|reflexivity]. Qed.

Lemma body_events_app (e1 e2 : list ClientEvent) :
  body_events e1 -> body_events e2 -> body_events (e1 ++ e2).
Proof.
  intros [F1 D1] [F2 D2]. split.
  - rewrite sent_frames_app. now apply List.Forall_app.
  - rewrite sent_frames_app, List.filter_app, data_log_app, List.map_app.
    now f_equal.
Qed.

Lemma conn_WriteMessage_wrote {M} `{Message M} (t : MessageType) (m : M)
  (s : ClientState limitedBuffer) :
  wrote_events s (snd (conn_WriteMessage t m s)) [EvSend t (Encode m)].
Proof.
  split; [apply conn_WriteMessage_log|].
  destruct (conn_WriteMessage_buf t m s) as [_ ->].
  unfold wire_of. cbn. now rewrite List.app_nil_r.
Qed.

Lemma conn_ReadMessage_out (s : ClientState limitedBuffer) :
  cs_out (snd (conn_ReadMessage s)) = cs_out s.
Proof.
  unfold conn_ReadMessage.
  destruct (ReadMessage (cs_in s)) as [[m rest]|e]; reflexivity.
Qed.

(** A ping on a buffer: one Ping frame is written. *)
Lemma measureLatency_wrote (env : ClientEnv) (seqNum : Z)
  (s : ClientState limitedBuffer) :
  exists ping : PingMessage,
    wrote_events s (snd (measureLatency env seqNum s))
      [EvSend MsgPing (Encode ping)].
Proof.
  unfold measureLatency, time_Now.
  match goal with
  | |- context [conn_WriteMessage ?t ?m ?s0] =>
      pose proof (conn_WriteMessage_wrote t m s0) as Hw;
      exists m;
      destruct (conn_WriteMessage t m s0) as [err s1]
  end.
  cbn [snd] in Hw.
  assert (Hw' : wrote_events s s1
                  [EvSend MsgPing
                     (Encode {| Ping_SeqNum := seqNum;
                                Ping_Timestamp := clock env (cs_ticks s) |})])
    by exact Hw.
  clear Hw. destruct Hw' as [Hl Hb].
  destruct err as [e|]; [split; assumption|].
  cbn [cs_in cs_out cs_ticks cs_polls cs_log].
  match goal with
  | |- context [conn_ReadMessage ?s0] =>
      pose proof (conn_ReadMessage_log s0) as Hrl;
      pose proof (conn_ReadMessage_out s0) as Hro;
      destruct (conn_ReadMessage s0) as [r s2]
  end.
  cbn [snd cs_log cs_out] in Hrl, Hro.
  assert (H2 : wrote_events s s2
                 [EvSend MsgPing
                    (Encode {| Ping_SeqNum := seqNum;
                               Ping_Timestamp := clock env (cs_ticks s) |})]).
  { split; [now rewrite Hrl | now rewrite Hro]. }
  destruct r as [[mt data]|e]; cbn [snd]; [|exact H2].
  destruct (negb (Byte.eqb mt MsgPong)); cbn [snd]; [exact H2|].
  destruct (Decode data) as [[pong rd]|e]; cbn [snd]; exact H2.
Qed.

Lemma ping_body (ping : PingMessage) :
  body_events [EvSend MsgPing (Encode ping)].
Proof.
  split.
  - cbn. constructor; [|constructor]. left.
    split; [reflexivity | apply Encode_Ping_length].
  - reflexivity.
Qed.

Lemma send_data_wrote (env : ClientEnv) (dataMsg : DataMessage)
  (s : ClientState limitedBuffer) :
  snd (fst (send_data env None dataMsg s)) = None
  /\ wrote_events s (snd (send_data env None dataMsg s))
       [EvData false dataMsg; EvSend MsgData (Encode dataMsg)].
Proof.
  unfold send_data.
  match goal with
  | |- context [conn_WriteMessage ?t ?m ?s0] =>
      pose proof (conn_WriteMessage_wrote t m s0) as [Hl Hb];
      destruct (conn_WriteMessage t m s0) as [err s1]
  end.
  cbn [fst snd log_event cs_log cs_out] in *.
  split; [reflexivity|]. split.
  - now rewrite Hl, <- List.app_assoc.
  - rewrite Hb. reflexivity.
Qed.

Lemma data_body (m : DataMessage) :
  body_events [EvData false m; EvSend MsgData (Encode m)].
Proof.
  split.
  - cbn. constructor; [|constructor]. now right.
  - reflexivity.
Qed.

Lemma periodic_ping_wrote (env : ClientEnv) (seqNum : Z)
  (latencies : list float64) (s : ClientState limitedBuffer) :
  exists evs,
    wrote_events s (snd (periodic_ping env seqNum latencies s)) evs
    /\ body_events evs.
Proof.
  unfold periodic_ping. destruct (seqNum mod 10 =? 0).
  - destruct (measureLatency_wrote env seqNum s) as [ping Hw].
    destruct (measureLatency env seqNum s) as [latency s1].
    eexists. split; [exact Hw | apply ping_body].
  - exists []. split; [apply wrote_events_refl | apply body_events_nil].
Qed.

(** The data loop without chaos writes pings and the data messages it
    logs. *)
Lemma upload_loop_wrote (env : ClientEnv) (cfg : Config) (fuel : nat) :
  forall (v : UploadVars) (s : ClientState limitedBuffer) rr v' s',
    up_chaosWriter v = None ->
    upload_loop fuel env cfg v s = Some (rr, v', s') ->
    exists evs, wrote_events s s' evs /\ body_events evs.
Proof.
  induction fuel as [|fuel IH]; intros v s rr v' s' Hcw; [discriminate|].
  cbn [upload_loop].
  destruct (negb (up_sent v <? Size cfg)).
  { intros E. injection E as <- <- <-.
    exists []. split; [apply wrote_events_refl | apply body_events_nil]. }
  unfold ctx_poll. cbn [cs_in cs_out cs_ticks cs_polls cs_log].
  set (s0 := {| cs_in := cs_in s; cs_out := cs_out s; cs_ticks := cs_ticks s;
                cs_polls := S (cs_polls s); cs_log := cs_log s |}).
  assert (H0 : wrote_events s s0 [])
    by (apply wrote_events_same; reflexivity).
  destruct (ctx_done env (cs_polls s)).
  { intros E. injection E as <- <- <-.
    exists []. split; [exact H0 | apply body_events_nil]. }
  rewrite Hcw.
  match goal with
  | |- context [send_data ?e None ?m ?s1] =>
      destruct (send_data_wrote e m s1) as [Hnone Hw1];
      pose proof (data_body m) as Hb1;
      destruct (send_data e None m s1) as [[out cw'] s2]
  end.
  cbn [fst snd] in Hnone, Hw1. subst cw'.
  pose proof (wrote_events_trans _ _ _ _ _ H0 Hw1) as Hw01.
  cbn [app] in Hw01.
  destruct out as [n [e|]|].
  - intros E. injection E as <- <- <-. eexists. split; eassumption.
  - match goal with
    | |- context [periodic_ping ?e ?q ?l ?s1] =>
        destruct (periodic_ping_wrote e q l s1) as (evs2 & Hw2 & Hb2);
        destruct (periodic_ping e q l s1) as [lat s3]
    end.
    cbn [snd] in Hw2. intros Hrun.
    apply IH in Hrun; [|reflexivity].
    destruct Hrun as (evs3 & Hw3 & Hb3).
    eexists. split.
    + eapply wrote_events_trans; [|exact Hw3].
      eapply wrote_events_trans; [exact Hw01 | exact Hw2].
    + apply body_events_app; [|exact Hb3].
      apply body_events_app; assumption.
  - intros E. injection E as <- <- <-. eexists. split; eassumption.
Qed.

(** A whole upload without chaos that ends well has written a ping, the
    frames of the loop and of the last ping, and a Complete of 16 bytes. *)
Lemma upload_from_ping_wrote (env : ClientEnv) (cfg : Config)
  (result : Result) (startTime : Z) (s : ClientState limitedBuffer) r' s' :
  upload_from_ping env cfg result startTime None s = Some (RunOk, r', s') ->
  exists (ping0 : PingMessage) (evs : list ClientEvent) (cpl : bytes),
    wrote_events s s'
      (EvSend MsgPing (Encode ping0) :: evs ++ [EvSend MsgComplete cpl])
    /\ body_events evs
    /\ len cpl = 16.
Proof.
  unfold upload_from_ping.
  destruct (measureLatency_wrote env 0 s) as [ping0 Hw0].
  destruct (measureLatency env 0 s) as [latency s0]. cbn [snd] in Hw0.
  destruct (upload_loop _ _ _ _ _) as [[[rl v] s1]|] eqn:Eloop;
    [|discriminate].
  apply upload_loop_wrote in Eloop; [|reflexivity].
  destruct Eloop as (evs1 & Hw1 & Hb1).
  destruct rl as [|e|]; [|discriminate|discriminate].
  match goal with
  | |- context [measureLatency ?e ?q s1] =>
      destruct (measureLatency_wrote e q s1) as [ping1 Hw2];
      destruct (measureLatency e q s1) as [latency1 s2]
  end.
  cbn [snd] in Hw2. unfold time_Now.
  match goal with
  | |- context [conn_WriteMessage ?t ?m ?sa] =>
      pose proof (conn_WriteMessage_wrote t m sa) as Hw3;
      pose proof (Encode_Complete_length m) as Hlen;
      destruct (conn_WriteMessage t m sa) as [err s3]
  end.
  cbn [snd] in Hw3.
  destruct err as [e|]; [discriminate|].
  pose proof (conn_ReadMessage_log s3) as Hrl.
  pose proof (conn_ReadMessage_out s3) as Hro.
  destruct (conn_ReadMessage s3) as [r s4]. cbn [snd] in Hrl, Hro.
  destruct r as [[mt data]|e]; [|discriminate].
  destruct (negb (Byte.eqb mt MsgComplete)); [discriminate|].
  destruct (Decode data) as [[c rd]|e]; [|discriminate].
  intros E. injection E as <- <-.
  eexists ping0, (evs1 ++ [EvSend MsgPing (Encode ping1)]), _.
  split; [|split; [|exact Hlen]].
  - assert (H4 : wrote_events s3 s4 [])
      by (apply wrote_events_same; assumption).
    match type of Hw3 with
    | wrote_events _ _ ?e =>
        assert (H23 : wrote_events s2 s3 e) by exact Hw3
    end.
    pose proof (wrote_events_trans _ _ _ _ _ Hw0 Hw1) as Ha.
    pose proof (wrote_events_trans _ _ _ _ _ Ha Hw2) as Hb.
    pose proof (wrote_events_trans _ _ _ _ _ Hb H23) as Hc.
    pose proof (wrote_events_trans _ _ _ _ _ Hc H4) as Hd.
    match type of Hd with
    | wrote_events _ _ ?l =>
        assert (El : l = EvSend MsgPing (Encode ping0)
                         :: (evs1 ++ [EvSend MsgPing (Encode ping1)])
                         ++ [EvSend MsgComplete
                               (Encode
                                  {| Complete_BytesTransferred := up_sent v;
                                     Complete_DurationNs :=
                                       Time_Sub (clock env (cs_ticks s2))
                                         startTime |})])
          by (rewrite List.app_nil_r; reflexivity)
    end.
    rewrite El in Hd. exact Hd.
  - apply body_events_app; [exact Hb1 | apply ping_body].
Qed.

Lemma Complete_reads_exactly :
  reads_exactly (Decode (M := CompleteMessage)) 16.
Proof.
  exact (reads_exactly_pair read_int64 read_int64
           (fun a b => {| Complete_BytesTransferred := a;
                          Complete_DurationNs := b |})
           8 8 read_int64_exactly read_int64_exactly).
Qed.

Lemma wire_frame_frame (f : MessageType * bytes) :
  len (snd f) < 2 ^ 32 -> wire_frame f = frame (fst f) (snd f).
Proof.
  intros Hl. unfold wire_frame, frame.
  assert (Hu : uint32 (len (snd f)) = len (snd f))
    by (unfold uint32, wrap, len in *; apply Z.mod_small; lia).
  now rewrite Hu.
Qed.

(** The frames of the body pass the receive loop, which counts the data
    bytes of the messages of the log. *)
Lemma body_frames_pass (fs : list (MessageType * bytes)) :
  forall ms : list DataMessage,
    Forall ping_or_data fs ->
    filter (fun f => Byte.eqb (fst f) MsgData) fs
    = map (fun m => (MsgData, Encode m)) ms ->
    Forall (fun m => is_uint32 (Data_SeqNum m)
                     /\ len (Data_Data m) <= ChunkSize) ms ->
    forallb frame_passed fs = true
    /\ data_total fs = plan_bytes ms
    /\ flat_map wire_frame fs = frames fs.
Proof.
  induction fs as [|[t p] fs IH]; intros ms Hf Hd Hm.
  - destruct ms; [|discriminate]. now split_ands.
  - apply List.Forall_cons_iff in Hf as [Hpd Hf]. cbn [filter fst] in Hd.
    destruct Hpd as [[Ht Hl]|Ht]; cbn [fst snd] in *; subst t.
    + change (Byte.eqb MsgPing MsgData) with false in Hd.
      destruct (IH ms Hf Hd Hm) as (Hp & Ht & Hw).
      cbn [forallb data_total fold_right flat_map].
      fold (data_total fs). unfold frames. cbn [flat_map fst snd].
      fold (frames fs). rewrite Hp, Ht, Hw.
      rewrite wire_frame_frame by (cbn [snd]; lia).
      unfold frame_passed, frame_data. cbn [fst snd].
      change (Byte.eqb MsgPing MsgComplete) with false.
      change (Byte.eqb MsgPing MsgData) with false.
      destruct (Z.ltb_spec (len p) (2 ^ 32)); [|lia].
      now split_ands.
    + change (Byte.eqb MsgData MsgData) with true in Hd.
      destruct ms as [|m ms]; [discriminate|].
      rewrite List.map_cons in Hd.
      assert (Ep : p = Encode m) by (injection Hd; intros; assumption).
      assert (Hd' : filter (fun f => Byte.eqb (fst f) MsgData) fs
                    = map (fun m => (MsgData, Encode m)) ms)
        by (injection Hd; intros; assumption).
      clear Hd. rename Hd' into Hd.
      apply List.Forall_cons_iff in Hm as [[Hseq Hlen] Hm].
      destruct (IH ms Hf Hd Hm) as (Hp & Ht & Hw).
      assert (Hdec : Decode (M := DataMessage) p = Ok (m, [])).
      { pose proof (Data_decodes_back m Hseq) as Hb.
        rewrite Ep, <- (List.app_nil_r (Encode m)). apply Hb.
        unfold ChunkSize in Hlen. lia. }
      assert (Hel : len p < 2 ^ 32).
      { rewrite Ep, Encode_Data_length. unfold ChunkSize in Hlen. lia. }
      cbn [forallb data_total fold_right flat_map plan_bytes].
      fold (data_total fs). fold (plan_bytes ms).
      unfold frames. cbn [flat_map fst snd]. fold (frames fs).
      rewrite Hp, Ht, Hw, wire_frame_frame by exact Hel.
      unfold frame_passed, frame_data. cbn [fst snd].
      change (Byte.eqb MsgData MsgComplete) with false.
      change (Byte.eqb MsgData MsgData) with true.
      rewrite Hdec.
      destruct (Z.ltb_spec (len p) (2 ^ 32)); [|lia].
      now split_ands.
Qed.

Lemma upload_plan_fits (chunk : bytes) (size : Z) :
  Forall (fun m => is_uint32 (Data_SeqNum m)
                   /\ len (Data_Data m) <= ChunkSize)
    (upload_plan chunk size).
Proof.
  unfold upload_plan. apply List.Forall_forall. intros m Hm.
  apply List.in_map_iff in Hm as (i & <- & _).
  unfold planned_chunk. cbn [Data_SeqNum Data_Data]. split.
  - unfold is_uint32, uint32, wrap. apply Z.mod_pos_bound. lia.
  - unfold len. rewrite List.length_firstn. unfold ChunkSize. lia.
Qed.

(** A ping on a buffer takes the next frame off the connection. *)
Lemma measureLatency_consumes (env : ClientEnv) (seqNum : Z)
  (s : ClientState limitedBuffer) (t : MessageType) (p rest : bytes) :
  cs_in s = frame t p ++ rest ->
  len p < 2 ^ 32 ->
  cs_in (snd (measureLatency env seqNum s)) = rest.
Proof.
  intros Hin Hl. unfold measureLatency, time_Now.
  match goal with
  | |- context [conn_WriteMessage ?t0 ?m ?s0] =>
      destruct (conn_WriteMessage_buf t0 m s0) as [Hnone _];
      destruct (conn_WriteMessage_keeps t0 m s0) as (Hk & _);
      destruct (conn_WriteMessage t0 m s0) as [err s1]
  end.
  cbn [fst snd cs_in] in Hnone, Hk. subst err.
  unfold conn_ReadMessage. cbn [cs_in cs_out cs_ticks cs_polls cs_log].
  rewrite Hk, Hin. unfold frame.
  rewrite <- !List.app_assoc, ReadMessage_frame by exact Hl.
  destruct (negb (Byte.eqb t MsgPong)); [reflexivity|].
  destruct (Decode p) as [[pong rd]|e]; reflexivity.
Qed.

End UploadWire.



(** ** Directory: the counters of the overview *)

Section OverviewCounts.

Lemma overview_total (now : Z) (peers : list peerInfo) :
  forall acc : AdminOverview,
    TotalPeers (fold_left (overview_step now) peers acc) = TotalPeers acc.
Proof.
  induction peers as [|info peers IH]; intros acc; [reflexivity|].
  cbn [fold_left]. now rewrite IH.
Qed.

Lemma filter_map_length {A B} (f : B -> bool) (g : A -> B) (l : list A) :
  List.length (filter f (map g l))
  = List.length (filter (fun a => f (g a)) l).
Proof.
  induction l as [|a l IH]; [reflexivity|].
  cbn [map filter]. destruct (f (g a)); cbn [List.length]; now rewrite IH.
Qed.

Lemma filter_all_iff {A} (f : A -> bool) (l : list A) :
  List.length (filter f l) = List.length l
  <-> forall a, In a l -> f a = true.
Proof.
  induction l as [|a l IH]; [split; [intros _ a []|reflexivity]|].
  pose proof (List.filter_length_le f l) as Hle.
  cbn [filter]. destruct (f a) eqn:Ea; cbn [List.length].
  - split.
    + intros E a' [<-|Hin]; [exact Ea|]. apply IH; [lia|exact Hin].
    + intros Hall. f_equal. apply IH. intros a' Hin. apply Hall. now right.
  - split; [lia|]. intros Hall.
    rewrite (Hall a (or_introl eq_refl)) in Ea. discriminate.
Qed.

End OverviewCounts.

(** X23: in the admin overview, [TotalPeers] is the number of peers and of
    entries of [Peers], and [OnlinePeers] is the number of entries whose
    [Online] flag is set, so it lies between 0 and [TotalPeers]; it equals
    [TotalPeers] exactly when every peer was seen less than two minutes
    ago. *)
Theorem overview_counts :
  forall (now : Z) (peers : list peerInfo),
    let ov := handleAdminOverview now peers in
    TotalPeers ov = len peers
    /\ len (Peers ov) = TotalPeers ov
    /\ OnlinePeers ov = len (filter Admin_Online (Peers ov))
    /\ 0 <= OnlinePeers ov <= TotalPeers ov
    /\ (OnlinePeers ov = TotalPeers ov
        <-> forall info, In info peers ->
              now - peer_LastSeen info < 2 * Minute).
Proof.
  intros now peers ov. subst ov. unfold handleAdminOverview.
  destruct (overview_loop now peers
              {| TotalPeers := len peers; OnlinePeers := 0; Peers := [] |})
    as [Hp Ho].
  rewrite overview_total, Hp, Ho.
  cbn [TotalPeers Peers OnlinePeers app]. rewrite Z.add_0_l.
  pose proof (List.filter_length_le
                (fun info => online now (peer_LastSeen info)) peers) as Hle.
  unfold len. rewrite List.length_map, filter_map_length.
  cbn [Admin_Online].
  split_ands; try reflexivity; try lia.
  rewrite Nat2Z.inj_iff, filter_all_iff.
  split; intros Hall info Hin; apply online_spec; now apply Hall.
Qed.
